(** * Todo microservice: query construction, validation boundary, error mapping

    A shallow embedding of the example microservice:
    - [models/Todo.js]            the entity, its insert/update hooks, its queries
                                  ([findByStatus], [findByPriority], [findDueSoon],
                                  [getStatistics]) and instance methods;
    - [services/todoService.js]   the ten operations of the service;
    - [middleware/validation.js]  the [validate] middleware factory;
    - [middleware/errorHandler.js] [handleError], [getErrorCode], [errorHandler],
                                  [notFoundHandler], [asyncHandler];
    - [validations/todoValidation.js], [routes/todoRoutes.js]  the request schemas;
    - [routes/healthRoutes.js]    [formatUptime];
    - [knexfile.js]               the database names.

    The relational store and the schema library are collaborators of the
    service.  The store is a list of rows queried through a small query
    builder ([where], [orderBy], [limit], [offset]) with SQL's three-valued
    conditions and the [LIKE] operator; the schema library is a small object
    validator with the three options the middleware passes to it.  The wall
    clock and the identifier generator are oracles indexed by the number of
    reads made so far. *)

From Stdlib Require Import ZArith List String Ascii Bool Lia QArith Qround.
From Stdlib Require Import Permutation DecimalString Sorted.
Import ListNotations.
Open Scope string_scope.
Open Scope Z_scope.

(* ------------------------------------------------------------------ *)
(** ** Characters and strings *)

(** ASCII case folding, as a case-insensitive collation compares letters. *)
Definition lower (c : ascii) : ascii :=
  let n := nat_of_ascii c in
  if (Nat.leb 65 n && Nat.leb n 90)%bool then ascii_of_nat (n + 32) else c.

Inductive Collation := case_insensitive | binary.

Definition char_eqb (k : Collation) (a b : ascii) : bool :=
  match k with
  | case_insensitive => Ascii.eqb (lower a) (lower b)
  | binary => Ascii.eqb a b
  end.

Fixpoint text_eqb (k : Collation) (s t : string) : bool :=
  match s, t with
  | EmptyString, EmptyString => true
  | String a s', String b t' => char_eqb k a b && text_eqb k s' t'
  | _, _ => false
  end.

(** [prefixb k p s]: [p] is a prefix of [s] up to the collation. *)
Fixpoint prefixb (k : Collation) (p s : string) : bool :=
  match p, s with
  | EmptyString, _ => true
  | String a p', String b s' => char_eqb k a b && prefixb k p' s'
  | String _ _, EmptyString => false
  end.

(** [containsb k needle hay]: [needle] occurs in [hay] as a substring, up to
    the collation.  This is the reading of "CONTAINS" in the documentation of
    the search and tag filters; the service itself goes through [like]. *)
Fixpoint containsb (k : Collation) (needle hay : string) : bool :=
  prefixb k needle hay ||
  match hay with
  | EmptyString => false
  | String _ hay' => containsb k needle hay'
  end.

(* ------------------------------------------------------------------ *)
(** ** The store's LIKE operator *)

Inductive LikeToken :=
| AnySequence              (* % *)
| AnyChar                  (* _ *)
| Literal (c : ascii).

(** A pattern is read left to right: [%] and [_] are wildcards, a backslash
    makes the next character literal (a trailing backslash stands for itself). *)
Fixpoint like_tokens (pattern : string) : list LikeToken :=
  match pattern with
  | EmptyString => []
  | String "%" rest => AnySequence :: like_tokens rest
  | String "_" rest => AnyChar :: like_tokens rest
  | String "\" (String c rest) => Literal c :: like_tokens rest
  | String c rest => Literal c :: like_tokens rest
  end.

Fixpoint like_match (k : Collation) (toks : list LikeToken) : string -> bool :=
  match toks with
  | [] => fun s => match s with EmptyString => true | String _ _ => false end
  | AnySequence :: toks' =>
      fix skip (s : string) : bool :=
        like_match k toks' s ||
        match s with
        | EmptyString => false
        | String _ s' => skip s'
        end
  | AnyChar :: toks' =>
      fun s => match s with
               | EmptyString => false
               | String _ s' => like_match k toks' s'
               end
  | Literal c :: toks' =>
      fun s => match s with
               | EmptyString => false
               | String d s' => char_eqb k c d && like_match k toks' s'
               end
  end.

Definition like (k : Collation) (pattern s : string) : bool :=
  like_match k (like_tokens pattern) s.

(* ------------------------------------------------------------------ *)
(** ** The entity *)

Inductive Priority := low | medium | high.

Definition priority_name (p : Priority) : string :=
  match p with low => "low" | medium => "medium" | high => "high" end.

Definition priority_index (p : Priority) : Z :=
  match p with low => 1 | medium => 2 | high => 3 end.

(** One row of table [todos].  Timestamps are milliseconds since the epoch;
    [tags] is the serialized text of the tags, as the seed script writes
    it. *)
Record Todo := {
  id : string;
  title : string;
  description : option string;
  completed : bool;
  priority : Priority;
  dueDate : option Z;
  tags : option string;
  createdAt : Z;
  updatedAt : Z
}.

(** [JSON.stringify] on an array of strings. *)
Definition dquote : ascii := ascii_of_nat 34.

Definition hex_digit (n : nat) : ascii :=
  ascii_of_nat (if Nat.ltb n 10 then 48 + n else 87 + n).

Definition json_escape_char (c : ascii) : string :=
  let n := nat_of_ascii c in
  if Ascii.eqb c dquote then String "\" (String dquote EmptyString)
  else if Ascii.eqb c "\" then "\\"
  else if Nat.eqb n 8 then "\b"
  else if Nat.eqb n 9 then "\t"
  else if Nat.eqb n 10 then "\n"
  else if Nat.eqb n 12 then "\f"
  else if Nat.eqb n 13 then "\r"
  else if Nat.ltb n 32 then
    "\u00" ++ String (hex_digit (Nat.div n 16))
                 (String (hex_digit (Nat.modulo n 16)) EmptyString)
  else String c EmptyString.

Fixpoint json_escape (s : string) : string :=
  match s with
  | EmptyString => EmptyString
  | String c s' => json_escape_char c ++ json_escape s'
  end.

Definition json_quote (s : string) : string :=
  String dquote (json_escape s ++ String dquote EmptyString).

Definition JSON_stringify (xs : list string) : string :=
  "[" ++ String.concat "," (map json_quote xs) ++ "]".

(* ------------------------------------------------------------------ *)
(** ** Query builder over the table *)

Inductive Column :=
| col_id | col_title | col_description | col_completed | col_priority
| col_dueDate | col_tags | col_createdAt | col_updatedAt.

Inductive SqlValue :=
| SqlNull
| SqlBool (b : bool)
| SqlInt (z : Z)
| SqlText (s : string).

Definition of_option {A} (f : A -> SqlValue) (o : option A) : SqlValue :=
  match o with Some a => f a | None => SqlNull end.

Definition column_value (c : Column) (r : Todo) : SqlValue :=
  match c with
  | col_id => SqlText (id r)
  | col_title => SqlText (title r)
  | col_description => of_option SqlText (description r)
  | col_completed => SqlBool (completed r)
  | col_priority => SqlText (priority_name (priority r))
  | col_dueDate => of_option SqlInt (dueDate r)
  | col_tags => of_option SqlText (tags r)
  | col_createdAt => SqlInt (createdAt r)
  | col_updatedAt => SqlInt (updatedAt r)
  end.

(** The JSON column compares byte-wise, the text columns case-insensitively. *)
Definition collation (c : Column) : Collation :=
  match c with
  | col_tags => binary
  | _ => case_insensitive
  end.

Inductive Where :=
| WhereEq (c : Column) (v : SqlValue)
| WhereLt (c : Column) (v : SqlValue)
| WhereLe (c : Column) (v : SqlValue)
| WhereLike (c : Column) (pattern : string)
| WhereIn (c : Column) (vs : list SqlValue)
| WhereOr (a b : Where)
| WhereAnd (a b : Where).

(** SQL conditions are three-valued: [None] is UNKNOWN, the value of any
    comparison with NULL. *)
Definition sql_eq (k : Collation) (a b : SqlValue) : option bool :=
  match a, b with
  | SqlNull, _ | _, SqlNull => None
  | SqlBool x, SqlBool y => Some (Bool.eqb x y)
  | SqlInt x, SqlInt y => Some (x =? y)
  | SqlText x, SqlText y => Some (text_eqb k x y)
  | _, _ => Some false
  end.

Definition sql_lt (a b : SqlValue) : option bool :=
  match a, b with
  | SqlNull, _ | _, SqlNull => None
  | SqlInt x, SqlInt y => Some (x <? y)
  | _, _ => Some false
  end.

Definition sql_le (a b : SqlValue) : option bool :=
  match a, b with
  | SqlNull, _ | _, SqlNull => None
  | SqlInt x, SqlInt y => Some (x <=? y)
  | _, _ => Some false
  end.

Definition sql_like (k : Collation) (a : SqlValue) (pattern : string) : option bool :=
  match a with
  | SqlNull => None
  | SqlText s => Some (like k pattern s)
  | _ => Some false
  end.

Definition sql_or (a b : option bool) : option bool :=
  match a, b with
  | Some true, _ | _, Some true => Some true
  | Some false, Some false => Some false
  | _, _ => None
  end.

Definition sql_and (a b : option bool) : option bool :=
  match a, b with
  | Some false, _ | _, Some false => Some false
  | Some true, Some true => Some true
  | _, _ => None
  end.

Fixpoint sql_in (k : Collation) (a : SqlValue) (vs : list SqlValue) : option bool :=
  match vs with
  | [] => Some false
  | v :: vs' => sql_or (sql_eq k a v) (sql_in k a vs')
  end.

Fixpoint eval_where (w : Where) (r : Todo) : option bool :=
  match w with
  | WhereEq c v => sql_eq (collation c) (column_value c r) v
  | WhereLt c v => sql_lt (column_value c r) v
  | WhereLe c v => sql_le (column_value c r) v
  | WhereLike c pattern => sql_like (collation c) (column_value c r) pattern
  | WhereIn c vs => sql_in (collation c) (column_value c r) vs
  | WhereOr a b => sql_or (eval_where a r) (eval_where b r)
  | WhereAnd a b => sql_and (eval_where a r) (eval_where b r)
  end.

(** A row is selected when the condition is TRUE (not FALSE, not UNKNOWN). *)
Definition holds (w : Where) (r : Todo) : bool :=
  match eval_where w r with
  | Some true => true
  | _ => false
  end.

Inductive SortBy := by_createdAt | by_updatedAt | by_dueDate | by_priority | by_title.
Inductive SortOrder := asc | desc.

Record Query := {
  wheres : list Where;                    (* combined by AND *)
  ordering : option (SortBy * SortOrder);
  q_limit : option Z;
  q_offset : option Z
}.

Definition Todo_query : Query :=
  {| wheres := []; ordering := None; q_limit := None; q_offset := None |}.

Definition where_ (w : Where) (q : Query) : Query :=
  {| wheres := wheres q ++ [w]; ordering := ordering q;
     q_limit := q_limit q; q_offset := q_offset q |}.

Definition orderBy (k : SortBy) (o : SortOrder) (q : Query) : Query :=
  {| wheres := wheres q; ordering := Some (k, o);
     q_limit := q_limit q; q_offset := q_offset q |}.

Definition limit_ (n : Z) (q : Query) : Query :=
  {| wheres := wheres q; ordering := ordering q;
     q_limit := Some n; q_offset := q_offset q |}.

Definition offset_ (n : Z) (q : Query) : Query :=
  {| wheres := wheres q; ordering := ordering q;
     q_limit := q_limit q; q_offset := Some n |}.

Definition selected (q : Query) (r : Todo) : bool :=
  forallb (fun w => holds w r) (wheres q).

(** Ordering of two rows on the sort column; NULL sorts first, the
    enumeration by its position, text by the folded characters. *)
Definition option_leb (a b : option Z) : bool :=
  match a, b with
  | None, _ => true
  | Some _, None => false
  | Some x, Some y => x <=? y
  end.

Fixpoint fold_case (s : string) : string :=
  match s with
  | EmptyString => EmptyString
  | String c s' => String (lower c) (fold_case s')
  end.

Definition key_leb (k : SortBy) (a b : Todo) : bool :=
  match k with
  | by_createdAt => createdAt a <=? createdAt b
  | by_updatedAt => updatedAt a <=? updatedAt b
  | by_dueDate => option_leb (dueDate a) (dueDate b)
  | by_priority => priority_index (priority a) <=? priority_index (priority b)
  | by_title => String.leb (fold_case (title a)) (fold_case (title b))
  end.

Definition order_leb (k : SortBy) (o : SortOrder) (a b : Todo) : bool :=
  match o with
  | asc => key_leb k a b
  | desc => key_leb k b a
  end.

Fixpoint insert_sorted (le : Todo -> Todo -> bool) (x : Todo) (l : list Todo) : list Todo :=
  match l with
  | [] => [x]
  | y :: l' => if le x y then x :: l else y :: insert_sorted le x l'
  end.

Fixpoint sort_rows (le : Todo -> Todo -> bool) (l : list Todo) : list Todo :=
  match l with
  | [] => []
  | x :: l' => insert_sorted le x (sort_rows le l')
  end.

Definition apply_order (o : option (SortBy * SortOrder)) (l : list Todo) : list Todo :=
  match o with
  | Some (k, d) => sort_rows (order_leb k d) l
  | None => l
  end.

Definition apply_offset (o : option Z) (l : list Todo) : list Todo :=
  match o with Some n => skipn (Z.to_nat n) l | None => l end.

Definition apply_limit (o : option Z) (l : list Todo) : list Todo :=
  match o with Some n => firstn (Z.to_nat n) l | None => l end.

(** [await query]: the rows of a SELECT. *)
Definition fetch (q : Query) (table : list Todo) : list Todo :=
  apply_limit (q_limit q)
    (apply_offset (q_offset q)
       (apply_order (ordering q) (filter (selected q) table))).

(** [query.count('* as count').first()], after [parseInt]. *)
Definition count (q : Query) (table : list Todo) : Z :=
  Z.of_nat (List.length (filter (selected q) table)).

(* ------------------------------------------------------------------ *)
(** ** Errors, the environment and the effect monad *)

(** A JavaScript error object, by the properties the handlers look at. *)
Record JsError := {
  instanceof_ApiError : bool;
  name : string;
  code : option string;
  errno : option Z;
  statusCode : option Z;
  message : string
}.

(** [new ApiError(statusCode, message)] *)
Definition ApiError (status : Z) (msg : string) : JsError :=
  {| instanceof_ApiError := true; name := "Error"; code := None; errno := None;
     statusCode := Some status; message := msg |}.

(** What the driver raises when an INSERT repeats a primary key. *)
Definition ER_DUP_ENTRY : JsError :=
  {| instanceof_ApiError := false; name := "Error"; code := Some "ER_DUP_ENTRY";
     errno := Some 1062; statusCode := None;
     message := "Duplicate entry for key 'PRIMARY'" |}.

(** What the model raises when a plain object violates [Todo.jsonSchema]:
    the library's [ValidationError], which carries status 400.  The message
    names the offending properties; the library's wording of each violation
    is left out. *)
Definition ValidationError (properties : list string) : JsError :=
  {| instanceof_ApiError := false; name := "ValidationError"; code := None;
     errno := None; statusCode := Some 400;
     message := String.concat ", " properties |}.

(** What it raises when a NOT NULL column without default gets no value. *)
Definition ER_NO_DEFAULT_FOR_FIELD : JsError :=
  {| instanceof_ApiError := false; name := "Error";
     code := Some "ER_NO_DEFAULT_FOR_FIELD"; errno := Some 1364;
     statusCode := None; message := "Field 'title' doesn't have a default value" |}.

(** The clock and the identifier generator answer the n-th read. *)
Record Oracle := {
  clock : nat -> Z;
  uuid : nat -> string
}.

Record World := {
  table : list Todo;
  clock_reads : nat;
  uuid_draws : nat
}.

Definition M (A : Type) : Type := Oracle -> World -> (JsError + A) * World.

Definition ret {A} (a : A) : M A := fun _ w => (inr a, w).

Definition bind {A B} (m : M A) (f : A -> M B) : M B :=
  fun o w =>
    match m o w with
    | (inl e, w') => (inl e, w')
    | (inr a, w') => f a o w'
    end.

Definition throw {A} (e : JsError) : M A := fun _ w => (inl e, w).

(** [try { m } catch (error) { h error }] *)
Definition try_catch {A} (m : M A) (h : JsError -> M A) : M A :=
  fun o w =>
    match m o w with
    | (inl e, w') => h e o w'
    | (inr a, w') => (inr a, w')
    end.

Declare Scope monad_scope.
Delimit Scope monad_scope with monad.
Notation "x <- m ;; f" := (bind m (fun x => f))
  (at level 61, m at next level, right associativity) : monad_scope.
Notation "' p <- m ;; f" := (bind m (fun p => f))
  (at level 61, p pattern, m at next level, right associativity) : monad_scope.
Notation "m ;;; f" := (bind m (fun _ => f))
  (at level 61, right associativity) : monad_scope.
Open Scope monad_scope.

(** [new Date()] *)
Definition new_Date : M Z :=
  fun o w =>
    (inr (clock o (clock_reads w)),
     {| table := table w; clock_reads := S (clock_reads w);
        uuid_draws := uuid_draws w |}).

(** [uuidv4()] *)
Definition uuidv4 : M string :=
  fun o w =>
    (inr (uuid o (uuid_draws w)),
     {| table := table w; clock_reads := clock_reads w;
        uuid_draws := S (uuid_draws w) |}).

Definition get_table : M (list Todo) := fun _ w => (inr (table w), w).

Definition put_table (t : list Todo) : M unit :=
  fun _ w =>
    (inr tt, {| table := t; clock_reads := clock_reads w;
                uuid_draws := uuid_draws w |}).

(* ------------------------------------------------------------------ *)
(** ** The model: hooks and statements *)

(** The [tags] property of a plain object: the array the client sent, or the
    text the service replaced it with. *)
Inductive TagsValue :=
| TagsArray (xs : list string)
| TagsText (s : string).

(** A plain object carrying entity properties: an insert payload or a patch.
    The outer [option] is the presence of the key, the inner one is [null].
    A due date is the date object the request validation hands on. *)
Record TodoData := {
  data_title : option string;
  data_description : option (option string);
  data_completed : option bool;
  data_priority : option Priority;
  data_dueDate : option (option Z);
  data_tags : option (option TagsValue);
  data_updatedAt : option Z
}.

Definition tags_column (v : TagsValue) : string :=
  match v with
  | TagsArray xs => JSON_stringify xs
  | TagsText s => s
  end.

Definition flatten {A} (o : option (option A)) : option A :=
  match o with Some x => x | None => None end.

Definition or_else {A} (o : option A) (d : A) : A :=
  match o with Some a => a | None => d end.

(** The length of a text. *)
Definition length_of (s : string) : Z := Z.of_nat (String.length s).

(** [Todo.jsonSchema], property by property, as the model checks a plain
    object when it is turned into an instance, before any hook or statement
    runs.  [title] is required on insert (not in a patch) and has 1 to 255
    characters; [description] is a string of at most 1000 characters or
    null; [dueDate] is a string or null, which the date object of a
    validated request is not; [tags] is an array of strings or null, which
    the text the service makes of an array is not.  [completed] and
    [priority] cannot be ill-typed here. *)
Definition title_violations (patch : bool) (d : TodoData) : list string :=
  match data_title d with
  | None => if patch then [] else ["title"]
  | Some t => if ((1 <=? length_of t) && (length_of t <=? 255))%bool
              then [] else ["title"]
  end.

Definition description_violations (d : TodoData) : list string :=
  match data_description d with
  | Some (Some s) => if length_of s <=? 1000 then [] else ["description"]
  | _ => []
  end.

Definition dueDate_violations (d : TodoData) : list string :=
  match data_dueDate d with
  | Some (Some _) => ["dueDate"]
  | _ => []
  end.

Definition tags_violations (d : TodoData) : list string :=
  match data_tags d with
  | Some (Some (TagsText _)) => ["tags"]
  | _ => []
  end.

Definition jsonSchema_violations (patch : bool) (d : TodoData) : list string :=
  (title_violations patch d ++ description_violations d ++
   dueDate_violations d ++ tags_violations d)%list.

(** [Todo.fromJson(json, { patch })]: the validation of the model. *)
Definition fromJson (patch : bool) (d : TodoData) : M unit :=
  match jsonSchema_violations patch d with
  | [] => ret tt
  | properties => throw (ValidationError properties)
  end.

(** [$beforeInsert]: the identifier, then the clock twice. *)
Definition beforeInsert : M (string * Z * Z) :=
  i <- uuidv4 ;;
  c <- new_Date ;;
  u <- new_Date ;;
  ret (i, c, u).

(** [$beforeUpdate] *)
Definition beforeUpdate (patch : TodoData) : M TodoData :=
  u <- new_Date ;;
  ret {| data_title := data_title patch;
         data_description := data_description patch;
         data_completed := data_completed patch;
         data_priority := data_priority patch;
         data_dueDate := data_dueDate patch;
         data_tags := data_tags patch;
         data_updatedAt := Some u |}.

Definition has_id (i : string) (r : Todo) : bool :=
  holds (WhereEq col_id (SqlText i)) r.

(** [Todo.query().insert(data)]: the validation of the model, the hook,
    then the INSERT.  Columns without a value take the defaults of the
    schema ([completed] false, [priority] medium); the primary key and the
    NOT NULL title are enforced.  The result is the inserted object, as the
    query returns it. *)
Definition insert (data : TodoData) : M Todo :=
  fromJson false data ;;;
  '(i, c, u) <- beforeInsert ;;
  match data_title data with
  | None => throw ER_NO_DEFAULT_FOR_FIELD
  | Some t =>
      rows <- get_table ;;
      if existsb (has_id i) rows then throw ER_DUP_ENTRY
      else
        let row := {| id := i; title := t;
                      description := flatten (data_description data);
                      completed := or_else (data_completed data) false;
                      priority := or_else (data_priority data) medium;
                      dueDate := flatten (data_dueDate data);
                      tags := option_map tags_column (flatten (data_tags data));
                      createdAt := c; updatedAt := u |} in
        put_table (rows ++ [row]) ;;;
        ret row
  end.

(** [UPDATE todos SET ...] on one row: only the keys present are written. *)
Definition apply_patch (p : TodoData) (r : Todo) : Todo :=
  {| id := id r;
     title := or_else (data_title p) (title r);
     description := or_else (data_description p) (description r);
     completed := or_else (data_completed p) (completed r);
     priority := or_else (data_priority p) (priority r);
     dueDate := or_else (data_dueDate p) (dueDate r);
     tags := or_else (option_map (option_map tags_column) (data_tags p)) (tags r);
     createdAt := createdAt r;
     updatedAt := or_else (data_updatedAt p) (updatedAt r) |}.

Definition update_where (sel : Todo -> bool) (p : TodoData) (rows : list Todo) : list Todo :=
  map (fun r => if sel r then apply_patch p r else r) rows.

Definition affected (sel : Todo -> bool) (rows : list Todo) : Z :=
  Z.of_nat (List.length (filter sel rows)).

(** [Todo.query().findById(id)] *)
Definition findById (i : string) : M (option Todo) :=
  rows <- get_table ;;
  ret (find (has_id i) rows).

(** [Todo.query().patchAndFetchById(id, patch)] *)
Definition patchAndFetchById (i : string) (patch : TodoData) : M (option Todo) :=
  fromJson true patch ;;;
  p <- beforeUpdate patch ;;
  rows <- get_table ;;
  put_table (update_where (has_id i) p rows) ;;;
  findById i.

(** [Todo.query().patch(patch).where...]: the number of rows matched. *)
Definition patch_where (patch : TodoData) (q : Query) : M Z :=
  fromJson true patch ;;;
  p <- beforeUpdate patch ;;
  rows <- get_table ;;
  put_table (update_where (selected q) p rows) ;;;
  ret (affected (selected q) rows).

(** [Todo.query().delete().where...]: the number of rows removed. *)
Definition delete_where (q : Query) : M Z :=
  rows <- get_table ;;
  put_table (filter (fun r => negb (selected q r)) rows) ;;;
  ret (affected (selected q) rows).

Definition whereIn (c : Column) (vs : list SqlValue) (q : Query) : Query :=
  where_ (WhereIn c vs) q.

(** [setDate(getDate() + days)] moves the date by whole days, taken here as
    24 hours each. *)
Definition day_ms : Z := 86400000.

(** [Todo.findDueSoon(days)] *)
Definition findDueSoon (days : Z) : M (list Todo) :=
  now <- new_Date ;;
  let futureDate := now + days * day_ms in
  rows <- get_table ;;
  ret (fetch (orderBy by_dueDate asc
               (where_ (WhereEq col_completed (SqlBool false))
                 (where_ (WhereLe col_dueDate (SqlInt futureDate)) Todo_query)))
             rows).

(* ------------------------------------------------------------------ *)
(** ** The service *)

Inductive Status := status_completed | status_pending | status_all.

(** The [options] object of [getAllTodos]; an absent key is [None]. *)
Module Options.
Record t := {
  page : option Z;
  limit : option Z;
  status : option Status;
  priority : option Priority;
  sortBy : option SortBy;
  sortOrder : option SortOrder;
  search : option string;
  tag : option string
}.
End Options.

Record Pagination := {
  currentPage : Z;
  totalPages : Z;
  totalItems : Z;
  itemsPerPage : Z;
  hasNextPage : bool;
  hasPrevPage : bool
}.

Record Filters := {
  filter_status : Status;
  filter_priority : option Priority;
  filter_search : option string;
  filter_tag : option string
}.

Record ListResult := {
  data : list Todo;
  pagination : Pagination;
  filters : Filters;
  sorting : SortBy * SortOrder
}.

Definition config_pagination_defaultLimit : Z := 10.

(** [if (s)] on an optional string: absent and empty are both falsy. *)
Definition truthy (s : option string) : option string :=
  match s with
  | Some EmptyString => None
  | _ => s
  end.

(** [Math.ceil(total / limit)] on the exact quotient. *)
Definition Math_ceil_div (total limit : Z) : Z :=
  Qceiling (inject_Z total / inject_Z limit)%Q.

(** The pattern [`%${search}%`]. *)
Definition search_pattern (search : string) : string :=
  "%" ++ search ++ "%".

(** The pattern [`%"${tag}"%`]. *)
Definition tag_pattern (tag : string) : string :=
  "%" ++ String dquote (tag ++ String dquote "%").

(** The grouped condition on title and description. *)
Definition search_clause (search : string) : Where :=
  WhereOr (WhereLike col_title (search_pattern search))
          (WhereLike col_description (search_pattern search)).

Definition tag_clause (tag : string) : Where :=
  WhereLike col_tags (tag_pattern tag).

(** The filters of [getAllTodos], in the order the service adds them. *)
Definition build_filters (status : Status) (priority : option Priority)
    (search tag : option string) : Query :=
  let query := Todo_query in
  let query :=
    match status with
    | status_completed => where_ (WhereEq col_completed (SqlBool true)) query
    | status_pending => where_ (WhereEq col_completed (SqlBool false)) query
    | status_all => query
    end in
  let query :=
    match priority with
    | Some p => where_ (WhereEq col_priority (SqlText (priority_name p))) query
    | None => query
    end in
  let query :=
    match truthy search with
    | Some s => where_ (search_clause s) query
    | None => query
    end in
  let query :=
    match truthy tag with
    | Some t => where_ (tag_clause t) query
    | None => query
    end in
  query.

Definition getAllTodos (options : Options.t) : M ListResult :=
  try_catch
    (let page := or_else (Options.page options) 1 in
     let limit := or_else (Options.limit options) config_pagination_defaultLimit in
     let status := or_else (Options.status options) status_all in
     let priority := Options.priority options in
     let sortBy := or_else (Options.sortBy options) by_createdAt in
     let sortOrder := or_else (Options.sortOrder options) desc in
     let search := Options.search options in
     let tag := Options.tag options in
     let query := build_filters status priority search tag in
     (* total count before pagination *)
     let totalQuery := query in
     rows <- get_table ;;
     let total := count totalQuery rows in
     let query := orderBy sortBy sortOrder query in
     let offset := (page - 1) * limit in
     let query := offset_ offset (limit_ limit query) in
     rows' <- get_table ;;
     let todos := fetch query rows' in
     let totalPages := Math_ceil_div total limit in
     let hasNextPage := page <? totalPages in
     let hasPrevPage := 1 <? page in
     ret {| data := todos;
            pagination := {| currentPage := page; totalPages := totalPages;
                             totalItems := total; itemsPerPage := limit;
                             hasNextPage := hasNextPage; hasPrevPage := hasPrevPage |};
            filters := {| filter_status := status; filter_priority := priority;
                          filter_search := search; filter_tag := tag |};
            sorting := (sortBy, sortOrder) |})
    (fun _ => throw (ApiError 500 "Failed to fetch todos")).

(** [if (data.tags && Array.isArray(data.tags)) data.tags = JSON.stringify(data.tags)] *)
Definition stringify_tags (d : TodoData) : TodoData :=
  match data_tags d with
  | Some (Some (TagsArray xs)) =>
      {| data_title := data_title d;
         data_description := data_description d;
         data_completed := data_completed d;
         data_priority := data_priority d;
         data_dueDate := data_dueDate d;
         data_tags := Some (Some (TagsText (JSON_stringify xs)));
         data_updatedAt := data_updatedAt d |}
  | _ => d
  end.

Definition rethrow_or (msg : string) {A} (error : JsError) : M A :=
  if instanceof_ApiError error then throw error
  else throw (ApiError 500 msg).

Definition createTodo (todoData : TodoData) : M Todo :=
  try_catch
    (insert (stringify_tags todoData))
    (fun _ => throw (ApiError 500 "Failed to create todo")).

(** The object literal [{ completed: b }]. *)
Definition completed_only (b : bool) : TodoData :=
  {| data_title := None; data_description := None; data_completed := Some b;
     data_priority := None; data_dueDate := None; data_tags := None;
     data_updatedAt := None |}.

(** Reading a property of [undefined]. *)
Definition TypeError : JsError :=
  {| instanceof_ApiError := false; name := "TypeError"; code := None;
     errno := None; statusCode := None;
     message := "Cannot read properties of undefined" |}.

Definition toggleTodoStatus (i : string) : M Todo :=
  try_catch
    (todo <- findById i ;;
     match todo with
     | None => throw (ApiError 404 "Todo not found")
     | Some t =>
         updatedTodo <- patchAndFetchById i (completed_only (negb (completed t))) ;;
         match updatedTodo with
         | Some u => ret u
         | None => throw TypeError
         end
     end)
    (rethrow_or "Failed to toggle todo status").

Definition getTodosDueSoon (days : Z) : M (list Todo) :=
  try_catch
    (findDueSoon days)
    (fun _ => throw (ApiError 500 "Failed to fetch todos due soon")).

Definition bulkUpdateTodos (ids : list string) (updateData : TodoData) : M Z :=
  try_catch
    (patch_where (stringify_tags updateData)
                 (whereIn col_id (map SqlText ids) Todo_query))
    (fun _ => throw (ApiError 500 "Failed to bulk update todos")).

Definition bulkDeleteTodos (ids : list string) : M Z :=
  try_catch
    (delete_where (whereIn col_id (map SqlText ids) Todo_query))
    (fun _ => throw (ApiError 500 "Failed to bulk delete todos")).

(* ------------------------------------------------------------------ *)
(** ** Request values and the schema library *)

#[local] Set Warnings "-register-all".

(** Values found in a request: parsed JSON, plus the date produced by the
    validator's conversion.  An absent property is [None] at lookup. *)
Inductive JsValue :=
| JsNull
| JsBool (b : bool)
| JsNumber (n : Z)
| JsString (s : string)
| JsDate (t : Z)
| JsArray (xs : list JsValue)
| JsObject (props : list (string * JsValue)).

Fixpoint get (k : string) (props : list (string * JsValue)) : option JsValue :=
  match props with
  | [] => None
  | (k', v) :: props' => if String.eqb k k' then Some v else get k props'
  end.

(** Strict equality on primitives, as the allow-list of a schema compares. *)
Definition prim_eqb (a b : JsValue) : bool :=
  match a, b with
  | JsNull, JsNull => true
  | JsBool x, JsBool y => Bool.eqb x y
  | JsNumber x, JsNumber y => x =? y
  | JsString x, JsString y => String.eqb x y
  | _, _ => false
  end.

Inductive Message :=
| Text (s : string)           (* a message given with [.messages({...})] *)
| Template (rule : string).   (* the library's own template for the rule *)

Record Detail := {
  path : list string;
  rule : string;
  detail_message : Message;
  context_value : option JsValue
}.

(** Validation preferences: the three options of the call, and the messages
    in force, which a schema hands down to the schemas nested in it. *)
Record Prefs := {
  abortEarly : bool;
  allowUnknown : bool;
  stripUnknown : bool;
  custom_messages : list (string * string)
}.

(** What validation reads from the platform: the identifier format check,
    ISO date parsing, and the time at which [min('now')] is evaluated. *)
Record Runtime := {
  isGuid : string -> bool;
  parseIsoDate : string -> option Z;
  now : Z
}.

Record Validation := {
  errors : list Detail;
  value : option JsValue
}.

Definition Schema : Type :=
  Runtime -> Prefs -> list string -> option JsValue -> Validation.

Fixpoint lookup_message (msgs : list (string * string)) (r : string) : option string :=
  match msgs with
  | [] => None
  | (r', m) :: msgs' => if String.eqb r r' then Some m else lookup_message msgs' r
  end.

Definition mk_error (prefs : Prefs) (p : list string) (r : string)
    (v : option JsValue) : Detail :=
  {| path := p; rule := r;
     detail_message := match lookup_message (custom_messages prefs) r with
                       | Some m => Text m
                       | None => Template r
                       end;
     context_value := v |}.

Definition passed (v : option JsValue) : Validation :=
  {| errors := []; value := v |}.

Definition failed (es : list Detail) (v : option JsValue) : Validation :=
  {| errors := es; value := v |}.

Definition limit_errors (prefs : Prefs) (es : list Detail) : list Detail :=
  if abortEarly prefs then firstn 1 es else es.

(** Flags shared by every schema type. *)
Record Any := {
  required : bool;
  allow : list JsValue;
  only : bool;                         (* set by [.valid(...)] *)
  default : option JsValue;
  messages : list (string * string)
}.

Definition optional : Any :=
  {| required := false; allow := []; only := false; default := None; messages := [] |}.

Definition with_messages (a : Any) (prefs : Prefs) : Prefs :=
  {| abortEarly := abortEarly prefs;
     allowUnknown := allowUnknown prefs;
     stripUnknown := stripUnknown prefs;
     custom_messages := (messages a ++ custom_messages prefs)%list |}.

(** The part of validation common to all types: presence and default,
    conversion, the allow-list, then the type's own checks. *)
Definition any (a : Any) (coerce : Runtime -> JsValue -> JsValue)
    (base : Runtime -> Prefs -> list string -> JsValue -> Validation) : Schema :=
  fun rt prefs p v =>
    let prefs := with_messages a prefs in
    match v with
    | None =>
        if required a
        then failed [mk_error prefs p "any.required" None] None
        else passed (default a)
    | Some x =>
        let x := coerce rt x in
        if existsb (prim_eqb x) (allow a) then passed (Some x)
        else if only a then
          let e := mk_error prefs p "any.only" (Some x) in
          if abortEarly prefs then failed [e] (Some x)
          else
            let r := base rt prefs p x in
            failed (e :: errors r) (value r)
        else
          let r := base rt prefs p x in
          failed (limit_errors prefs (errors r)) (value r)
    end.

(** White space, trimming and length.  A text is held as its bytes: on
    texts of ASCII characters the white space is that of
    [String.prototype.trim] and the length that of [String.prototype.length]. *)
Definition is_space (c : ascii) : bool :=
  let n := nat_of_ascii c in
  (Nat.eqb n 32 || (Nat.leb 9 n && Nat.leb n 13))%bool.

Fixpoint trim_left (s : string) : string :=
  match s with
  | String c s' => if is_space c then trim_left s' else s
  | EmptyString => EmptyString
  end.

Fixpoint rev_string (acc s : string) : string :=
  match s with
  | EmptyString => acc
  | String c s' => rev_string (String c acc) s'
  end.

Definition trim (s : string) : string :=
  rev_string EmptyString (trim_left (rev_string EmptyString (trim_left s))).

Definition str_length (s : string) : Z := Z.of_nat (String.length s).

Definition below (lim : option Z) (n : Z) : bool :=
  match lim with Some m => n <? m | None => false end.

Definition above (lim : option Z) (n : Z) : bool :=
  match lim with Some m => m <? n | None => false end.

(** [Joi.string()], with [.trim()], [.min()], [.max()] and [.uuid()]. *)
Definition string_coerce (trimmed : bool) (_ : Runtime) (x : JsValue) : JsValue :=
  match x with
  | JsString s => if trimmed then JsString (trim s) else x
  | _ => x
  end.

Definition string_base (min max : option Z) (guid : bool)
    (rt : Runtime) (prefs : Prefs) (p : list string) (x : JsValue) : Validation :=
  match x with
  | JsString EmptyString =>
      failed [mk_error prefs p "string.empty" (Some x)] (Some x)
  | JsString s =>
      failed
        ((if below min (str_length s)
          then [mk_error prefs p "string.min" (Some x)] else []) ++
         (if above max (str_length s)
          then [mk_error prefs p "string.max" (Some x)] else []) ++
         (if (guid && negb (isGuid rt s))%bool
          then [mk_error prefs p "string.guid" (Some x)] else []))%list
        (Some x)
  | _ => failed [mk_error prefs p "string.base" (Some x)] (Some x)
  end.

Definition Joi_string (trimmed : bool) (min max : option Z) (guid : bool) (a : Any) : Schema :=
  any a (string_coerce trimmed) (string_base min max guid).

(** [Joi.boolean()] *)
Definition boolean_coerce (_ : Runtime) (x : JsValue) : JsValue :=
  match x with
  | JsString s =>
      if text_eqb case_insensitive s "true" then JsBool true
      else if text_eqb case_insensitive s "false" then JsBool false
      else x
  | _ => x
  end.

Definition boolean_base (_ : Runtime) (prefs : Prefs) (p : list string)
    (x : JsValue) : Validation :=
  match x with
  | JsBool _ => passed (Some x)
  | _ => failed [mk_error prefs p "boolean.base" (Some x)] (Some x)
  end.

Definition Joi_boolean (a : Any) : Schema :=
  any a boolean_coerce boolean_base.

(** [String(n)] on an integer, in decimal. *)
Definition number_text (n : Z) : string :=
  NilZero.string_of_int (Z.to_int n).

(** [Joi.date().iso()], with [.min('now')] when [min_now] is set.  Strings
    and numbers are converted: a number is read through its decimal text. *)
Definition date_coerce (rt : Runtime) (x : JsValue) : JsValue :=
  match x with
  | JsString s => match parseIsoDate rt s with
                  | Some t => JsDate t
                  | None => x
                  end
  | JsNumber n => match parseIsoDate rt (number_text n) with
                  | Some t => JsDate t
                  | None => x
                  end
  | _ => x
  end.

Definition date_base (min_now : bool) (rt : Runtime) (prefs : Prefs)
    (p : list string) (x : JsValue) : Validation :=
  match x with
  | JsDate t =>
      if (min_now && (t <? now rt))%bool
      then failed [mk_error prefs p "date.min" (Some x)] (Some x)
      else passed (Some x)
  | JsString _ => failed [mk_error prefs p "date.format" (Some x)] (Some x)
  | _ => failed [mk_error prefs p "date.base" (Some x)] (Some x)
  end.

Definition Joi_date_iso (min_now : bool) (a : Any) : Schema :=
  any a date_coerce (date_base min_now).

Definition index_name (n : nat) : string :=
  NilEmpty.string_of_uint (Nat.to_uint n).

Fixpoint validate_items (items : Schema) (rt : Runtime) (prefs : Prefs)
    (p : list string) (i : nat) (xs : list JsValue) : list Detail * list JsValue :=
  match xs with
  | [] => ([], [])
  | x :: xs' =>
      let r := items rt prefs (p ++ [index_name i])%list (Some x) in
      let '(es, vs) := validate_items items rt prefs p (S i) xs' in
      ((errors r ++ es)%list, or_else (value r) x :: vs)
  end.

Definition list_length {A} (l : list A) : Z := Z.of_nat (List.length l).

(** [Joi.array().items(items)], with [.min()] and [.max()].  The items are
    a rule of the array like the two bounds, and run first: when errors are
    collected, the bounds are checked whether or not every item passed, on
    the converted array when they all did and on the array as given
    otherwise. *)
Definition no_coerce (_ : Runtime) (x : JsValue) : JsValue := x.

Definition array_base (items : Schema) (min max : option Z)
    (rt : Runtime) (prefs : Prefs) (p : list string) (x : JsValue) : Validation :=
  match x with
  | JsArray xs =>
      let '(es, vs) := validate_items items rt prefs p 0 xs in
      let current := match es with
                     | [] => JsArray vs
                     | _ :: _ => x
                     end in
      failed
        (es ++
         (if below min (list_length xs)
          then [mk_error prefs p "array.min" (Some current)] else []) ++
         (if above max (list_length xs)
          then [mk_error prefs p "array.max" (Some current)] else []))%list
        (Some current)
  | _ => failed [mk_error prefs p "array.base" (Some x)] (Some x)
  end.

Definition Joi_array (items : Schema) (min max : option Z) (a : Any) : Schema :=
  any a no_coerce (array_base items min max).

Fixpoint validate_keys (keys : list (string * Schema)) (rt : Runtime) (prefs : Prefs)
    (p : list string) (input : list (string * JsValue))
    : list Detail * list (string * JsValue) :=
  match keys with
  | [] => ([], [])
  | (k, schema) :: keys' =>
      let r := schema rt prefs (p ++ [k])%list (get k input) in
      let '(es, vs) := validate_keys keys' rt prefs p input in
      ((errors r ++ es)%list,
       match value r with
       | Some v => (k, v) :: vs
       | None => vs
       end)
  end.

Definition known (keys : list (string * Schema)) (k : string) : bool :=
  existsb (String.eqb k) (map fst keys).

Definition unknown_props (keys : list (string * Schema))
    (input : list (string * JsValue)) : list (string * JsValue) :=
  filter (fun kv => negb (known keys (fst kv))) input.

(** Keys the schema does not name: removed under [stripUnknown], otherwise
    kept when allowed and reported when not. *)
Definition handle_unknown (keys : list (string * Schema)) (prefs : Prefs)
    (p : list string) (input : list (string * JsValue))
    : list Detail * list (string * JsValue) :=
  if stripUnknown prefs then ([], [])
  else if allowUnknown prefs then ([], unknown_props keys input)
  else (map (fun kv => mk_error prefs (p ++ [fst kv])%list "object.unknown" (Some (snd kv)))
            (unknown_props keys input),
        unknown_props keys input).

(** [Joi.object({...})], with [.min()].  The rule runs only when every key
    passed, and counts the keys left after unknown ones were removed. *)
Definition object_base (keys : list (string * Schema)) (min : option Z)
    (rt : Runtime) (prefs : Prefs) (p : list string) (x : JsValue) : Validation :=
  match x with
  | JsObject input =>
      let '(es, vs) := validate_keys keys rt prefs p input in
      let '(us, extra) := handle_unknown keys prefs p input in
      let out := JsObject (vs ++ extra)%list in
      match (es ++ us)%list with
      | _ :: _ => failed (es ++ us)%list (Some out)
      | [] =>
          if below min (list_length (vs ++ extra)%list)
          then failed [mk_error prefs p "object.min" (Some out)] (Some out)
          else passed (Some out)
      end
  | _ => failed [mk_error prefs p "object.base" (Some x)] (Some x)
  end.

Definition Joi_object (keys : list (string * Schema)) (min : option Z) (a : Any) : Schema :=
  any a no_coerce (object_base keys min).

(* ------------------------------------------------------------------ *)
(** ** The request schemas *)

Definition priorities : list JsValue :=
  [JsString "low"; JsString "medium"; JsString "high"].

Definition tag_item : Schema :=
  Joi_string true (Some 1) (Some 50) false optional.

Definition tags_messages : list (string * string) :=
  [("array.max", "Cannot have more than 10 tags");
   ("string.min", "Tag must be at least 1 character long");
   ("string.max", "Tag cannot exceed 50 characters")].

Definition description_schema : Schema :=
  Joi_string true None (Some 1000) false
    {| required := false; allow := [JsString EmptyString; JsNull]; only := false;
       default := None;
       messages := [("string.max", "Description cannot exceed 1000 characters")] |}.

Definition tags_schema : Schema :=
  Joi_array tag_item None (Some 10)
    {| required := false; allow := [JsNull]; only := false; default := None;
       messages := tags_messages |}.

Definition create_title : Schema :=
  Joi_string true (Some 1) (Some 255) false
    {| required := true; allow := []; only := false; default := None;
       messages := [("string.empty", "Title cannot be empty");
                    ("string.min", "Title must be at least 1 character long");
                    ("string.max", "Title cannot exceed 255 characters");
                    ("any.required", "Title is required")] |}.

Definition create_priority : Schema :=
  Joi_string false None None false
    {| required := false; allow := priorities; only := true;
       default := Some (JsString "medium");
       messages := [("any.only", "Priority must be one of: low, medium, high")] |}.

Definition create_dueDate : Schema :=
  Joi_date_iso true
    {| required := false; allow := [JsNull]; only := false; default := None;
       messages := [("date.format", "Due date must be a valid ISO date");
                    ("date.min", "Due date cannot be in the past")] |}.

Definition create_completed : Schema :=
  Joi_boolean
    {| required := false; allow := []; only := false;
       default := Some (JsBool false); messages := [] |}.

Definition createTodoSchema_keys : list (string * Schema) :=
  [("title", create_title);
   ("description", description_schema);
   ("priority", create_priority);
   ("dueDate", create_dueDate);
   ("tags", tags_schema);
   ("completed", create_completed)].

Definition createTodoSchema : Schema :=
  Joi_object createTodoSchema_keys None optional.

Definition updateTodoSchema_keys : list (string * Schema) :=
  [("title",
    Joi_string true (Some 1) (Some 255) false
      {| required := false; allow := []; only := false; default := None;
         messages := [("string.empty", "Title cannot be empty");
                      ("string.min", "Title must be at least 1 character long");
                      ("string.max", "Title cannot exceed 255 characters")] |});
   ("description", description_schema);
   ("priority",
    Joi_string false None None false
      {| required := false; allow := priorities; only := true; default := None;
         messages := [("any.only", "Priority must be one of: low, medium, high")] |});
   ("dueDate",
    Joi_date_iso false
      {| required := false; allow := [JsNull]; only := false; default := None;
         messages := [("date.format", "Due date must be a valid ISO date")] |});
   ("tags", tags_schema);
   ("completed", Joi_boolean optional)].

Definition update_messages : list (string * string) :=
  [("object.min", "At least one field must be provided for update")].

Definition updateTodoSchema : Schema :=
  Joi_object updateTodoSchema_keys (Some 1)
    {| required := false; allow := []; only := false; default := None;
       messages := update_messages |}.

Definition uuidSchema (a : Any) : Schema :=
  Joi_string false None None true a.

Definition uuidParamSchema : Schema :=
  Joi_object
    [("id",
      uuidSchema
        {| required := true; allow := []; only := false; default := None;
           messages := [("any.required", "Todo ID is required");
                        ("string.guid", "Invalid todo ID format")] |})]
    None optional.

Definition ids_schema (too_many : string) : Schema :=
  Joi_array (uuidSchema optional) (Some 1) (Some 50)
    {| required := true; allow := []; only := false; default := None;
       messages := [("array.min", "At least one ID is required");
                    ("array.max", too_many);
                    ("any.required", "IDs array is required")] |}.

Definition bulkUpdateSchema : Schema :=
  Joi_object
    [("ids", ids_schema "Cannot update more than 50 todos at once");
     ("updateData",
      Joi_object updateTodoSchema_keys (Some 1)
        {| required := true; allow := []; only := false; default := None;
           messages := ("any.required", "Update data is required")
                       :: update_messages |})]
    None optional.

Definition bulkDeleteSchema : Schema :=
  Joi_object
    [("ids", ids_schema "Cannot delete more than 50 todos at once")]
    None optional.

(* ------------------------------------------------------------------ *)
(** ** The validation middleware *)

Inductive Property := body | query | params.

Record Request := {
  req_body : option JsValue;
  req_query : option JsValue;
  req_params : option JsValue
}.

Definition get_property (property : Property) (req : Request) : option JsValue :=
  match property with
  | body => req_body req
  | query => req_query req
  | params => req_params req
  end.

Definition set_property (property : Property) (v : option JsValue) (req : Request) : Request :=
  match property with
  | body => {| req_body := v; req_query := req_query req; req_params := req_params req |}
  | query => {| req_body := req_body req; req_query := v; req_params := req_params req |}
  | params => {| req_body := req_body req; req_query := req_query req; req_params := v |}
  end.

Record ErrorEntry := {
  field : string;
  entry_message : Message;
  entry_value : option JsValue
}.

Inductive ResponseBody :=
| Failure (error_code error_message : string) (details : list ErrorEntry)
| OneTodo (info : string) (todo : Todo)
| BulkUpdated (updatedCount totalRequested : Z)
| BulkDeleted (deletedCount totalRequested : Z).

Record Response := {
  status : Z;
  json : ResponseBody
}.

(** A middleware either answers the request or hands it, possibly
    rewritten, to the next handler. *)
Inductive Outcome :=
| Respond (res : Response)
| Next (req : Request).

(** [detail.path.join('.')] *)
Definition join_path (p : list string) : string := String.concat "." p.

Definition errorDetail (d : Detail) : ErrorEntry :=
  {| field := join_path (path d);
     entry_message := detail_message d;
     entry_value := context_value d |}.

Definition validate_options : Prefs :=
  {| abortEarly := false; allowUnknown := false; stripUnknown := true;
     custom_messages := [] |}.

Definition validate (schema : Schema) (property : Property) (rt : Runtime)
    (req : Request) : Outcome :=
  let r := schema rt validate_options [] (get_property property req) in
  match errors r with
  | _ :: _ =>
      let errorDetails := map errorDetail (errors r) in
      Respond {| status := 400;
                 json := Failure "VALIDATION_ERROR" "Request validation failed"
                                 errorDetails |}
  | [] => Next (set_property property (value r) req)
  end.

Definition validateBody (schema : Schema) := validate schema body.
Definition validateQuery (schema : Schema) := validate schema query.
Definition validateParams (schema : Schema) := validate schema params.

(* ------------------------------------------------------------------ *)
(** ** The error handler *)

Definition code_is (err : JsError) (c : string) : bool :=
  match code err with Some c' => String.eqb c' c | None => false end.

Definition errno_is (err : JsError) (n : Z) : bool :=
  match errno err with Some n' => n' =? n | None => false end.

Definition handleError (err : JsError) : JsError :=
  let error := err in
  let error :=
    if String.eqb (name err) "ValidationError"
    then ApiError 400 "Validation Error" else error in
  let error :=
    if (code_is err "23000" || errno_is err 1062)%bool
    then ApiError 400 "Duplicate field value entered" else error in
  let error :=
    if (code_is err "ECONNREFUSED" || code_is err "ENOTFOUND")%bool
    then ApiError 503 "Database connection failed" else error in
  let error :=
    if String.eqb (name err) "JsonWebTokenError"
    then ApiError 401 "Invalid token" else error in
  let error :=
    if String.eqb (name err) "TokenExpiredError"
    then ApiError 401 "Token expired" else error in
  error.

Definition errorCodes : list (Z * string) :=
  [(400, "BAD_REQUEST"); (401, "UNAUTHORIZED"); (403, "FORBIDDEN");
   (404, "NOT_FOUND"); (409, "CONFLICT"); (422, "UNPROCESSABLE_ENTITY");
   (429, "TOO_MANY_REQUESTS"); (500, "INTERNAL_SERVER_ERROR");
   (502, "BAD_GATEWAY"); (503, "SERVICE_UNAVAILABLE"); (504, "GATEWAY_TIMEOUT")].

Definition getErrorCode (statusCode : Z) : string :=
  match find (fun e => fst e =? statusCode) errorCodes with
  | Some (_, c) => c
  | None => "UNKNOWN_ERROR"
  end.

Definition sendErrorResponse (err : JsError) : Response :=
  let statusCode := or_else (statusCode err) 0 in
  {| status := statusCode;
     json := Failure (getErrorCode statusCode) (message err) [] |}.

Definition errorHandler (err : JsError) : Response :=
  let error := handleError err in
  let error :=
    match statusCode error with
    | None | Some 0 => ApiError 500 "Something went wrong"
    | Some _ => error
    end in
  sendErrorResponse error.

(* ------------------------------------------------------------------ *)
(** ** Controllers and routes *)

Definition Handler : Type := Request -> Oracle -> World -> Response * World.

(** [asyncHandler(fn)]: a rejected promise goes to the error handler. *)
Definition asyncHandler (fn : Request -> M Response) : Handler :=
  fun req o w =>
    match fn req o w with
    | (inr res, w') => (res, w')
    | (inl err, w') => (errorHandler err, w')
    end.

Definition props_of (v : option JsValue) : list (string * JsValue) :=
  match v with
  | Some (JsObject ps) => ps
  | _ => []
  end.

Definition priority_of (s : string) : option Priority :=
  if String.eqb s "low" then Some low
  else if String.eqb s "medium" then Some medium
  else if String.eqb s "high" then Some high
  else None.

Fixpoint strings_of (xs : list JsValue) : list string :=
  match xs with
  | [] => []
  | JsString s :: xs' => s :: strings_of xs'
  | _ :: xs' => strings_of xs'
  end.

(** The entity properties of a validated body. *)
Definition todoData_of (v : option JsValue) : TodoData :=
  let ps := props_of v in
  {| data_title := match get "title" ps with
                   | Some (JsString s) => Some s
                   | _ => None
                   end;
     data_description := match get "description" ps with
                         | Some (JsString s) => Some (Some s)
                         | Some JsNull => Some None
                         | _ => None
                         end;
     data_completed := match get "completed" ps with
                       | Some (JsBool b) => Some b
                       | _ => None
                       end;
     data_priority := match get "priority" ps with
                      | Some (JsString s) => priority_of s
                      | _ => None
                      end;
     data_dueDate := match get "dueDate" ps with
                     | Some (JsDate t) => Some (Some t)
                     | Some JsNull => Some None
                     | _ => None
                     end;
     data_tags := match get "tags" ps with
                  | Some (JsArray xs) => Some (Some (TagsArray (strings_of xs)))
                  | Some (JsString s) => Some (Some (TagsText s))
                  | Some JsNull => Some None
                  | _ => None
                  end;
     data_updatedAt := None |}.

Definition ids_of (v : option JsValue) : list string :=
  match get "ids" (props_of v) with
  | Some (JsArray xs) => strings_of xs
  | _ => []
  end.

Definition id_param (req : Request) : string :=
  match get "id" (props_of (req_params req)) with
  | Some (JsString s) => s
  | _ => EmptyString
  end.

Definition createTodo_controller : Handler :=
  asyncHandler (fun req =>
    todo <- createTodo (todoData_of (req_body req)) ;;
    ret {| status := 201; json := OneTodo "Todo created successfully" todo |}).

Definition toggleTodoStatus_controller : Handler :=
  asyncHandler (fun req =>
    todo <- toggleTodoStatus (id_param req) ;;
    ret {| status := 200;
           json := OneTodo (if completed todo then "Todo marked as completed"
                            else "Todo marked as pending") todo |}).

Definition bulkUpdateTodos_controller : Handler :=
  asyncHandler (fun req =>
    let ids := ids_of (req_body req) in
    let updateData := todoData_of (get "updateData" (props_of (req_body req))) in
    updatedCount <- bulkUpdateTodos ids updateData ;;
    ret {| status := 200; json := BulkUpdated updatedCount (list_length ids) |}).

Definition bulkDeleteTodos_controller : Handler :=
  asyncHandler (fun req =>
    let ids := ids_of (req_body req) in
    deletedCount <- bulkDeleteTodos ids ;;
    ret {| status := 200; json := BulkDeleted deletedCount (list_length ids) |}).

(** A route: its middlewares in order, then the controller. *)
Fixpoint route (middlewares : list (Request -> Outcome)) (controller : Handler) : Handler :=
  match middlewares with
  | [] => controller
  | m :: rest =>
      fun req o w =>
        match m req with
        | Respond res => (res, w)
        | Next req' => route rest controller req' o w
        end
  end.


(** POST /api/v1/todos *)
Definition POST_todos (rt : Runtime) : Handler :=
  route [validateBody createTodoSchema rt] createTodo_controller.

(** PATCH /api/v1/todos/:id/toggle *)
Definition PATCH_todos_toggle (rt : Runtime) : Handler :=
  route [validateParams uuidParamSchema rt] toggleTodoStatus_controller.

(** PATCH /api/v1/todos/bulk *)
Definition PATCH_todos_bulk (rt : Runtime) : Handler :=
  route [validateBody bulkUpdateSchema rt] bulkUpdateTodos_controller.

(** DELETE /api/v1/todos/bulk *)
Definition DELETE_todos_bulk (rt : Runtime) : Handler :=
  route [validateBody bulkDeleteSchema rt] bulkDeleteTodos_controller.

(* ------------------------------------------------------------------ *)
(** ** Vocabulary of the statements *)

(** The effective parameters of a list request, after the defaults of the
    service's destructuring. *)
Definition page_of (o : Options.t) : Z := or_else (Options.page o) 1.

Definition limit_of (o : Options.t) : Z :=
  or_else (Options.limit o) config_pagination_defaultLimit.

Definition filters_of (o : Options.t) : Query :=
  build_filters (or_else (Options.status o) status_all) (Options.priority o)
                (Options.search o) (Options.tag o).

(** The rows a list request matches, and the order it asks for. *)
Definition matching (o : Options.t) (rows : list Todo) : list Todo :=
  filter (selected (filters_of o)) rows.

Definition sorted_matching (o : Options.t) (rows : list Todo) : list Todo :=
  sort_rows (order_leb (or_else (Options.sortBy o) by_createdAt)
                       (or_else (Options.sortOrder o) desc))
            (matching o rows).

(** The predicate each parameter of a list request stands for. *)
Definition status_predicate (s : Status) (r : Todo) : bool :=
  match s with
  | status_completed => Bool.eqb (completed r) true
  | status_pending => Bool.eqb (completed r) false
  | status_all => true
  end.

Definition priority_eqb (a b : Priority) : bool :=
  match a, b with
  | low, low | medium, medium | high, high => true
  | _, _ => false
  end.

Definition priority_predicate (p : option Priority) (r : Todo) : bool :=
  match p with
  | Some v => priority_eqb (priority r) v
  | None => true
  end.

Definition search_predicate (search : option string) (r : Todo) : bool :=
  match truthy search with
  | Some s => holds (search_clause s) r
  | None => true
  end.

Definition tag_predicate (tag : option string) (r : Todo) : bool :=
  match truthy tag with
  | Some t => holds (tag_clause t) r
  | None => true
  end.

(** The documented reading of the search filter: the text occurs in the
    title or in the description, letter case aside. *)
Definition title_or_description_contains (search : string) (r : Todo) : bool :=
  (containsb case_insensitive search (title r) ||
   match description r with
   | Some d => containsb case_insensitive search d
   | None => false
   end)%bool.

(** Characters with no special meaning in a LIKE pattern. *)
Definition plain_char (c : ascii) : bool :=
  negb (Ascii.eqb c "%" || Ascii.eqb c "_" || Ascii.eqb c "\")%bool.

Fixpoint plain (s : string) : bool :=
  match s with
  | EmptyString => true
  | String c s' => plain_char c && plain s'
  end.

Fixpoint literals (s : string) : list LikeToken :=
  match s with
  | EmptyString => []
  | String c s' => Literal c :: literals s'
  end.

(** Characters [JSON.stringify] writes unchanged. *)
Definition json_safe_char (c : ascii) : bool :=
  negb (Ascii.eqb c dquote || Ascii.eqb c "\" || Nat.ltb (nat_of_ascii c) 32)%bool.

Fixpoint json_safe (s : string) : bool :=
  match s with
  | EmptyString => true
  | String c s' => json_safe_char c && json_safe s'
  end.

(** A tag between double quotes, as it stands in the serialized text. *)
Definition quoted (t : string) : string :=
  String dquote (t ++ String dquote EmptyString).

Fixpoint schema_for (k : string) (keys : list (string * Schema)) : option Schema :=
  match keys with
  | [] => None
  | (k', s) :: keys' => if String.eqb k k' then Some s else schema_for k keys'
  end.



(** Two validations agree when they accept together and normalize alike. *)
Definition agree (r1 r2 : Validation) : Prop :=
  (errors r1 = [] <-> errors r2 = []) /\ value r1 = value r2.

Definition same_options (a b : Prefs) : Prop :=
  abortEarly a = abortEarly b /\ allowUnknown a = allowUnknown b /\
  stripUnknown a = stripUnknown b.

(** A schema is stable when the place it validates at and the messages in
    force change neither what it accepts nor what it returns. *)
Definition stable (s : Schema) : Prop :=
  forall rt prefs1 prefs2 p1 p2 v,
    same_options prefs1 prefs2 ->
    agree (s rt prefs1 p1 v) (s rt prefs2 p2 v).

Definition stable_base (base : Runtime -> Prefs -> list string -> JsValue -> Validation) : Prop :=
  forall rt prefs1 prefs2 p1 p2 x,
    same_options prefs1 prefs2 ->
    agree (base rt prefs1 p1 x) (base rt prefs2 p2 x).

(** A payload the model accepts once the service has made a text of its
    tags: for an insert, and for a patch. *)
Definition storable (d : TodoData) : Prop :=
  jsonSchema_violations false (stringify_tags d) = [].

Definition patchable (d : TodoData) : Prop :=
  jsonSchema_violations true (stringify_tags d) = [].

(** The row [insert] writes for a payload. *)
Definition inserted_row (d : TodoData) (t : string) (o : Oracle) (w : World) : Todo :=
  {| id := uuid o (uuid_draws w);
     title := t;
     description := flatten (data_description d);
     completed := or_else (data_completed d) false;
     priority := or_else (data_priority d) medium;
     dueDate := flatten (data_dueDate d);
     tags := option_map tags_column (flatten (data_tags (stringify_tags d)));
     createdAt := clock o (clock_reads w);
     updatedAt := clock o (S (clock_reads w)) |}.

Definition after_insert (w : World) (rows : list Todo) : World :=
  {| table := rows; clock_reads := S (S (clock_reads w));
     uuid_draws := S (uuid_draws w) |}.

Definition after_update (w : World) (rows : list Todo) : World :=
  {| table := rows; clock_reads := S (clock_reads w); uuid_draws := uuid_draws w |}.

Definition with_table (w : World) (rows : list Todo) : World :=
  {| table := rows; clock_reads := clock_reads w; uuid_draws := uuid_draws w |}.

(** The row's id is one of the ids of a bulk request. *)
Definition id_in (ids : list string) (r : Todo) : bool :=
  existsb (fun i => has_id i r) ids.

(** The patch of a bulk update: the payload, tags serialized, stamped by
    the update hook. *)
Definition bulk_patch (updateData : TodoData) (o : Oracle) (w : World) : TodoData :=
  let d := stringify_tags updateData in
  {| data_title := data_title d;
     data_description := data_description d;
     data_completed := data_completed d;
     data_priority := data_priority d;
     data_dueDate := data_dueDate d;
     data_tags := data_tags d;
     data_updatedAt := Some (clock o (clock_reads w)) |}.

(** The patch of a toggle. *)
Definition toggle_patch (r : Todo) (u : Z) : TodoData :=
  {| data_title := None; data_description := None;
     data_completed := Some (negb (completed r));
     data_priority := None; data_dueDate := None; data_tags := None;
     data_updatedAt := Some u |}.

(* ------------------------------------------------------------------ *)
(** ** Sample requests and environments *)

Definition sample_uuid (n : nat) : string :=
  "3f2b8c1e-7a4d-4c1b-9e2f-00000000000" ++ index_name n.

(** A clock that advances by one millisecond at every read. *)
Definition ticking : Oracle :=
  {| clock := fun n => 1000 + Z.of_nat n; uuid := sample_uuid |}.

(** A clock that does not advance between reads. *)
Definition frozen : Oracle :=
  {| clock := fun _ => 1000; uuid := sample_uuid |}.

(** A generator that draws the same identifier again. *)
Definition repeating : Oracle :=
  {| clock := fun n => 1000 + Z.of_nat n; uuid := fun _ => sample_uuid 0 |}.

Definition sample_runtime : Runtime :=
  {| isGuid := fun s => Nat.eqb (String.length s) 36;
     parseIsoDate := fun _ => None;
     now := 1000 |}.

Definition empty_world : World :=
  {| table := []; clock_reads := 0; uuid_draws := 0 |}.

Definition with_body (b : JsValue) : Request :=
  {| req_body := Some b; req_query := Some (JsObject []);
     req_params := Some (JsObject []) |}.

(** POST /todos  { title: "abc", tags: ["work"] } *)
Definition create_abc : Request :=
  with_body (JsObject [("title", JsString "abc");
                       ("tags", JsArray [JsString "work"])]).

(** POST /todos  { title: "Buy milk", priority: "low" } *)
Definition create_milk : Request :=
  with_body (JsObject [("title", JsString "Buy milk");
                       ("priority", JsString "low")]).


(** A stored row with one tag, as the seed script writes rows (the tags
    as their JSON text), and the table holding it. *)
Definition row_abc : Todo :=
  {| id := sample_uuid 0; title := "abc"; description := None;
     completed := false; priority := medium; dueDate := None;
     tags := Some (JSON_stringify ["work"]);
     createdAt := 1000; updatedAt := 1001 |}.

Definition world_abc : World :=
  {| table := [row_abc]; clock_reads := 2; uuid_draws := 1 |}.

(** The same row written at a single clock reading, as the seed script
    stamps both columns. *)
Definition row_frozen : Todo :=
  {| id := sample_uuid 0; title := "abc"; description := None;
     completed := false; priority := medium; dueDate := None;
     tags := Some (JSON_stringify ["work"]);
     createdAt := 1000; updatedAt := 1000 |}.

Definition world_frozen : World :=
  {| table := [row_frozen]; clock_reads := 2; uuid_draws := 1 |}.

Definition list_options (search tag : option string) : Options.t :=
  {| Options.page := Some 1; Options.limit := Some 10;
     Options.status := Some status_all; Options.priority := None;
     Options.sortBy := Some by_createdAt; Options.sortOrder := Some desc;
     Options.search := search; Options.tag := tag |}.

Definition second_page : Options.t :=
  {| Options.page := Some 2; Options.limit := Some 1;
     Options.status := Some status_pending; Options.priority := None;
     Options.sortBy := Some by_title; Options.sortOrder := Some asc;
     Options.search := None; Options.tag := None |}.

(** PATCH /todos/bulk with one stored id and one that matches no row. *)
Definition bulk_update_request : Request :=
  with_body (JsObject [("ids", JsArray [JsString (sample_uuid 0);
                                        JsString (sample_uuid 7)]);
                       ("updateData", JsObject [("completed", JsBool true)])]).

(** The row that [POST /todos { title: "Buy milk", priority: "low" }]
    adds to [world_abc] under the [ticking] clock, and the table after. *)
Definition row_milk : Todo :=
  {| id := sample_uuid 1; title := "Buy milk"; description := None;
     completed := false; priority := low; dueDate := None; tags := None;
     createdAt := 1002; updatedAt := 1003 |}.

Definition world_milk : World :=
  {| table := [row_abc; row_milk]; clock_reads := 4; uuid_draws := 2 |}.

(** Texts of ASCII characters: there the white space trimmed and the
    length counted are those of the validator. *)
Fixpoint ascii_only (s : string) : bool :=
  match s with
  | EmptyString => true
  | String c s' => (Nat.ltb (nat_of_ascii c) 128 && ascii_only s')%bool
  end.

(** PATCH /todos/bulk with a stored id and the update of the documented
    example: a priority and new tags. *)
Definition bulk_tags_request : Request :=
  with_body (JsObject [("ids", JsArray [JsString (sample_uuid 0)]);
                       ("updateData",
                        JsObject [("priority", JsString "high");
                                  ("tags", JsArray [JsString "urgent";
                                                    JsString "review"])])]).

(* ------------------------------------------------------------------ *)
(** ** The other queries of the model *)

(** [markCompleted()] and [markIncomplete()], on an instance. *)
Definition markCompleted (t : Todo) : M Todo :=
  u <- new_Date ;;
  ret {| id := id t; title := title t; description := description t;
         completed := true; priority := priority t; dueDate := dueDate t;
         tags := tags t; createdAt := createdAt t; updatedAt := u |}.

Definition markIncomplete (t : Todo) : M Todo :=
  u <- new_Date ;;
  ret {| id := id t; title := title t; description := description t;
         completed := false; priority := priority t; dueDate := dueDate t;
         tags := tags t; createdAt := createdAt t; updatedAt := u |}.

(** [get isOverdue()]: the clock is read only for a pending instance that
    has a due date. *)
Definition isOverdue (t : Todo) : M bool :=
  match dueDate t with
  | None => ret false
  | Some d =>
      if completed t then ret false
      else (today <- new_Date ;; ret (d <? today))
  end.

(** [Todo.findByStatus(completed = false)] *)
Definition findByStatus (c : option bool) : M (list Todo) :=
  rows <- get_table ;;
  ret (fetch (where_ (WhereEq col_completed (SqlBool (or_else c false))) Todo_query)
             rows).

(** [Todo.findByPriority(priority)] *)
Definition findByPriority (p : string) : M (list Todo) :=
  rows <- get_table ;;
  ret (fetch (where_ (WhereEq col_priority (SqlText p)) Todo_query) rows).

Module Statistics.
Record t := {
  total : Z;
  completed : Z;
  pending : Z;
  overdue : Z
}.
End Statistics.

(** [Todo.getStatistics()]: four counting queries, the last one against the
    time at which it is built. *)
Definition getStatistics : M Statistics.t :=
  rows1 <- get_table ;;
  let total := count Todo_query rows1 in
  rows2 <- get_table ;;
  let completed :=
    count (where_ (WhereEq col_completed (SqlBool true)) Todo_query) rows2 in
  rows3 <- get_table ;;
  let pending :=
    count (where_ (WhereEq col_completed (SqlBool false)) Todo_query) rows3 in
  today <- new_Date ;;
  rows4 <- get_table ;;
  let overdue :=
    count (where_ (WhereEq col_completed (SqlBool false))
             (where_ (WhereLt col_dueDate (SqlInt today)) Todo_query)) rows4 in
  ret {| Statistics.total := total; Statistics.completed := completed;
         Statistics.pending := pending; Statistics.overdue := overdue |}.

(** [Todo.query().deleteById(id)] *)
Definition deleteById (i : string) : M Z :=
  delete_where (where_ (WhereEq col_id (SqlText i)) Todo_query).

(* ------------------------------------------------------------------ *)
(** ** The other operations of the service *)

Definition getTodoById (i : string) : M Todo :=
  try_catch
    (todo <- findById i ;;
     match todo with
     | None => throw (ApiError 404 "Todo not found")
     | Some t => ret t
     end)
    (rethrow_or "Failed to fetch todo").

(** The result is what the store returns for the row after the patch. *)
Definition updateTodo (i : string) (updateData : TodoData) : M (option Todo) :=
  try_catch
    (existingTodo <- findById i ;;
     match existingTodo with
     | None => throw (ApiError 404 "Todo not found")
     | Some _ => patchAndFetchById i (stringify_tags updateData)
     end)
    (rethrow_or "Failed to update todo").

Definition deleteTodo (i : string) : M bool :=
  try_catch
    (deletedCount <- deleteById i ;;
     if deletedCount =? 0 then throw (ApiError 404 "Todo not found")
     else ret true)
    (rethrow_or "Failed to delete todo").

Definition getTodoStatistics : M Statistics.t :=
  try_catch
    getStatistics
    (fun _ => throw (ApiError 500 "Failed to fetch todo statistics")).

(** [notFoundHandler]: the error handed on for a route nothing serves. *)
Definition notFoundHandler (originalUrl : string) : JsError :=
  ApiError 404 ("Route " ++ originalUrl ++ " not found").

(** The middlewares of the routes on one entity. *)
Definition by_id_route (rt : Runtime) (rest : list (Request -> Outcome))
    (controller : Handler) : Handler :=
  route (validateParams uuidParamSchema rt :: rest) controller.

(** PUT /api/v1/todos/:id, for any controller behind its two validators. *)
Definition PUT_todos (rt : Runtime) (controller : Handler) : Handler :=
  by_id_route rt [validateBody updateTodoSchema rt] controller.

(* ------------------------------------------------------------------ *)
(** ** The uptime of the health report *)

(** [Math.floor] and the remainder operator on a number and a positive
    integer, on exact quotients. *)
Definition Math_floor (x : Q) : Z := Qfloor x.

Definition Math_trunc (x : Q) : Z :=
  if Qle_bool 0 x then Qfloor x else Qceiling x.

Definition js_rem (x : Q) (m : Z) : Q :=
  (x - inject_Z (m * Math_trunc (x / inject_Z m)))%Q.

Definition show_int (z : Z) : string :=
  NilEmpty.string_of_int (Z.to_int z).

(** The non-zero components, largest unit first. *)
Definition uptime_parts (seconds : Q) : list (Z * string) :=
  let days := Math_floor (seconds / 86400)%Q in
  let hours := Math_floor (js_rem seconds 86400 / 3600)%Q in
  let minutes := Math_floor (js_rem seconds 3600 / 60)%Q in
  let secs := Math_floor (js_rem seconds 60) in
  ((if 0 <? days then [(days, "d")] else []) ++
   (if 0 <? hours then [(hours, "h")] else []) ++
   (if 0 <? minutes then [(minutes, "m")] else []) ++
   (if 0 <? secs then [(secs, "s")] else []))%list.

(** [formatUptime(seconds)] *)
Definition formatUptime (seconds : Q) : string :=
  match String.concat " "
          (map (fun p => show_int (fst p) ++ snd p) (uptime_parts seconds)) with
  | EmptyString => "0s"
  | s => s
  end.

Definition unit_seconds (u : string) : Z :=
  if String.eqb u "d" then 86400
  else if String.eqb u "h" then 3600
  else if String.eqb u "m" then 60
  else 1.

Fixpoint parts_seconds (parts : list (Z * string)) : Z :=
  match parts with
  | [] => 0
  | (n, u) :: rest => n * unit_seconds u + parts_seconds rest
  end.

(* ------------------------------------------------------------------ *)
(** ** The database names of the connection settings *)

(** An environment variable in a string concatenation: an unset one reads
    [undefined]. *)
Definition env_text (v : option string) : string :=
  match v with Some s => s | None => "undefined" end.

(** [a || b] on an optional string. *)
Definition or_default (v : option string) (d : string) : string :=
  match truthy v with Some s => s | None => d end.

(** [process.env.DB_NAME || 'todoapp'] *)
Definition development_database (DB_NAME : option string) : string :=
  or_default DB_NAME "todoapp".

(** [process.env.DB_NAME + '_test' || 'todoapp_test'] *)
Definition test_database (DB_NAME : option string) : string :=
  or_default (Some (env_text DB_NAME ++ "_test")) "todoapp_test".

(* ------------------------------------------------------------------ *)
(** ** The service over any store *)

(** The queries the service sends through the model.  [Todo_store] answers
    them from the table; a store that cannot be reached answers each of
    them with an error of its own. *)
Record Store := {
  store_insert : TodoData -> M Todo;
  store_findById : string -> M (option Todo);
  store_patchAndFetchById : string -> TodoData -> M (option Todo);
  store_patch : TodoData -> Query -> M Z;
  store_delete : Query -> M Z;
  store_deleteById : string -> M Z;
  store_resultSize : Query -> M Z;
  store_fetch : Query -> M (list Todo);
  store_getStatistics : M Statistics.t;
  store_findDueSoon : Z -> M (list Todo)
}.

Definition Todo_store : Store :=
  {| store_insert := insert;
     store_findById := findById;
     store_patchAndFetchById := patchAndFetchById;
     store_patch := patch_where;
     store_delete := delete_where;
     store_deleteById := deleteById;
     store_resultSize := fun q => rows <- get_table ;; ret (count q rows);
     store_fetch := fun q => rows <- get_table ;; ret (fetch q rows);
     store_getStatistics := getStatistics;
     store_findDueSoon := findDueSoon |}.

(** What the driver raises when the database refuses the connection. *)
Definition ECONNREFUSED : JsError :=
  {| instanceof_ApiError := false; name := "Error"; code := Some "ECONNREFUSED";
     errno := None; statusCode := None;
     message := "connect ECONNREFUSED" |}.

(** A store that cannot be reached. *)
Definition unreachable : Store :=
  {| store_insert := fun _ => throw ECONNREFUSED;
     store_findById := fun _ => throw ECONNREFUSED;
     store_patchAndFetchById := fun _ _ => throw ECONNREFUSED;
     store_patch := fun _ _ => throw ECONNREFUSED;
     store_delete := fun _ => throw ECONNREFUSED;
     store_deleteById := fun _ => throw ECONNREFUSED;
     store_resultSize := fun _ => throw ECONNREFUSED;
     store_fetch := fun _ => throw ECONNREFUSED;
     store_getStatistics := throw ECONNREFUSED;
     store_findDueSoon := fun _ => throw ECONNREFUSED |}.

(** The operations of the service, with the store they call as a
    parameter. *)
Section OverStore.
Variable s : Store.

Definition createTodo_on (todoData : TodoData) : M Todo :=
  try_catch
    (store_insert s (stringify_tags todoData))
    (fun _ => throw (ApiError 500 "Failed to create todo")).

Definition getAllTodos_on (options : Options.t) : M ListResult :=
  try_catch
    (let page := or_else (Options.page options) 1 in
     let limit := or_else (Options.limit options) config_pagination_defaultLimit in
     let status := or_else (Options.status options) status_all in
     let priority := Options.priority options in
     let sortBy := or_else (Options.sortBy options) by_createdAt in
     let sortOrder := or_else (Options.sortOrder options) desc in
     let search := Options.search options in
     let tag := Options.tag options in
     let query := build_filters status priority search tag in
     let totalQuery := query in
     total <- store_resultSize s totalQuery ;;
     let query := orderBy sortBy sortOrder query in
     let offset := (page - 1) * limit in
     let query := offset_ offset (limit_ limit query) in
     todos <- store_fetch s query ;;
     let totalPages := Math_ceil_div total limit in
     let hasNextPage := page <? totalPages in
     let hasPrevPage := 1 <? page in
     ret {| data := todos;
            pagination := {| currentPage := page; totalPages := totalPages;
                             totalItems := total; itemsPerPage := limit;
                             hasNextPage := hasNextPage; hasPrevPage := hasPrevPage |};
            filters := {| filter_status := status; filter_priority := priority;
                          filter_search := search; filter_tag := tag |};
            sorting := (sortBy, sortOrder) |})
    (fun _ => throw (ApiError 500 "Failed to fetch todos")).

Definition getTodoById_on (i : string) : M Todo :=
  try_catch
    (todo <- store_findById s i ;;
     match todo with
     | None => throw (ApiError 404 "Todo not found")
     | Some t => ret t
     end)
    (rethrow_or "Failed to fetch todo").

Definition updateTodo_on (i : string) (updateData : TodoData) : M (option Todo) :=
  try_catch
    (existingTodo <- store_findById s i ;;
     match existingTodo with
     | None => throw (ApiError 404 "Todo not found")
     | Some _ => store_patchAndFetchById s i (stringify_tags updateData)
     end)
    (rethrow_or "Failed to update todo").

Definition deleteTodo_on (i : string) : M bool :=
  try_catch
    (deletedCount <- store_deleteById s i ;;
     if deletedCount =? 0 then throw (ApiError 404 "Todo not found")
     else ret true)
    (rethrow_or "Failed to delete todo").

Definition toggleTodoStatus_on (i : string) : M Todo :=
  try_catch
    (todo <- store_findById s i ;;
     match todo with
     | None => throw (ApiError 404 "Todo not found")
     | Some t =>
         updatedTodo <- store_patchAndFetchById s i
                          (completed_only (negb (completed t))) ;;
         match updatedTodo with
         | Some u => ret u
         | None => throw TypeError
         end
     end)
    (rethrow_or "Failed to toggle todo status").

Definition getTodoStatistics_on : M Statistics.t :=
  try_catch
    (store_getStatistics s)
    (fun _ => throw (ApiError 500 "Failed to fetch todo statistics")).

Definition getTodosDueSoon_on (days : Z) : M (list Todo) :=
  try_catch
    (store_findDueSoon s days)
    (fun _ => throw (ApiError 500 "Failed to fetch todos due soon")).

Definition bulkUpdateTodos_on (ids : list string) (updateData : TodoData) : M Z :=
  try_catch
    (store_patch s (stringify_tags updateData)
                 (whereIn col_id (map SqlText ids) Todo_query))
    (fun _ => throw (ApiError 500 "Failed to bulk update todos")).

Definition bulkDeleteTodos_on (ids : list string) : M Z :=
  try_catch
    (store_delete s (whereIn col_id (map SqlText ids) Todo_query))
    (fun _ => throw (ApiError 500 "Failed to bulk delete todos")).
End OverStore.

(** A call whose errors are not the service's own: no store raises an
    [ApiError]. *)
Definition foreign_call {A} (m : M A) : Prop :=
  forall o w e w', m o w = (inl e, w') -> instanceof_ApiError e = false.

Definition foreign (s : Store) : Prop :=
  (forall d, foreign_call (store_insert s d)) /\
  (forall i, foreign_call (store_findById s i)) /\
  (forall i d, foreign_call (store_patchAndFetchById s i d)) /\
  (forall d q, foreign_call (store_patch s d q)) /\
  (forall q, foreign_call (store_delete s q)) /\
  (forall i, foreign_call (store_deleteById s i)) /\
  (forall q, foreign_call (store_resultSize s q)) /\
  (forall q, foreign_call (store_fetch s q)) /\
  foreign_call (store_getStatistics s) /\
  (forall days, foreign_call (store_findDueSoon s days)).

(* ------------------------------------------------------------------ *)
(** ** Vocabulary of the further statements *)

(** No two rows of the table carry the same id. *)
Fixpoint unique_ids (rows : list Todo) : bool :=
  match rows with
  | [] => true
  | r :: rest => negb (existsb (has_id (id r)) rest) && unique_ids rest
  end.

(** The clock never goes back. *)
Definition monotone (o : Oracle) : Prop :=
  forall n, clock o n <= clock o (S n).

(** Every row was created no later than it was last updated, and last
    updated no later than the next clock reading. *)
Definition timestamps_ordered (o : Oracle) (w : World) : Prop :=
  forall r, In r (table w) ->
    createdAt r <= updatedAt r /\ updatedAt r <= clock o (clock_reads w).

(** The same list request for another page. *)
Definition with_page (opts : Options.t) (p : Z) : Options.t :=
  {| Options.page := Some p; Options.limit := Options.limit opts;
     Options.status := Options.status opts; Options.priority := Options.priority opts;
     Options.sortBy := Options.sortBy opts; Options.sortOrder := Options.sortOrder opts;
     Options.search := Options.search opts; Options.tag := Options.tag opts |}.

(** The rows [getAllTodos] returns for page [p] of a request. *)
Definition page_rows (opts : Options.t) (o : Oracle) (w : World) (p : Z) : list Todo :=
  match fst (getAllTodos (with_page opts p) o w) with
  | inr res => data res
  | inl _ => []
  end.

(** Pages 1 to n. *)
Definition pages (n : nat) : list Z := map Z.of_nat (seq 1 n).

(** The requested order, as a relation between a row and the next one. *)
Definition in_order (k : SortBy) (d : SortOrder) (a b : Todo) : Prop :=
  order_leb k d a b = true.

(** A service error: an [ApiError] carrying status 404 or 500. *)
Definition service_error (e : JsError) : Prop :=
  exists msg, e = ApiError 404 msg \/ e = ApiError 500 msg.

(** A computation whose own errors, if any, are service errors. *)
Definition tame {A} (m : M A) : Prop :=
  forall o w e w', m o w = (inl e, w') ->
    instanceof_ApiError e = false \/ service_error e.

(** The outcome of a service call is a value or a service error. *)
Definition guarded {A} (r : (JsError + A) * World) : Prop :=
  match fst r with
  | inl e => service_error e
  | inr _ => True
  end.

(** An error no branch of [handleError] is written for. *)
Definition unrecognized (err : JsError) : bool :=
  negb (String.eqb (name err) "ValidationError"
        || code_is err "23000" || errno_is err 1062
        || code_is err "ECONNREFUSED" || code_is err "ENOTFOUND"
        || String.eqb (name err) "JsonWebTokenError"
        || String.eqb (name err) "TokenExpiredError")%bool.

(** The statistics counted directly on the rows. *)
Definition count_if (f : Todo -> bool) (rows : list Todo) : Z :=
  Z.of_nat (List.length (filter f rows)).

Definition overdue_at (today : Z) (r : Todo) : bool :=
  match dueDate r with
  | Some d => (d <? today) && negb (completed r)
  | None => false
  end.

(** A request on one entity. *)
Definition with_id (i : string) (b : JsValue) : Request :=
  {| req_body := Some b; req_query := Some (JsObject []);
     req_params := Some (JsObject [("id", JsString i)]) |}.

Definition b2z (b : bool) : Z := if b then 1 else 0.

(** The statistics served in a given state. *)
Definition statistics_at (o : Oracle) (w : World) : option Statistics.t :=
  match fst (getTodoStatistics o w) with
  | inr s => Some s
  | inl _ => None
  end.

(** A pattern token with its letter folded. *)
Definition fold_token (t : LikeToken) : LikeToken :=
  match t with
  | Literal c => Literal (lower c)
  | _ => t
  end.

(** Two rows that read the same to a search: title and description equal
    up to letter case. *)
Definition same_text (r r' : Todo) : Prop :=
  fold_case (title r) = fold_case (title r') /\
  option_map fold_case (description r) = option_map fold_case (description r').

(** The same list request with another search text. *)
Definition with_search (opts : Options.t) (s : string) : Options.t :=
  {| Options.page := Options.page opts; Options.limit := Options.limit opts;
     Options.status := Options.status opts; Options.priority := Options.priority opts;
     Options.sortBy := Options.sortBy opts; Options.sortOrder := Options.sortOrder opts;
     Options.search := Some s; Options.tag := Options.tag opts |}.

(** A schema is idempotent when what it returns for an accepted value is
    accepted again and returned as it is. *)
Definition idempotent (s : Schema) : Prop :=
  forall rt prefs p v,
    abortEarly prefs = false ->
    stripUnknown prefs = true ->
    errors (s rt prefs p v) = [] ->
    errors (s rt prefs p (value (s rt prefs p v))) = [] /\
    value (s rt prefs p (value (s rt prefs p v))) = value (s rt prefs p v).

(** A string that does not begin with white space. *)
Definition starts_clean (s : string) : Prop :=
  match s with
  | String c _ => is_space c = false
  | EmptyString => True
  end.

(** A list request without parameters, and with a tag only. *)
Definition no_options : Options.t :=
  {| Options.page := None; Options.limit := None; Options.status := None;
     Options.priority := None; Options.sortBy := None; Options.sortOrder := None;
     Options.search := None; Options.tag := None |}.

Definition with_tag (opts : Options.t) (t : string) : Options.t :=
  {| Options.page := Options.page opts; Options.limit := Options.limit opts;
     Options.status := Options.status opts; Options.priority := Options.priority opts;
     Options.sortBy := Options.sortBy opts; Options.sortOrder := Options.sortOrder opts;
     Options.search := Options.search opts; Options.tag := Some t |}.

(** The same list request for another status. *)
Definition with_status (opts : Options.t) (s : Status) : Options.t :=
  {| Options.page := Options.page opts; Options.limit := Options.limit opts;
     Options.status := Some s; Options.priority := Options.priority opts;
     Options.sortBy := Options.sortBy opts; Options.sortOrder := Options.sortOrder opts;
     Options.search := Options.search opts; Options.tag := Options.tag opts |}.

(** The number of rows a list request reports. *)
Definition total_of (opts : Options.t) (o : Oracle) (w : World) : Z :=
  match fst (getAllTodos opts o w) with
  | inr res => totalItems (pagination res)
  | inl _ => 0
  end.

(* ================================================================== *)
(** * Properties *)

(** ** Sorting keeps the rows *)

Section Sorting.
Variable le : Todo -> Todo -> bool.

Lemma insert_sorted_perm x l : Permutation (insert_sorted le x l) (x :: l).
Proof.
  induction l as [|y l IH]; simpl.
  - apply Permutation_refl.
  - destruct (le x y).
    + apply Permutation_refl.
    + eapply perm_trans; [apply perm_skip, IH | apply perm_swap].
Qed.

Lemma sort_rows_perm l : Permutation (sort_rows le l) l.
Proof.
  induction l as [|x l IH]; simpl.
  - constructor.
  - eapply perm_trans; [apply insert_sorted_perm | apply perm_skip, IH].
Qed.

Lemma sort_rows_length l : List.length (sort_rows le l) = List.length l.
Proof. apply Permutation_length, sort_rows_perm. Qed.

Lemma sort_rows_In l x : In x (sort_rows le l) <-> In x l.
Proof.
  split; apply Permutation_in; [|apply Permutation_sym]; apply sort_rows_perm.
Qed.
End Sorting.

Lemma filter_all {A} (f : A -> bool) l : (forall x, f x = true) -> filter f l = l.
Proof.
  intros H. induction l as [|x l IH]; simpl; [reflexivity|].
  now rewrite H, IH.
Qed.

Lemma filter_partition_length {A} (f : A -> bool) l :
  (List.length (filter f l) + List.length (filter (fun x => negb (f x)) l))%nat
  = List.length l.
Proof.
  induction l as [|x l IH]; simpl; [reflexivity|].
  destruct (f x); simpl; lia.
Qed.

(** ** The page count *)

Lemma Math_ceil_div_bounds total limit :
  0 < limit ->
  (Math_ceil_div total limit - 1) * limit < total <= Math_ceil_div total limit * limit.
Proof.
  intros Hl. unfold Math_ceil_div.
  destruct limit as [|p|p]; try lia.
  unfold Qceiling, Qfloor, Qdiv, Qinv, Qmult, Qopp, inject_Z. simpl.
  rewrite Z.mul_1_r.
  pose proof (Z.div_mod (- total) (Z.pos p) ltac:(lia)) as Hdm.
  pose proof (Z.mod_pos_bound (- total) (Z.pos p) ltac:(lia)) as Hb.
  nia.
Qed.

(** ** LIKE on patterns without special characters *)

Lemma append_assoc_string (a b c : string) : (a ++ b) ++ c = a ++ (b ++ c).
Proof. induction a as [|x a IH]; simpl; congruence. Qed.

Lemma like_tokens_plain_char c rest :
  plain_char c = true ->
  like_tokens (String c rest) = Literal c :: like_tokens rest.
Proof.
  destruct c as [[] [] [] [] [] [] [] []]; try discriminate; reflexivity.
Qed.

Lemma like_tokens_plain s rest :
  plain s = true ->
  like_tokens (s ++ rest) = (literals s ++ like_tokens rest)%list.
Proof.
  induction s as [|c s IH]; intros H; [reflexivity|].
  simpl in H. apply andb_prop in H. destruct H as [Hc Hs].
  cbn [append]. rewrite like_tokens_plain_char by exact Hc.
  cbn [literals app]. now rewrite IH.
Qed.

Section Like.
Variable k : Collation.

Lemma like_match_any t : like_match k [AnySequence] t = true.
Proof.
  induction t as [|c t IH]; [reflexivity|].
  cbn in *. exact IH.
Qed.

Lemma like_match_literals s t :
  like_match k (literals s ++ [AnySequence]) t = prefixb k s t.
Proof.
  revert t. induction s as [|c s IH]; intros t.
  - cbn [literals app prefixb]. apply like_match_any.
  - destruct t as [|d t]; [reflexivity|].
    cbn [literals app like_match prefixb]. now rewrite IH.
Qed.

Lemma like_match_skip toks t :
  like_match k (AnySequence :: toks) t =
    (like_match k toks t ||
     match t with
     | EmptyString => false
     | String _ t' => like_match k (AnySequence :: toks) t'
     end)%bool.
Proof. destruct t; reflexivity. Qed.

(** Between two [%], a text without special characters is looked for as
    a substring. *)
Lemma like_contains s t :
  plain s = true ->
  like k (search_pattern s) t = containsb k s t.
Proof.
  intros Hs. unfold like, search_pattern.
  change ("%" ++ s ++ "%") with (String "%" (s ++ "%")).
  change (like_tokens (String "%" (s ++ "%")))
    with (AnySequence :: like_tokens (s ++ "%")).
  rewrite like_tokens_plain by exact Hs.
  change (like_tokens "%") with [AnySequence].
  induction t as [|c t IH].
  - rewrite like_match_skip, like_match_literals. cbn [containsb]. reflexivity.
  - rewrite like_match_skip, like_match_literals, IH. reflexivity.
Qed.

Lemma prefixb_app n b : prefixb k n (n ++ b) = true.
Proof.
  induction n as [|c n IH]; [reflexivity|].
  simpl. rewrite IH, andb_true_r.
  destruct k; simpl; apply Ascii.eqb_refl.
Qed.

Lemma containsb_prefix n h : prefixb k n h = true -> containsb k n h = true.
Proof. intros H. destruct h; simpl; now rewrite H. Qed.

Lemma containsb_app_r n a h :
  containsb k n h = true -> containsb k n (a ++ h) = true.
Proof.
  intros H. induction a as [|c a IH]; [exact H|].
  simpl. rewrite IH. apply orb_true_r.
Qed.

Lemma containsb_middle n a b : containsb k n (a ++ n ++ b) = true.
Proof. apply containsb_app_r, containsb_prefix, prefixb_app. Qed.
End Like.

Lemma text_eqb_refl k s : text_eqb k s s = true.
Proof.
  induction s as [|c s IH]; [reflexivity|].
  simpl. rewrite IH, andb_true_r. destruct k; simpl; apply Ascii.eqb_refl.
Qed.

(** For a search text without [%], [_] or backslash the filter is the
    documented one. *)
Lemma search_clause_plain s r :
  plain s = true ->
  holds (search_clause s) r = title_or_description_contains s r.
Proof.
  intros Hs. unfold holds, search_clause, title_or_description_contains.
  cbn [eval_where column_value collation sql_like of_option].
  rewrite like_contains by exact Hs.
  destruct (description r) as [d|]; cbn [of_option sql_like sql_or].
  - rewrite like_contains by exact Hs.
    now destruct (containsb _ s (title r)), (containsb _ s d).
  - now destruct (containsb _ s (title r)).
Qed.

(** ** The serialized tags *)

Lemma json_escape_char_safe c :
  json_safe_char c = true -> json_escape_char c = String c EmptyString.
Proof.
  destruct c as [[] [] [] [] [] [] [] []]; try discriminate; reflexivity.
Qed.

Lemma json_escape_safe s : json_safe s = true -> json_escape s = s.
Proof.
  induction s as [|c s IH]; intros H; [reflexivity|].
  simpl in H. apply andb_prop in H. destruct H as [Hc Hs].
  simpl. rewrite json_escape_char_safe by exact Hc. simpl. now rewrite IH.
Qed.

Lemma tag_pattern_quoted t : tag_pattern t = search_pattern (quoted t).
Proof.
  unfold tag_pattern, search_pattern, quoted. simpl.
  now rewrite append_assoc_string.
Qed.

Lemma plain_app a b : plain (a ++ b) = (plain a && plain b)%bool.
Proof.
  induction a as [|c a IH]; [reflexivity|].
  simpl. now rewrite IH, andb_assoc.
Qed.

Lemma plain_quoted t : plain t = true -> plain (quoted t) = true.
Proof.
  intros H. unfold quoted. cbn [plain].
  rewrite plain_app, H. reflexivity.
Qed.

Lemma like_tag_pattern t x :
  plain t = true ->
  like binary (tag_pattern t) x = containsb binary (quoted t) x.
Proof.
  intros H. rewrite tag_pattern_quoted. apply like_contains. now apply plain_quoted.
Qed.

Lemma concat_In sep q qs :
  In q qs -> exists a b, String.concat sep qs = a ++ q ++ b.
Proof.
  induction qs as [|x qs IH]; intros Hin; [contradiction|].
  destruct Hin as [->|Hin].
  - destruct qs as [|y qs].
    + exists EmptyString, EmptyString. simpl.
      clear. induction q as [|c q IH]; simpl; congruence.
    + exists EmptyString, (sep ++ String.concat sep (y :: qs)). reflexivity.
  - destruct (IH Hin) as (a & b & E).
    destruct qs as [|y qs]; [contradiction|].
    exists (x ++ sep ++ a), b.
    change (String.concat sep (x :: y :: qs))
      with (x ++ sep ++ String.concat sep (y :: qs)).
    rewrite E. now rewrite !append_assoc_string.
Qed.

Lemma JSON_stringify_contains t xs :
  json_safe t = true ->
  In t xs ->
  containsb binary (quoted t) (JSON_stringify xs) = true.
Proof.
  intros Hsafe Hin.
  assert (Hq : In (quoted t) (map json_quote xs)).
  { apply in_map_iff. exists t. split; [|exact Hin].
    unfold json_quote, quoted. now rewrite json_escape_safe. }
  destruct (concat_In "," _ _ Hq) as (a & b & E).
  unfold JSON_stringify. rewrite E.
  replace ("[" ++ (a ++ quoted t ++ b) ++ "]")
    with (("[" ++ a) ++ quoted t ++ (b ++ "]"))
    by (now rewrite !append_assoc_string).
  apply containsb_middle.
Qed.

(** A stored element is found by its own name, when the name has no
    character special to the pattern or to the serialization. *)
Lemma tag_clause_finds_element t xs r :
  plain t = true ->
  json_safe t = true ->
  tags r = Some (JSON_stringify xs) ->
  In t xs ->
  holds (tag_clause t) r = true.
Proof.
  intros Hp Hs Hr Hin. unfold holds, tag_clause.
  cbn [eval_where column_value collation]. rewrite Hr. cbn [of_option sql_like].
  rewrite like_tag_pattern by exact Hp.
  now rewrite JSON_stringify_contains.
Qed.

(** ** Conditions of the query builder *)

Lemma selected_where w q r :
  selected (where_ w q) r = (selected q r && holds w r)%bool.
Proof.
  unfold selected, where_; simpl.
  rewrite forallb_app. simpl. now rewrite andb_true_r.
Qed.

Lemma selected_orderBy k d q r : selected (orderBy k d q) r = selected q r.
Proof. reflexivity. Qed.

Lemma holds_completed b r :
  holds (WhereEq col_completed (SqlBool b)) r = Bool.eqb (completed r) b.
Proof. unfold holds; simpl. now destruct (Bool.eqb (completed r) b). Qed.

Lemma holds_priority p r :
  holds (WhereEq col_priority (SqlText (priority_name p))) r = priority_eqb (priority r) p.
Proof. unfold holds; simpl. now destruct (priority r), p. Qed.

Lemma holds_dueDate_le t r :
  holds (WhereLe col_dueDate (SqlInt t)) r = true ->
  exists d, dueDate r = Some d /\ d <= t.
Proof.
  unfold holds; simpl. destruct (dueDate r) as [d|]; simpl; [|discriminate].
  destruct (d <=? t) eqn:E; [|discriminate].
  intros _. exists d. split; [reflexivity|]. now apply Z.leb_le.
Qed.

Lemma selected_build_filters status priority search tag r :
  selected (build_filters status priority search tag) r =
    (status_predicate status r && priority_predicate priority r &&
     search_predicate search r && tag_predicate tag r)%bool.
Proof.
  unfold build_filters, search_predicate, tag_predicate.
  destruct (truthy tag) as [t|], (truthy search) as [s|], priority as [p|], status;
    repeat rewrite selected_where; simpl;
    rewrite ?holds_completed, ?holds_priority, ?andb_true_r; reflexivity.
Qed.


(** ** List requests *)

(** The service always answers, with the page window and the metadata
    computed from the matching rows. *)
Lemma getAllTodos_run opts o w :
  exists res,
    getAllTodos opts o w = (inr res, w) /\
    data res = firstn (Z.to_nat (limit_of opts))
                 (skipn (Z.to_nat ((page_of opts - 1) * limit_of opts))
                        (sorted_matching opts (table w))) /\
    currentPage (pagination res) = page_of opts /\
    itemsPerPage (pagination res) = limit_of opts /\
    totalItems (pagination res) = Z.of_nat (List.length (matching opts (table w))) /\
    totalPages (pagination res) =
      Math_ceil_div (totalItems (pagination res)) (limit_of opts) /\
    hasNextPage (pagination res) = (page_of opts <? totalPages (pagination res)) /\
    hasPrevPage (pagination res) = (1 <? page_of opts).
Proof.
  eexists. split; [reflexivity|].
  cbn. repeat split; reflexivity.
Qed.

(** C1.  For a normalized list request (page at least 1, limit between 1
    and 100) over any table, [getAllTodos] returns the rows at offset
    [(page - 1) * limit], at most [limit] of them, of the matching rows in
    the requested order; [totalItems] counts all matching rows,
    [totalPages] is the ceiling of [totalItems / itemsPerPage] (the one
    integer n with (n - 1) * limit < totalItems <= n * limit),
    [hasNextPage] is [currentPage < totalPages] and [hasPrevPage] is
    [currentPage > 1].  A page past the last one has no rows while the
    totals stand; with no matching row [totalPages] is 0 and there is no
    next page. *)
Theorem getAllTodos_pagination (opts : Options.t) (o : Oracle) (w : World) :
  1 <= page_of opts ->
  1 <= limit_of opts <= 100 ->
  exists res,
    getAllTodos opts o w = (inr res, w) /\
    let p := pagination res in
    data res = firstn (Z.to_nat (limit_of opts))
                 (skipn (Z.to_nat ((page_of opts - 1) * limit_of opts))
                        (sorted_matching opts (table w))) /\
    currentPage p = page_of opts /\
    itemsPerPage p = limit_of opts /\
    totalItems p = Z.of_nat (List.length (matching opts (table w))) /\
    (totalPages p - 1) * itemsPerPage p < totalItems p <= totalPages p * itemsPerPage p /\
    hasNextPage p = (currentPage p <? totalPages p) /\
    hasPrevPage p = (1 <? currentPage p) /\
    (totalPages p < currentPage p -> data res = []) /\
    (totalItems p = 0 -> data res = [] /\ totalPages p = 0 /\ hasNextPage p = false).
Proof.
  intros Hp Hl.
  destruct (getAllTodos_run opts o w)
    as (res & Hrun & Hdata & Hcur & Hper & Htot & Hpages & Hnext & Hprev).
  exists res. split; [exact Hrun|]. cbv zeta.
  pose proof (Math_ceil_div_bounds (totalItems (pagination res)) (limit_of opts)
                ltac:(lia)) as Hceil.
  rewrite <- Hpages in Hceil.
  assert (Hlen : List.length (sorted_matching opts (table w))
                 = List.length (matching opts (table w)))
    by apply sort_rows_length.
  rewrite Hcur, Hper.
  repeat split; try assumption; try lia.
  - intros Hpast. rewrite Hdata.
    rewrite skipn_all2; [apply firstn_nil|].
    rewrite Hlen. nia.
  - rewrite Hdata. rewrite skipn_all2; [apply firstn_nil|].
    rewrite Hlen. nia.
  - nia.
  - rewrite Hnext. apply Z.ltb_ge. nia.
Qed.

Lemma getAllTodos_pagination_witness :
  1 <= page_of second_page /\
  1 <= limit_of second_page <= 100 /\
  exists res,
    getAllTodos second_page ticking world_abc = (inr res, world_abc) /\
    data res = [] /\
    totalItems (pagination res) = 1 /\
    totalPages (pagination res) < currentPage (pagination res).
Proof.
  assert (Hp : 1 <= page_of second_page) by (vm_compute; discriminate).
  assert (Hl : 1 <= limit_of second_page <= 100)
    by (split; vm_compute; discriminate).
  split; [exact Hp|]. split; [exact Hl|].
  destruct (getAllTodos_pagination second_page ticking world_abc Hp Hl)
    as (res & Hrun & Hres).
  exists res. split; [exact Hrun|].
  vm_compute in Hrun. injection Hrun as <-.
  vm_compute. repeat split.
Defined.

Lemma In_firstn {A} n (l : list A) x : In x (firstn n l) -> In x l.
Proof.
  intros H. rewrite <- (firstn_skipn n l). apply in_or_app. now left.
Qed.

Lemma In_skipn {A} n (l : list A) x : In x (skipn n l) -> In x l.
Proof.
  intros H. rewrite <- (firstn_skipn n l). apply in_or_app. now right.
Qed.

(** C2.  The filter of a list request is the conjunction of one predicate
    per parameter: status [completed] stands for [completed = true],
    [pending] for [completed = false], [all] for nothing; a priority stands
    for [priority = value]; an absent parameter stands for nothing.  For
    every normalized request (page at least 1, limit between 1 and 100)
    [getAllTodos] counts the rows of the table that satisfy that
    conjunction, and returns the page window of exactly those rows in the
    requested order, so that every row returned satisfies the predicate of
    each parameter present.  With no predicate at all every row of the
    table is counted and the page is a window of the whole table in the
    requested order. *)
Theorem filters_are_conjunction :
  (forall status priority search tag r,
      selected (build_filters status priority search tag) r =
        (status_predicate status r && priority_predicate priority r &&
         search_predicate search r && tag_predicate tag r)%bool) /\
  (forall r,
      (status_predicate status_completed r = true <-> completed r = true) /\
      (status_predicate status_pending r = true <-> completed r = false) /\
      status_predicate status_all r = true /\
      (forall p, priority_predicate (Some p) r = true <-> priority r = p) /\
      priority_predicate None r = true /\
      search_predicate None r = true /\
      tag_predicate None r = true) /\
  (forall opts o w,
      1 <= page_of opts ->
      1 <= limit_of opts <= 100 ->
      exists res,
        getAllTodos opts o w = (inr res, w) /\
        totalItems (pagination res) =
          Z.of_nat (List.length
            (filter (fun r =>
                       status_predicate (or_else (Options.status opts) status_all) r &&
                       priority_predicate (Options.priority opts) r &&
                       search_predicate (Options.search opts) r &&
                       tag_predicate (Options.tag opts) r)%bool
                    (table w))) /\
        data res =
          firstn (Z.to_nat (limit_of opts))
            (skipn (Z.to_nat ((page_of opts - 1) * limit_of opts))
               (sort_rows (order_leb (or_else (Options.sortBy opts) by_createdAt)
                                     (or_else (Options.sortOrder opts) desc))
                  (filter (fun r =>
                             status_predicate (or_else (Options.status opts) status_all) r &&
                             priority_predicate (Options.priority opts) r &&
                             search_predicate (Options.search opts) r &&
                             tag_predicate (Options.tag opts) r)%bool
                          (table w)))) /\
        (forall r, In r (data res) ->
           In r (table w) /\
           status_predicate (or_else (Options.status opts) status_all) r = true /\
           priority_predicate (Options.priority opts) r = true /\
           search_predicate (Options.search opts) r = true /\
           tag_predicate (Options.tag opts) r = true)) /\
  (forall page limit status sortBy sortOrder o w,
      status = None \/ status = Some status_all ->
      1 <= or_else page 1 ->
      1 <= or_else limit config_pagination_defaultLimit <= 100 ->
      exists res,
        getAllTodos {| Options.page := page; Options.limit := limit;
                       Options.status := status; Options.priority := None;
                       Options.sortBy := sortBy; Options.sortOrder := sortOrder;
                       Options.search := None; Options.tag := None |} o w
          = (inr res, w) /\
        totalItems (pagination res) = Z.of_nat (List.length (table w)) /\
        data res =
          firstn (Z.to_nat (or_else limit config_pagination_defaultLimit))
            (skipn (Z.to_nat ((or_else page 1 - 1)
                               * or_else limit config_pagination_defaultLimit))
               (sort_rows (order_leb (or_else sortBy by_createdAt)
                                     (or_else sortOrder desc))
                          (table w)))).
Proof.
  split; [exact selected_build_filters|]. split; [|split].
  - intros r. unfold status_predicate, priority_predicate.
    repeat split; try reflexivity.
    + now destruct (completed r).
    + intros ->. reflexivity.
    + now destruct (completed r).
    + intros ->. reflexivity.
    + now destruct (priority r), p.
    + intros <-. now destruct (priority r).
  - intros opts o w _ _.
    destruct (getAllTodos_run opts o w) as (res & Hrun & Hdata & _ & _ & Htotal & _).
    exists res. split; [exact Hrun|].
    assert (Hm : matching opts (table w) =
                 filter (fun r =>
                           status_predicate (or_else (Options.status opts) status_all) r &&
                           priority_predicate (Options.priority opts) r &&
                           search_predicate (Options.search opts) r &&
                           tag_predicate (Options.tag opts) r)%bool
                        (table w)).
    { unfold matching, filters_of. apply filter_ext. intros r.
      apply selected_build_filters. }
    unfold sorted_matching in Hdata. rewrite Hm in Hdata, Htotal.
    split; [exact Htotal|]. split; [exact Hdata|].
    intros r Hin. rewrite Hdata in Hin.
    apply In_firstn in Hin. apply In_skipn in Hin.
    apply sort_rows_In in Hin. apply filter_In in Hin as [Hin Hsel].
    apply andb_prop in Hsel as [Hsel H4].
    apply andb_prop in Hsel as [Hsel H3].
    apply andb_prop in Hsel as [H1 H2].
    auto.
  - intros page limit status sortBy sortOrder o w Hstatus _ _.
    eexists. split; [reflexivity|].
    cbn. unfold count. cbn.
    assert (Hs : or_else status status_all = status_all)
      by (destruct Hstatus as [-> | ->]; reflexivity).
    rewrite Hs.
    rewrite !(filter_all (selected _)) by reflexivity.
    split; reflexivity.
Qed.

Lemma filters_are_conjunction_witness :
  exists res,
    getAllTodos {| Options.page := Some 1; Options.limit := Some 10;
                   Options.status := Some status_pending;
                   Options.priority := Some medium;
                   Options.sortBy := None; Options.sortOrder := None;
                   Options.search := None; Options.tag := None |}
                ticking world_milk = (inr res, world_milk) /\
    totalItems (pagination res) = 1 /\
    data res = [row_abc] /\
    exists res',
      getAllTodos {| Options.page := None; Options.limit := None;
                     Options.status := None; Options.priority := None;
                     Options.sortBy := None; Options.sortOrder := None;
                     Options.search := None; Options.tag := None |}
                  ticking world_milk = (inr res', world_milk) /\
      totalItems (pagination res') = 2 /\
      data res' = [row_milk; row_abc].
Proof.
  destruct filters_are_conjunction as (_ & _ & Hany & Hall).
  destruct (Hany {| Options.page := Some 1; Options.limit := Some 10;
                    Options.status := Some status_pending;
                    Options.priority := Some medium;
                    Options.sortBy := None; Options.sortOrder := None;
                    Options.search := None; Options.tag := None |}
                 ticking world_milk)
    as (res & Hrun & Htotal & Hdata & _);
    [vm_compute; discriminate|vm_compute; split; discriminate|].
  exists res. split; [exact Hrun|]. split; [exact Htotal|]. split; [exact Hdata|].
  destruct (Hall None None None None None ticking world_milk (or_introl eq_refl))
    as (res' & Hrun' & Htotal' & Hdata');
    [vm_compute; discriminate|vm_compute; split; discriminate|].
  exists res'. split; [exact Hrun'|]. split; [exact Htotal'|exact Hdata'].
Defined.

(** C3, at the failing input.  The table holds one row, with title [abc]
    and no description, as the seed script stores rows.  Neither its title
    nor its description contains the text [a_c], yet the list request with
    [search=a_c] returns the row: the underscore is read by LIKE as any one
    character. *)
Theorem search_reads_wildcards :
  title row_abc = "abc" /\
  description row_abc = None /\
  title_or_description_contains "a_c" row_abc = false /\
  search_predicate (Some "a_c") row_abc = true /\
  exists res,
    getAllTodos (list_options (Some "a_c") None) ticking world_abc
      = (inr res, world_abc) /\
    data res = [row_abc] /\
    totalItems (pagination res) = 1.
Proof.
  split; [reflexivity|]. split; [reflexivity|].
  split; [vm_compute; reflexivity|].
  split; [vm_compute; reflexivity|].
  eexists. split; [vm_compute; reflexivity|].
  split; reflexivity.
Qed.

(** C4, at the failing input.  The same row carries the single tag [work].
    The text [wor_] is not one of its tags, yet the list request with
    [tag=wor_] returns the row, and so does [tag=%]. *)
Theorem tag_reads_wildcards :
  tags row_abc = Some (JSON_stringify ["work"]) /\
  ~ In "wor_" ["work"] /\
  tag_predicate (Some "wor_") row_abc = true /\
  tag_predicate (Some "%") row_abc = true /\
  exists res,
    getAllTodos (list_options None (Some "wor_")) ticking world_abc
      = (inr res, world_abc) /\
    data res = [row_abc] /\
    totalItems (pagination res) = 1.
Proof.
  split; [reflexivity|].
  split; [intros [H|[]]; discriminate|].
  split; [vm_compute; reflexivity|].
  split; [vm_compute; reflexivity|].
  eexists. split; [vm_compute; reflexivity|].
  split; reflexivity.
Qed.

(** ** Due soon *)

(** C10.  Every row returned by the due-soon query has a due date, at most
    [days] days after the time of the query, and is pending; a row without
    due date is never returned, whatever [days] is. *)
Theorem dueSoon_rows_have_dueDate (days : Z) (o : Oracle) (w : World) :
  exists todos w',
    getTodosDueSoon days o w = (inr todos, w') /\
    table w' = table w /\
    (forall r, In r todos ->
       In r (table w) /\ completed r = false /\
       exists d, dueDate r = Some d /\ d <= clock o (clock_reads w) + days * day_ms) /\
    (forall r, dueDate r = None -> ~ In r todos).
Proof.
  eexists. eexists. split; [reflexivity|]. split; [reflexivity|].
  assert (H : forall r,
    In r (fetch (orderBy by_dueDate asc
               (where_ (WhereEq col_completed (SqlBool false))
                 (where_ (WhereLe col_dueDate
                            (SqlInt (clock o (clock_reads w) + days * day_ms)))
                         Todo_query)))
             (table w)) ->
       In r (table w) /\ completed r = false /\
       exists d, dueDate r = Some d /\ d <= clock o (clock_reads w) + days * day_ms).
  { intros r Hin. unfold fetch in Hin.
    cbn [apply_limit apply_offset apply_order q_limit q_offset ordering orderBy] in Hin.
    apply sort_rows_In in Hin. apply filter_In in Hin. destruct Hin as [Hin Hsel].
    rewrite selected_orderBy, !selected_where in Hsel.
    apply andb_prop in Hsel. destruct Hsel as [Hsel Hc].
    apply andb_prop in Hsel. destruct Hsel as [_ Hd].
    rewrite holds_completed in Hc.
    split; [exact Hin|]. split; [now destruct (completed r)|].
    now apply holds_dueDate_le. }
  split; [exact H|].
  intros r Hnone Hin. apply H in Hin. destruct Hin as (_ & _ & d & Hd & _).
  congruence.
Qed.


(** ** The schema library *)

Lemma validate_keys_cons k s keys rt prefs p input :
  validate_keys ((k, s) :: keys) rt prefs p input =
    (errors (s rt prefs (p ++ [k])%list (get k input))
       ++ fst (validate_keys keys rt prefs p input),
     match value (s rt prefs (p ++ [k])%list (get k input)) with
     | Some v => (k, v) :: snd (validate_keys keys rt prefs p input)
     | None => snd (validate_keys keys rt prefs p input)
     end)%list.
Proof.
  simpl. destruct (validate_keys keys rt prefs p input). reflexivity.
Qed.

Lemma validate_items_cons items rt prefs p i x xs :
  validate_items items rt prefs p i (x :: xs) =
    ((errors (items rt prefs (p ++ [index_name i])%list (Some x))
       ++ fst (validate_items items rt prefs p (S i) xs))%list,
     or_else (value (items rt prefs (p ++ [index_name i])%list (Some x))) x
       :: snd (validate_items items rt prefs p (S i) xs)).
Proof.
  simpl. destruct (validate_items items rt prefs p (S i) xs). reflexivity.
Qed.

Section ObjectKeys.
Variable rt : Runtime.
Variable prefs : Prefs.
Variable p : list string.

Lemma get_validate_keys_unknown keys input k :
  ~ In k (map fst keys) ->
  get k (snd (validate_keys keys rt prefs p input)) = None.
Proof.
  induction keys as [|[k' s] keys IH]; intros Hk; [reflexivity|].
  rewrite validate_keys_cons. simpl in Hk.
  assert (Hne : String.eqb k k' = false).
  { apply String.eqb_neq. intros ->. apply Hk. now left. }
  cbn [snd].
  destruct (value _); simpl; rewrite ?Hne; apply IH; tauto.
Qed.

(** The normalized object holds, under each key, the value its schema
    produced. *)
Lemma get_validate_keys keys input k :
  NoDup (map fst keys) ->
  get k (snd (validate_keys keys rt prefs p input)) =
    match schema_for k keys with
    | Some s => value (s rt prefs (p ++ [k])%list (get k input))
    | None => None
    end.
Proof.
  induction keys as [|[k' s] keys IH]; intros Hnd; [reflexivity|].
  rewrite validate_keys_cons. simpl in Hnd.
  inversion Hnd as [|? ? Hnotin Hnd']; subst.
  cbn [snd schema_for].
  destruct (String.eqb k k') eqn:E.
  - apply String.eqb_eq in E. subst k'.
    destruct (value _) eqn:Ev; simpl.
    + now rewrite String.eqb_refl.
    + now apply get_validate_keys_unknown.
  - destruct (value _); simpl; rewrite ?E; now apply IH.
Qed.

(** The violations of every key are among those of the object. *)
Lemma validate_keys_errors keys input k s :
  In (k, s) keys ->
  incl (errors (s rt prefs (p ++ [k])%list (get k input)))
       (fst (validate_keys keys rt prefs p input)).
Proof.
  induction keys as [|[k' s'] keys IH]; intros Hin; [contradiction|].
  rewrite validate_keys_cons. cbn [fst].
  destruct Hin as [E|Hin].
  - inversion E; subst. apply incl_appl, incl_refl.
  - apply incl_appr. now apply IH.
Qed.

Lemma validate_keys_passed keys input k s :
  In (k, s) keys ->
  fst (validate_keys keys rt prefs p input) = [] ->
  errors (s rt prefs (p ++ [k])%list (get k input)) = [].
Proof.
  intros Hin He. pose proof (validate_keys_errors keys input k s Hin) as Hi.
  rewrite He in Hi. now apply incl_l_nil.
Qed.

Lemma validate_keys_ext keys input input' :
  (forall k, In k (map fst keys) -> get k input = get k input') ->
  validate_keys keys rt prefs p input = validate_keys keys rt prefs p input'.
Proof.
  induction keys as [|[k s] keys IH]; intros H; [reflexivity|].
  rewrite !validate_keys_cons.
  rewrite (H k) by (now left).
  rewrite IH by (intros k' Hk'; apply H; now right).
  reflexivity.
Qed.

End ObjectKeys.




Lemma allow_list_skips_objects input allowed :
  existsb (prim_eqb (JsObject input)) allowed = false.
Proof. induction allowed as [|x l IH]; [reflexivity| now destruct x]. Qed.

(** Object validation with all errors collected and unknown keys stripped,
    spelled out. *)
Lemma Joi_object_collect keys min a rt prefs p input :
  abortEarly prefs = false ->
  stripUnknown prefs = true ->
  let prefs' := with_messages a prefs in
  let kv := validate_keys keys rt prefs' p input in
  let out := Some (JsObject (snd kv)) in
  let base_errors :=
    match fst kv with
    | _ :: _ => fst kv
    | [] => if below min (list_length (snd kv))
            then [mk_error prefs' p "object.min" out] else []
    end in
  Joi_object keys min a rt prefs p (Some (JsObject input)) =
    {| errors := if only a
                 then mk_error prefs' p "any.only" (Some (JsObject input)) :: base_errors
                 else base_errors;
       value := out |}.
Proof.
  intros Ha Hs prefs' kv out base_errors.
  subst base_errors out kv. unfold Joi_object, object_base, no_coerce, any. cbv beta iota.
  rewrite allow_list_skips_objects.
  fold prefs'.
  assert (Ha' : abortEarly prefs' = false) by exact Ha.
  assert (Hs' : stripUnknown prefs' = true) by exact Hs.
  destruct (validate_keys keys rt prefs' p input) as [es vs].
  unfold handle_unknown, limit_errors. rewrite Ha', Hs'. cbn [fst snd].
  rewrite !app_nil_r.
  destruct (only a); destruct es as [|e es]; cbn;
    try destruct (below min (list_length vs)); reflexivity.
Qed.

(** What a successful object validation yields. *)
Lemma Joi_object_passed keys min a rt prefs p input :
  abortEarly prefs = false ->
  stripUnknown prefs = true ->
  let r := Joi_object keys min a rt prefs p (Some (JsObject input)) in
  errors r = [] ->
  let kv := validate_keys keys rt (with_messages a prefs) p input in
  fst kv = [] /\
  value r = Some (JsObject (snd kv)) /\
  below min (list_length (snd kv)) = false.
Proof.
  intros Ha Hs r. subst r.
  rewrite Joi_object_collect by assumption. cbv zeta. cbn [errors value].
  destruct (only a); [discriminate|].
  destruct (fst (validate_keys keys rt (with_messages a prefs) p input));
    [|discriminate].
  destruct (below min _); [discriminate|].
  intros _. repeat split.
Qed.

Lemma Joi_object_required_passed keys min msgs rt prefs p v :
  abortEarly prefs = false ->
  stripUnknown prefs = true ->
  let a := {| required := true; allow := []; only := false; default := None;
              messages := msgs |} in
  let r := Joi_object keys min a rt prefs p v in
  errors r = [] ->
  exists input,
    v = Some (JsObject input) /\
    let kv := validate_keys keys rt (with_messages a prefs) p input in
    fst kv = [] /\
    value r = Some (JsObject (snd kv)) /\
    below min (list_length (snd kv)) = false.
Proof.
  intros Ha Hs a r He.
  destruct v as [x|].
  - destruct x; try (exfalso; revert He; subst r; unfold Joi_object, object_base, no_coerce, any, limit_errors;
                     cbn; rewrite Ha; cbn; discriminate).
    exists props. split; [reflexivity|].
    now apply Joi_object_passed.
  - exfalso. revert He. subst r. unfold Joi_object, object_base, no_coerce, any. cbn. discriminate.
Qed.

(** ** Schemas that do not depend on where they are used *)

Lemma agree_failed e1 es1 e2 es2 v :
  agree (failed (e1 :: es1) v) (failed (e2 :: es2) v).
Proof. split; [split; discriminate | reflexivity]. Qed.

Lemma agree_refl_passed v : agree (passed v) (passed v).
Proof. split; [tauto | reflexivity]. Qed.

Lemma same_options_messages a1 a2 prefs1 prefs2 :
  same_options prefs1 prefs2 ->
  same_options (with_messages a1 prefs1) (with_messages a2 prefs2).
Proof. intros H. exact H. Qed.

Lemma firstn_1_nil {A} (l : list A) : firstn 1 l = [] <-> l = [].
Proof. destruct l; simpl; split; intros; congruence. Qed.

(** The flags that matter for a value that is present. *)
Lemma any_agree a1 a2 coerce base rt prefs1 prefs2 p1 p2 x :
  allow a1 = allow a2 ->
  only a1 = only a2 ->
  same_options prefs1 prefs2 ->
  (forall y q1 q2, same_options q1 q2 -> agree (base rt q1 p1 y) (base rt q2 p2 y)) ->
  agree (any a1 coerce base rt prefs1 p1 (Some x))
        (any a2 coerce base rt prefs2 p2 (Some x)).
Proof.
  intros Hal Hon Hopt Hbase. unfold any. rewrite Hal, Hon.
  destruct (existsb _ (allow a2)); [apply agree_refl_passed|].
  pose proof (same_options_messages a1 a2 _ _ Hopt) as Hopt'.
  destruct (Hbase (coerce rt x) _ _ Hopt') as [He Hv].
  destruct Hopt' as (Hab & _ & _).
  destruct (only a2).
  - rewrite Hab. destruct (abortEarly (with_messages a2 prefs2)).
    + apply agree_failed.
    + split; [split; discriminate | exact Hv].
  - unfold limit_errors. rewrite Hab.
    split; [|exact Hv]. cbn [errors failed].
    destruct (abortEarly (with_messages a2 prefs2)); [|exact He].
    rewrite !firstn_1_nil. exact He.
Qed.

Lemma any_stable a coerce base :
  stable_base base -> stable (any a coerce base).
Proof.
  intros Hbase rt prefs1 prefs2 p1 p2 v Hopt.
  destruct v as [x|].
  - apply any_agree; auto.
  - unfold any. destruct (required a).
    + apply agree_failed.
    + apply agree_refl_passed.
Qed.

Ltac agree_rules :=
  split; [|reflexivity]; cbn [errors failed passed];
  repeat match goal with
         | |- context [if ?c then _ else _] => destruct c
         end;
  cbn [app]; split; intros; try reflexivity; try discriminate.

Lemma Joi_string_stable trimmed min max guid a :
  stable (Joi_string trimmed min max guid a).
Proof.
  apply any_stable. intros rt prefs1 prefs2 p1 p2 x _. unfold string_base.
  destruct x; try apply agree_failed.
  destruct s; [apply agree_failed|]. agree_rules.
Qed.

Lemma Joi_boolean_stable a : stable (Joi_boolean a).
Proof.
  apply any_stable. intros rt prefs1 prefs2 p1 p2 x _. unfold boolean_base.
  destruct x; try apply agree_failed. apply agree_refl_passed.
Qed.

Lemma Joi_date_iso_stable min_now a : stable (Joi_date_iso min_now a).
Proof.
  apply any_stable. intros rt prefs1 prefs2 p1 p2 x _. unfold date_base.
  destruct x; try apply agree_failed.
  destruct (min_now && (t <? now rt))%bool;
    [apply agree_failed | apply agree_refl_passed].
Qed.

Lemma validate_items_agree items rt prefs1 prefs2 p1 p2 xs :
  stable items -> same_options prefs1 prefs2 ->
  forall i j,
  (fst (validate_items items rt prefs1 p1 i xs) = [] <->
   fst (validate_items items rt prefs2 p2 j xs) = []) /\
  snd (validate_items items rt prefs1 p1 i xs) =
  snd (validate_items items rt prefs2 p2 j xs).
Proof.
  intros Hs Hopt. induction xs as [|x xs IH]; intros i j; [split; [tauto|reflexivity]|].
  rewrite !validate_items_cons. cbn [fst snd].
  destruct (Hs rt prefs1 prefs2 (p1 ++ [index_name i])%list (p2 ++ [index_name j])%list
               (Some x) Hopt) as [He Hv].
  destruct (IH (S i) (S j)) as [He' Hv'].
  rewrite Hv, Hv'. split; [|reflexivity].
  split; intros H; apply app_eq_nil in H; destruct H as [H1 H2];
    [rewrite (proj1 He H1), (proj1 He' H2) | rewrite (proj2 He H1), (proj2 He' H2)];
    reflexivity.
Qed.

Lemma Joi_array_stable items min max a :
  stable items -> stable (Joi_array items min max a).
Proof.
  intros Hs. apply any_stable. intros rt prefs1 prefs2 p1 p2 x Hopt.
  unfold array_base.
  destruct x; try apply agree_failed.
  destruct (validate_items_agree items rt prefs1 prefs2 p1 p2 xs Hs Hopt 0%nat 0%nat)
    as [He Hv].
  destruct (validate_items items rt prefs1 p1 0 xs) as [es1 vs1].
  destruct (validate_items items rt prefs2 p2 0 xs) as [es2 vs2].
  cbn [fst snd] in He, Hv. subst vs2.
  destruct es1 as [|e1 es1], es2 as [|e2 es2].
  - agree_rules.
  - destruct He as [He _]. specialize (He eq_refl). discriminate.
  - destruct He as [_ He]. specialize (He eq_refl). discriminate.
  - apply agree_failed.
Qed.

Lemma validate_keys_agree keys rt prefs1 prefs2 p1 p2 input :
  Forall (fun ks => stable (snd ks)) keys ->
  same_options prefs1 prefs2 ->
  (fst (validate_keys keys rt prefs1 p1 input) = [] <->
   fst (validate_keys keys rt prefs2 p2 input) = []) /\
  snd (validate_keys keys rt prefs1 p1 input) =
  snd (validate_keys keys rt prefs2 p2 input).
Proof.
  intros Hs Hopt. induction Hs as [|[k s] keys Hk Hs IH]; [split; [tauto|reflexivity]|].
  rewrite !validate_keys_cons. cbn [fst snd] in Hk |- *.
  destruct (Hk rt prefs1 prefs2 (p1 ++ [k])%list (p2 ++ [k])%list (get k input) Hopt)
    as [He Hv].
  destruct IH as [He' Hv'].
  rewrite Hv, Hv'. split; [|reflexivity].
  split; intros H; apply app_eq_nil in H; destruct H as [H1 H2];
    [rewrite (proj1 He H1), (proj1 He' H2) | rewrite (proj2 He H1), (proj2 He' H2)];
    reflexivity.
Qed.

Lemma object_base_agree keys min rt p1 p2 :
  Forall (fun ks => stable (snd ks)) keys ->
  forall y q1 q2, same_options q1 q2 ->
  agree (object_base keys min rt q1 p1 y) (object_base keys min rt q2 p2 y).
Proof.
  intros Hs y q1 q2 Hopt. unfold object_base.
  destruct y; try apply agree_failed.
  destruct (validate_keys_agree keys rt q1 q2 p1 p2 props Hs Hopt) as [He Hv].
  destruct (validate_keys keys rt q1 p1 props) as [es1 vs1].
  destruct (validate_keys keys rt q2 p2 props) as [es2 vs2].
  cbn [fst snd] in He, Hv. subst vs2.
  destruct Hopt as (_ & Hall & Hstrip).
  unfold handle_unknown. rewrite Hall, Hstrip.
  destruct (stripUnknown q2); [|destruct (allowUnknown q2)].
  - rewrite !app_nil_r.
    destruct es1 as [|e1 es1], es2 as [|e2 es2].
    + destruct (below min _); [apply agree_failed | apply agree_refl_passed].
    + destruct He as [He _]. specialize (He eq_refl). discriminate.
    + destruct He as [_ He]. specialize (He eq_refl). discriminate.
    + apply agree_failed.
  - rewrite !app_nil_r.
    destruct es1 as [|e1 es1], es2 as [|e2 es2].
    + destruct (below min _); [apply agree_failed | apply agree_refl_passed].
    + destruct He as [He _]. specialize (He eq_refl). discriminate.
    + destruct He as [_ He]. specialize (He eq_refl). discriminate.
    + apply agree_failed.
  - destruct (unknown_props keys props) as [|u us].
    + cbn [map]. rewrite !app_nil_r.
      destruct es1 as [|e1 es1], es2 as [|e2 es2].
      * destruct (below min _); [apply agree_failed | apply agree_refl_passed].
      * destruct He as [He _]. specialize (He eq_refl). discriminate.
      * destruct He as [_ He]. specialize (He eq_refl). discriminate.
      * apply agree_failed.
    + cbn [map].
      destruct es1 as [|e1 es1], es2 as [|e2 es2]; cbn [app]; apply agree_failed.
Qed.

(** The single-entity update contract and the [updateData] part of the bulk
    schema accept the same payloads. *)
Lemma updateTodoSchema_keys_stable :
  Forall (fun ks => stable (snd ks)) updateTodoSchema_keys.
Proof.
  unfold updateTodoSchema_keys, description_schema, tags_schema, tag_item.
  repeat (apply Forall_cons; [cbn [snd]|]); try apply Forall_nil;
    auto using Joi_string_stable, Joi_boolean_stable, Joi_date_iso_stable,
               Joi_array_stable.
Qed.

Lemma bulk_updateData_contract rt p msgs u :
  errors (Joi_object updateTodoSchema_keys (Some 1)
            {| required := true; allow := []; only := false; default := None;
               messages := msgs |}
            rt (with_messages optional validate_options) p (Some u)) = [] <->
  errors (updateTodoSchema rt validate_options [] (Some u)) = [].
Proof.
  unfold updateTodoSchema, Joi_object.
  apply any_agree; try reflexivity.
  - repeat split.
  - apply object_base_agree, updateTodoSchema_keys_stable.
Qed.


(** ** The validation middleware *)

Lemma validate_passed schema property rt req req' :
  validate schema property rt req = Next req' ->
  errors (schema rt validate_options [] (get_property property req)) = [] /\
  req' = set_property property
           (value (schema rt validate_options [] (get_property property req))) req.
Proof.
  unfold validate.
  destruct (errors _); [|discriminate].
  intros E; injection E as <-. split; reflexivity.
Qed.

Lemma validate_rejects schema property rt req :
  errors (schema rt validate_options [] (get_property property req)) <> [] ->
  validate schema property rt req =
    Respond {| status := 400;
               json := Failure "VALIDATION_ERROR" "Request validation failed"
                         (map errorDetail
                            (errors (schema rt validate_options []
                                       (get_property property req)))) |}.
Proof.
  intros Hne. unfold validate.
  destruct (errors _) as [|e es]; [contradiction|reflexivity].
Qed.

Lemma validate_respond schema property rt req res :
  validate schema property rt req = Respond res -> status res = 400.
Proof.
  unfold validate. destruct (errors _); [discriminate|].
  intros E; injection E as <-. reflexivity.
Qed.

Lemma route_respond m controller req o w res :
  m req = Respond res ->
  route [m] controller req o w = (res, w).
Proof. intros H. simpl. now rewrite H. Qed.

Lemma route_next m controller req req' o w :
  m req = Next req' ->
  route [m] controller req o w = controller req' o w.
Proof. intros H. simpl. now rewrite H. Qed.






(** ** Creation *)

Ltac run_store :=
  unfold try_catch, insert, bind, beforeInsert, beforeUpdate, uuidv4, new_Date,
    findById, get_table, put_table, ret, throw; simpl.

Lemma stringify_tags_fields d :
  data_title (stringify_tags d) = data_title d /\
  data_description (stringify_tags d) = data_description d /\
  data_completed (stringify_tags d) = data_completed d /\
  data_priority (stringify_tags d) = data_priority d /\
  data_dueDate (stringify_tags d) = data_dueDate d /\
  data_updatedAt (stringify_tags d) = data_updatedAt d.
Proof.
  unfold stringify_tags.
  destruct (data_tags d) as [[[xs|s]|]|]; repeat split.
Qed.

(** The validation of the model lets a conforming object through and
    stops everything else before it starts. *)
Lemma fromJson_then {A} patch d (m : M A) o w :
  jsonSchema_violations patch d = [] ->
  (fromJson patch d ;;; m) o w = m o w.
Proof. intros H. unfold bind, fromJson. now rewrite H. Qed.

Lemma fromJson_stop {A} patch d (m : M A) o w :
  jsonSchema_violations patch d <> [] ->
  (fromJson patch d ;;; m) o w
  = (inl (ValidationError (jsonSchema_violations patch d)), w).
Proof.
  intros H. unfold bind, fromJson.
  destruct (jsonSchema_violations patch d); [congruence|reflexivity].
Qed.

Lemma violations_dec patch d :
  {jsonSchema_violations patch d = []} + {jsonSchema_violations patch d <> []}.
Proof. destruct (jsonSchema_violations patch d); [now left|now right]. Qed.

(** What a conforming payload looks like: a title of 1 to 255 characters
    (on insert), a description of at most 1000, no due date and no tags
    other than null. *)
Lemma violations_none patch d :
  jsonSchema_violations patch (stringify_tags d) = [] <->
  title_violations patch d = [] /\
  description_violations d = [] /\
  (data_dueDate d = None \/ data_dueDate d = Some None) /\
  (data_tags d = None \/ data_tags d = Some None).
Proof.
  destruct (stringify_tags_fields d) as (E1 & E2 & E3 & E4 & E5 & E6).
  assert (Ht : title_violations patch (stringify_tags d) = title_violations patch d)
    by (unfold title_violations; now rewrite E1).
  assert (Hd : description_violations (stringify_tags d) = description_violations d)
    by (unfold description_violations; now rewrite E2).
  assert (Hdue : dueDate_violations (stringify_tags d) = [] <->
                 data_dueDate d = None \/ data_dueDate d = Some None).
  { unfold dueDate_violations. rewrite E5.
    destruct (data_dueDate d) as [[z|]|]; intuition discriminate. }
  assert (Htags : tags_violations (stringify_tags d) = [] <->
                  data_tags d = None \/ data_tags d = Some None).
  { unfold tags_violations, stringify_tags.
    destruct (data_tags d) as [[[xs|x]|]|] eqn:E; cbn; rewrite ?E;
      intuition discriminate. }
  unfold jsonSchema_violations. rewrite Ht, Hd, <- Hdue, <- Htags. split.
  - intros H. apply app_eq_nil in H as [H1 H]. apply app_eq_nil in H as [H2 H].
    apply app_eq_nil in H as [H3 H4]. auto.
  - intros (-> & -> & -> & ->). reflexivity.
Qed.

Lemma storable_title d :
  storable d ->
  exists t, data_title d = Some t /\ 1 <= length_of t <= 255.
Proof.
  intros H. apply violations_none in H as (Ht & _).
  unfold title_violations in Ht.
  destruct (data_title d) as [t|]; [|discriminate]. exists t. split; [reflexivity|].
  destruct (1 <=? length_of t) eqn:E1; destruct (length_of t <=? 255) eqn:E2;
    try discriminate.
  apply Z.leb_le in E1, E2. lia.
Qed.

(** With a conforming payload and an identifier no stored row has, the
    service inserts the row and returns it. *)
Lemma createTodo_fresh d t o w :
  storable d ->
  data_title d = Some t ->
  existsb (has_id (uuid o (uuid_draws w))) (table w) = false ->
  createTodo d o w =
    (inr (inserted_row d t o w),
     after_insert w (table w ++ [inserted_row d t o w])).
Proof.
  intros Hok Ht Hfresh.
  destruct (stringify_tags_fields d) as (E1 & E2 & E3 & E4 & E5 & E6).
  unfold createTodo, try_catch, insert. rewrite fromJson_then by exact Hok.
  run_store.
  rewrite E1, Ht; simpl. rewrite Hfresh; simpl.
  unfold inserted_row, after_insert. now rewrite E2, E3, E4, E5.
Qed.

(** When the identifier drawn is the one of a stored row, whatever the
    store raised leaves the service as its own 500 error. *)
Lemma createTodo_collision d o w :
  storable d ->
  existsb (has_id (uuid o (uuid_draws w))) (table w) = true ->
  createTodo d o w =
    (inl (ApiError 500 "Failed to create todo"), after_insert w (table w)).
Proof.
  intros Hok Hdup.
  unfold createTodo, try_catch, insert. rewrite fromJson_then by exact Hok.
  run_store.
  destruct (data_title (stringify_tags d)); simpl; [|reflexivity].
  now rewrite Hdup.
Qed.

(** A payload the model refuses leaves the service as its own 500 error,
    before the identifier is drawn or the clock is read. *)
Lemma createTodo_refused d o w :
  ~ storable d ->
  createTodo d o w = (inl (ApiError 500 "Failed to create todo"), w).
Proof.
  intros Hbad.
  unfold createTodo, try_catch, insert. now rewrite fromJson_stop by exact Hbad.
Qed.

Section CreateKeys.
Variable rt : Runtime.
Variable prefs : Prefs.
Variable p : list string.
Variable v : option JsValue.
Hypothesis collect_all : abortEarly prefs = false.

Lemma errors_app_nil {A} (l l' : list A) : (l ++ l')%list = [] -> l = [] /\ l' = [].
Proof. destruct l; [auto|discriminate]. Qed.

(** An accepted title is a string, handed on trimmed, of 1 to 255
    characters. *)
Lemma create_title_passed :
  errors (create_title rt prefs p v) = [] ->
  exists s,
    v = Some (JsString s) /\
    value (create_title rt prefs p v) = Some (JsString (trim s)) /\
    1 <= length_of (trim s) <= 255.
Proof.
  unfold create_title, Joi_string, string_coerce, string_base, any. cbn.
  destruct v as [x|]; cbn; [|discriminate].
  unfold limit_errors; cbn; rewrite collect_all.
  destruct x; cbn; try discriminate.
  destruct (trim s) as [|c s'] eqn:E; cbn; [discriminate|].
  intros H. apply errors_app_nil in H as [H1 H2].
  apply errors_app_nil in H2 as [H2 _].
  exists s. rewrite E. split; [reflexivity|]. split; [reflexivity|].
  match type of H1 with (if ?b then _ else _) = _ =>
    destruct b eqn:E1; [discriminate|] end.
  match type of H2 with (if ?b then _ else _) = _ =>
    destruct b eqn:E2; [discriminate|] end.
  apply Z.ltb_ge in E1, E2. unfold length_of. cbn [String.length]. lia.
Qed.

(** An accepted description is absent, null, or a string handed on
    trimmed, of at most 1000 characters. *)
Lemma description_passed :
  errors (description_schema rt prefs p v) = [] ->
  (v = None /\ value (description_schema rt prefs p v) = None) \/
  (v = Some JsNull /\ value (description_schema rt prefs p v) = Some JsNull) \/
  (exists s,
     v = Some (JsString s) /\
     value (description_schema rt prefs p v) = Some (JsString (trim s)) /\
     length_of (trim s) <= 1000).
Proof.
  unfold description_schema, Joi_string, string_coerce, string_base, any. cbn.
  destruct v as [x|]; cbn; [|now left].
  unfold limit_errors; cbn; rewrite collect_all.
  destruct x; cbn; try discriminate.
  - intros _. right; left. auto.
  - destruct (trim s) as [|c s'] eqn:E; cbn.
    + intros _. right; right. exists s. rewrite E. repeat split.
      unfold length_of. simpl. lia.
    + intros H. apply errors_app_nil in H as [H2 _].
      right; right. exists s. rewrite E. split; [reflexivity|]. split; [reflexivity|].
      match type of H2 with (if ?b then _ else _) = _ =>
        destruct b eqn:E2; [discriminate|] end.
      apply Z.ltb_ge in E2. unfold length_of. cbn [String.length]. lia.
Qed.

(** An accepted due date is absent, null, or handed on as a date. *)
Lemma dueDate_passed min_now a :
  required a = false -> allow a = [JsNull] -> only a = false -> default a = None ->
  errors (Joi_date_iso min_now a rt prefs p v) = [] ->
  (v = None /\ value (Joi_date_iso min_now a rt prefs p v) = None) \/
  (v = Some JsNull /\ value (Joi_date_iso min_now a rt prefs p v) = Some JsNull) \/
  (exists x t,
     v = Some x /\ x <> JsNull /\
     value (Joi_date_iso min_now a rt prefs p v) = Some (JsDate t)).
Proof.
  intros Hr Hal Ho Hd.
  unfold Joi_date_iso, any. rewrite Hr, Hal, Ho, Hd.
  destruct v as [x|]; [|now left].
  unfold limit_errors. cbn [abortEarly with_messages]. rewrite collect_all.
  destruct (date_coerce rt x) as [| | | |t| |] eqn:Ec;
    cbn [existsb prim_eqb orb date_base errors value passed failed];
    try discriminate.
  - intros _. right; left. split; [|reflexivity].
    destruct x; cbn in Ec; try discriminate; try reflexivity.
    + destruct (parseIsoDate rt (number_text n)); discriminate.
    + destruct (parseIsoDate rt s); discriminate.
  - intros _. right; right. exists x, t. split; [reflexivity|]. split.
    + intros ->. discriminate Ec.
    + now destruct (min_now && (t <? now rt))%bool.
Qed.

(** Accepted tags are absent, null, or an array handed on as an array. *)
Lemma tags_passed :
  errors (tags_schema rt prefs p v) = [] ->
  (v = None /\ value (tags_schema rt prefs p v) = None) \/
  (v = Some JsNull /\ value (tags_schema rt prefs p v) = Some JsNull) \/
  (exists xs ys,
     v = Some (JsArray xs) /\
     value (tags_schema rt prefs p v) = Some (JsArray ys)).
Proof.
  unfold tags_schema, Joi_array, any, no_coerce.
  cbn [required allow only default].
  destruct v as [x|]; [|now left].
  unfold limit_errors. cbn [abortEarly with_messages]. rewrite collect_all.
  destruct x as [| | | | |xs|];
    cbn [existsb prim_eqb orb array_base errors value passed failed];
    try discriminate.
  - intros _. right; left. auto.
  - destruct (validate_items tag_item rt _ p 0 xs) as [es vs].
    cbn [errors value failed]. intros H. apply errors_app_nil in H as [-> _].
    right; right. eauto.
Qed.

Lemma create_completed_passed :
  errors (create_completed rt prefs p v) = [] ->
  exists b,
    value (create_completed rt prefs p v) = Some (JsBool b) /\
    (v = None -> b = false) /\
    (forall b', v = Some (JsBool b') -> b = b').
Proof.
  unfold create_completed, Joi_boolean, boolean_coerce, boolean_base, any. cbn.
  destruct v as [x|]; cbn.
  - unfold limit_errors; cbn; rewrite collect_all.
    destruct x; cbn; try discriminate.
    + intros _. exists b. repeat split; congruence.
    + destruct (text_eqb case_insensitive s "true"); cbn.
      * intros _. exists true. repeat split; congruence.
      * destruct (text_eqb case_insensitive s "false"); cbn; [|discriminate].
        intros _. exists false. repeat split; congruence.
  - intros _. exists false. repeat split; congruence.
Qed.

Lemma priority_of_name q : priority_of (priority_name q) = Some q.
Proof. now destruct q. Qed.

Lemma priority_name_inj q q' : priority_name q = priority_name q' -> q = q'.
Proof. destruct q, q'; simpl; congruence. Qed.

Lemma create_priority_passed :
  errors (create_priority rt prefs p v) = [] ->
  exists q,
    value (create_priority rt prefs p v) = Some (JsString (priority_name q)) /\
    (v = None -> q = medium) /\
    (forall q', v = Some (JsString (priority_name q')) -> q = q').
Proof.
  unfold create_priority, Joi_string, string_coerce, string_base, any. cbn.
  destruct v as [x|]; cbn.
  - rewrite collect_all.
    destruct x; cbn; try discriminate.
    destruct (String.eqb s "low") eqn:E1; cbn.
    { apply String.eqb_eq in E1; subst. intros _. exists low.
      repeat split; try congruence.
      intros q' E. injection E as E. now apply priority_name_inj. }
    destruct (String.eqb s "medium") eqn:E2; cbn.
    { apply String.eqb_eq in E2; subst. intros _. exists medium.
      repeat split; try congruence.
      intros q' E. injection E as E. now apply priority_name_inj. }
    destruct (String.eqb s "high") eqn:E3; cbn.
    { apply String.eqb_eq in E3; subst. intros _. exists high.
      repeat split; try congruence.
      intros q' E. injection E as E. now apply priority_name_inj. }
    discriminate.
  - intros _. exists medium. repeat split; congruence.
Qed.
End CreateKeys.

Lemma createTodoSchema_keys_NoDup : NoDup (map fst createTodoSchema_keys).
Proof.
  cbn. repeat (constructor; [cbn; intuition discriminate|]). constructor.
Qed.

Lemma has_id_differs i r : has_id i r = false -> id r <> i.
Proof.
  unfold has_id, holds; simpl. intros H E. subst i.
  now rewrite text_eqb_refl in H.
Qed.

(** What the creation schema hands to the controller for a body it
    accepts: the title trimmed, 1 to 255 characters; a description the
    model accepts; [completed] and [priority] with their defaults; a due
    date that is absent, null or a date; tags that are absent, null or an
    array. *)
Lemma createTodoSchema_passed rt req req' raw :
  req_body req = Some (JsObject raw) ->
  validateBody createTodoSchema rt req = Next req' ->
  let d := todoData_of (req_body req') in
  (exists s, get "title" raw = Some (JsString s) /\
             data_title d = Some (trim s) /\
             1 <= length_of (trim s) <= 255) /\
  description_violations d = [] /\
  (forall s, get "description" raw = Some (JsString s) ->
     data_description d = Some (Some (trim s)) /\ length_of (trim s) <= 1000) /\
  (exists b, data_completed d = Some b /\
             (get "completed" raw = None -> b = false) /\
             (forall b', get "completed" raw = Some (JsBool b') -> b = b')) /\
  (exists q, data_priority d = Some q /\
             (get "priority" raw = None -> q = medium) /\
             (forall q', get "priority" raw = Some (JsString (priority_name q')) ->
                         q = q')) /\
  ((get "dueDate" raw = None /\ data_dueDate d = None) \/
   (get "dueDate" raw = Some JsNull /\ data_dueDate d = Some None) \/
   (exists x t, get "dueDate" raw = Some x /\ x <> JsNull /\
                data_dueDate d = Some (Some t))) /\
  ((get "tags" raw = None /\ data_tags d = None) \/
   (get "tags" raw = Some JsNull /\ data_tags d = Some None) \/
   (exists xs ys, get "tags" raw = Some (JsArray xs) /\
                  data_tags d = Some (Some (TagsArray ys)))).
Proof.
  intros Hbody Hvalid d.
  apply validate_passed in Hvalid. destruct Hvalid as [Herr Hreq].
  cbn [get_property] in Herr, Hreq. rewrite Hbody in Herr, Hreq.
  unfold createTodoSchema, validate_options in Herr, Hreq.
  apply Joi_object_passed in Herr; [|reflexivity|reflexivity]. cbv zeta in Herr.
  destruct Herr as (Hkeys & Hval & _).
  rewrite Hval in Hreq. clear Hval.
  set (prefs := with_messages optional _) in *.
  set (vs := snd (validate_keys createTodoSchema_keys rt prefs [] raw)) in *.
  assert (Ha : abortEarly prefs = false) by reflexivity.
  assert (Hget : forall k, get k vs =
            match schema_for k createTodoSchema_keys with
            | Some s => value (s rt prefs [k] (get k raw))
            | None => None
            end).
  { intros k. unfold vs. rewrite get_validate_keys by apply createTodoSchema_keys_NoDup.
    reflexivity. }
  assert (Hpass : forall k s, In (k, s) createTodoSchema_keys ->
            errors (s rt prefs [k] (get k raw)) = []).
  { intros k s Hin. now apply (validate_keys_passed rt prefs [] _ raw k s Hin). }
  assert (Hd : d = todoData_of (Some (JsObject vs))) by (unfold d; now rewrite Hreq).
  clearbody d. subst d. clear Hreq.
  destruct (create_title_passed rt prefs ["title"] (get "title" raw) Ha)
    as (s & Hs & Hv & Hlen).
  { apply Hpass. cbn; tauto. }
  pose proof (description_passed rt prefs ["description"] (get "description" raw) Ha)
    as Hdesc.
  specialize (Hdesc ltac:(apply Hpass; cbn; tauto)).
  destruct (create_completed_passed rt prefs ["completed"] (get "completed" raw) Ha)
    as (b & Hb & Hb0 & Hb1).
  { apply Hpass. cbn; tauto. }
  destruct (create_priority_passed rt prefs ["priority"] (get "priority" raw) Ha)
    as (q & Hq & Hq0 & Hq1).
  { apply Hpass. cbn; tauto. }
  pose proof (Hpass "dueDate" create_dueDate ltac:(cbn; tauto)) as Hdue.
  unfold create_dueDate in Hdue.
  apply dueDate_passed in Hdue; [|exact Ha|reflexivity..].
  pose proof (tags_passed rt prefs ["tags"] (get "tags" raw) Ha) as Htags.
  specialize (Htags ltac:(apply Hpass; cbn; tauto)).
  assert (Hdd : data_description (todoData_of (Some (JsObject vs))) =
                match value (description_schema rt prefs ["description"]
                               (get "description" raw)) with
                | Some (JsString s) => Some (Some s)
                | Some JsNull => Some None
                | _ => None
                end).
  { unfold todoData_of; cbn [data_description props_of]. rewrite Hget.
    unfold createTodoSchema_keys; cbn [schema_for String.eqb Ascii.eqb Bool.eqb].
    reflexivity. }
  split; [|split; [|split; [|split; [|split; [|split]]]]].
  - exists s. split; [exact Hs|]. split; [|exact Hlen].
    unfold todoData_of; cbn [data_title props_of]. rewrite Hget.
    unfold createTodoSchema_keys; cbn [schema_for String.eqb Ascii.eqb Bool.eqb].
    now rewrite Hv.
  - unfold description_violations. rewrite Hdd.
    destruct Hdesc as [[_ ->]|[[_ ->]|(s' & _ & -> & Hl)]]; try reflexivity.
    now rewrite (proj2 (Z.leb_le _ _) Hl).
  - intros s' Hs'. rewrite Hdd.
    destruct Hdesc as [[E _]|[[E _]|(s'' & E & -> & Hl)]]; try congruence.
    rewrite Hs' in E. injection E as <-. auto.
  - exists b. split; [|auto].
    unfold todoData_of; cbn [data_completed props_of]. rewrite Hget.
    unfold createTodoSchema_keys; cbn [schema_for String.eqb Ascii.eqb Bool.eqb].
    now rewrite Hb.
  - exists q. split; [|auto].
    unfold todoData_of; cbn [data_priority props_of]. rewrite Hget.
    unfold createTodoSchema_keys; cbn [schema_for String.eqb Ascii.eqb Bool.eqb].
    rewrite Hq. apply priority_of_name.
  - assert (E : data_dueDate (todoData_of (Some (JsObject vs))) =
                match value (create_dueDate rt prefs ["dueDate"] (get "dueDate" raw)) with
                | Some (JsDate t) => Some (Some t)
                | Some JsNull => Some None
                | _ => None
                end).
    { unfold todoData_of; cbn [data_dueDate props_of]. rewrite Hget.
      unfold createTodoSchema_keys; cbn [schema_for String.eqb Ascii.eqb Bool.eqb].
      reflexivity. }
    rewrite E. unfold create_dueDate.
    destruct Hdue as [[E1 ->]|[[E1 ->]|(x & t & E1 & Hx & ->)]]; eauto 8.
  - assert (E : data_tags (todoData_of (Some (JsObject vs))) =
                match value (tags_schema rt prefs ["tags"] (get "tags" raw)) with
                | Some (JsArray xs) => Some (Some (TagsArray (strings_of xs)))
                | Some (JsString s) => Some (Some (TagsText s))
                | Some JsNull => Some None
                | _ => None
                end).
    { unfold todoData_of; cbn [data_tags props_of]. rewrite Hget.
      unfold createTodoSchema_keys; cbn [schema_for String.eqb Ascii.eqb Bool.eqb].
      reflexivity. }
    rewrite E.
    destruct Htags as [[E1 ->]|[[E1 ->]|(xs & ys & E1 & ->)]]; eauto 8.
Qed.

(** A validated body without due date and without tags is a payload the
    model accepts. *)
Lemma createTodoSchema_storable rt req req' raw :
  req_body req = Some (JsObject raw) ->
  validateBody createTodoSchema rt req = Next req' ->
  (storable (todoData_of (req_body req')) <->
   (get "dueDate" raw = None \/ get "dueDate" raw = Some JsNull) /\
   (get "tags" raw = None \/ get "tags" raw = Some JsNull)).
Proof.
  intros Hbody Hvalid.
  destruct (createTodoSchema_passed rt req req' raw Hbody Hvalid)
    as ((s & Hs & Ht & Hlen) & Hdesc & _ & _ & _ & Hdue & Htags).
  unfold storable. rewrite violations_none.
  assert (Htv : title_violations false (todoData_of (req_body req')) = []).
  { unfold title_violations. rewrite Ht.
    destruct Hlen as [H1 H2].
    now rewrite (proj2 (Z.leb_le _ _) H1), (proj2 (Z.leb_le _ _) H2). }
  split.
  - intros (_ & _ & Hd & Htg). split.
    + destruct Hdue as [[E _]|[[E _]|(x & t & _ & _ & E)]]; auto.
      rewrite E in Hd. destruct Hd; discriminate.
    + destruct Htags as [[E _]|[[E _]|(xs & ys & _ & E)]]; auto.
      rewrite E in Htg. destruct Htg; discriminate.
  - intros [Hd Htg]. split; [exact Htv|]. split; [exact Hdesc|]. split.
    + destruct Hdue as [[_ E]|[[_ E]|(x & t & E & Hx & _)]]; auto.
      destruct Hd as [Hd|Hd]; rewrite Hd in E; [discriminate|].
      injection E as <-. congruence.
    + destruct Htags as [[_ E]|[[_ E]|(xs & ys & E & _)]]; auto.
      destruct Htg as [Htg|Htg]; rewrite Htg in E; discriminate.
Qed.

(** What creation does for every valid payload that carries neither a due
    date nor tags: the request is answered 201 with the new row appended to
    the table; [completed] is false unless the payload sets it, [priority]
    is medium unless the payload sets it; the identifier is the one drawn
    by the system and differs from that of every stored row; [createdAt]
    and [updatedAt] are the two successive clock readings of the insert
    hook. *)
Theorem created_entity (rt : Runtime) (o : Oracle) (w : World)
    (req req' : Request) (raw : list (string * JsValue)) :
  req_body req = Some (JsObject raw) ->
  validateBody createTodoSchema rt req = Next req' ->
  (get "dueDate" raw = None \/ get "dueDate" raw = Some JsNull) ->
  (get "tags" raw = None \/ get "tags" raw = Some JsNull) ->
  existsb (has_id (uuid o (uuid_draws w))) (table w) = false ->
  exists todo w',
    POST_todos rt req o w =
      ({| status := 201; json := OneTodo "Todo created successfully" todo |}, w') /\
    table w' = (table w ++ [todo])%list /\
    (get "completed" raw = None -> completed todo = false) /\
    (forall b, get "completed" raw = Some (JsBool b) -> completed todo = b) /\
    (get "priority" raw = None -> priority todo = medium) /\
    (forall q, get "priority" raw = Some (JsString (priority_name q)) ->
               priority todo = q) /\
    id todo = uuid o (uuid_draws w) /\
    (forall r, In r (table w) -> id r <> id todo) /\
    createdAt todo = clock o (clock_reads w) /\
    updatedAt todo = clock o (S (clock_reads w)) /\
    (clock o (clock_reads w) <= clock o (S (clock_reads w)) ->
     createdAt todo <= updatedAt todo).
Proof.
  intros Hbody Hvalid Hdue Htags Hfresh.
  destruct (createTodoSchema_passed rt req req' raw Hbody Hvalid)
    as ((s & Hs & Ht & Hlen) & _ & _ & (b & Hb & Hb0 & Hb1) & (q & Hq & Hq0 & Hq1) & _).
  pose proof (proj2 (createTodoSchema_storable rt req req' raw Hbody Hvalid)
                (conj Hdue Htags)) as Hok.
  set (d := todoData_of (req_body req')) in *.
  exists (inserted_row d (trim s) o w),
         (after_insert w (table w ++ [inserted_row d (trim s) o w])%list).
  split.
  { unfold POST_todos, route. rewrite Hvalid.
    unfold createTodo_controller, asyncHandler, bind. fold d.
    now rewrite (createTodo_fresh d (trim s) o w Hok Ht Hfresh). }
  split; [reflexivity|].
  cbn [inserted_row completed priority id createdAt updatedAt].
  rewrite Hb, Hq. cbn [or_else].
  repeat split; auto.
  intros r Hin. apply has_id_differs.
  destruct (has_id (uuid o (uuid_draws w)) r) eqn:E; [|reflexivity].
  rewrite <- Hfresh. symmetry. apply existsb_exists. eauto.
Qed.

Lemma created_entity_sample :
  exists todo w',
    POST_todos sample_runtime create_milk ticking world_abc =
      ({| status := 201; json := OneTodo "Todo created successfully" todo |}, w') /\
    completed todo = false /\ priority todo = low /\
    id todo = sample_uuid 1 /\ id todo <> id row_abc.
Proof.
  destruct (created_entity sample_runtime ticking world_abc create_milk
              (with_body (JsObject [("title", JsString "Buy milk");
                                    ("priority", JsString "low");
                                    ("completed", JsBool false)]))
              [("title", JsString "Buy milk"); ("priority", JsString "low")]
              eq_refl eq_refl (or_introl eq_refl) (or_introl eq_refl) eq_refl)
    as (todo & w' & Hpost & _ & Hc & _ & _ & Hp & Hid & Hfresh & _).
  exists todo, w'. split; [exact Hpost|].
  split; [apply Hc; reflexivity|].
  split; [apply (Hp low); reflexivity|].
  split; [exact Hid|].
  intros E. apply (Hfresh row_abc); [now left | now symmetry].
Defined.

(** C6, at the failing input.  [POST /todos {title: "Buy milk", priority:
    "low"}] on the empty table is served while the clock advances by one
    millisecond between the two readings of the insert hook: the returned
    entity has [createdAt] 1000 and [updatedAt] 1001. *)
Theorem created_timestamps_differ :
  exists todo w',
    POST_todos sample_runtime create_milk ticking empty_world
      = ({| status := 201; json := OneTodo "Todo created successfully" todo |}, w') /\
    table w' = [todo] /\
    title todo = "Buy milk" /\
    createdAt todo = 1000 /\
    updatedAt todo = 1001 /\
    createdAt todo <> updatedAt todo.
Proof.
  eexists _, _.
  split; [vm_compute; reflexivity|].
  repeat split. discriminate.
Qed.

(** ** What the update schema hands on *)

Section UpdateKeys.
Variable rt : Runtime.
Variable prefs : Prefs.
Variable p : list string.
Variable v : option JsValue.
Hypothesis collect_all : abortEarly prefs = false.

(** An accepted title of an update is absent, or a string handed on
    trimmed, of 1 to 255 characters. *)
Lemma update_title_passed msgs :
  errors (Joi_string true (Some 1) (Some 255) false
            {| required := false; allow := []; only := false; default := None;
               messages := msgs |} rt prefs p v) = [] ->
  (v = None /\
   value (Joi_string true (Some 1) (Some 255) false
            {| required := false; allow := []; only := false; default := None;
               messages := msgs |} rt prefs p v) = None) \/
  (exists s,
     v = Some (JsString s) /\
     value (Joi_string true (Some 1) (Some 255) false
              {| required := false; allow := []; only := false; default := None;
                 messages := msgs |} rt prefs p v) = Some (JsString (trim s)) /\
     1 <= length_of (trim s) <= 255).
Proof.
  unfold Joi_string, string_coerce, string_base, any. cbn.
  destruct v as [x|]; cbn; [|now left].
  unfold limit_errors; cbn; rewrite collect_all.
  destruct x; cbn; try discriminate.
  destruct (trim s) as [|c s'] eqn:E; cbn; [discriminate|].
  intros H. apply errors_app_nil in H as [H1 H2].
  apply errors_app_nil in H2 as [H2 _].
  right. exists s. rewrite E. split; [reflexivity|]. split; [reflexivity|].
  match type of H1 with (if ?b then _ else _) = _ =>
    destruct b eqn:E1; [discriminate|] end.
  match type of H2 with (if ?b then _ else _) = _ =>
    destruct b eqn:E2; [discriminate|] end.
  apply Z.ltb_ge in E1, E2. unfold length_of. cbn [String.length]. lia.
Qed.
End UpdateKeys.

Lemma updateTodoSchema_keys_NoDup : NoDup (map fst updateTodoSchema_keys).
Proof.
  cbn. repeat constructor; cbn; intuition discriminate.
Qed.

(** The fields the update schema hands on for an object it accepts: a
    title and a description the model accepts; a due date that is absent,
    null or a date; tags that are absent, null or an array. *)
Lemma updateTodoSchema_keys_passed rt prefs p input :
  abortEarly prefs = false ->
  fst (validate_keys updateTodoSchema_keys rt prefs p input) = [] ->
  let d := todoData_of
             (Some (JsObject (snd (validate_keys updateTodoSchema_keys rt prefs p input)))) in
  title_violations true d = [] /\
  description_violations d = [] /\
  ((get "dueDate" input = None /\ data_dueDate d = None) \/
   (get "dueDate" input = Some JsNull /\ data_dueDate d = Some None) \/
   (exists x t, get "dueDate" input = Some x /\ x <> JsNull /\
                data_dueDate d = Some (Some t))) /\
  ((get "tags" input = None /\ data_tags d = None) \/
   (get "tags" input = Some JsNull /\ data_tags d = Some None) \/
   (exists xs ys, get "tags" input = Some (JsArray xs) /\
                  data_tags d = Some (Some (TagsArray ys)))).
Proof.
  intros Ha Hkeys d.
  set (vs := snd (validate_keys updateTodoSchema_keys rt prefs p input)) in *.
  assert (Hget : forall k, get k vs =
            match schema_for k updateTodoSchema_keys with
            | Some s => value (s rt prefs (p ++ [k])%list (get k input))
            | None => None
            end).
  { intros k. unfold vs. now rewrite get_validate_keys by apply updateTodoSchema_keys_NoDup. }
  assert (Hpass : forall k s, In (k, s) updateTodoSchema_keys ->
            errors (s rt prefs (p ++ [k])%list (get k input)) = []).
  { intros k s Hin. now apply (validate_keys_passed rt prefs p _ input k s Hin). }
  subst d.
  split; [|split; [|split]].
  - unfold title_violations, todoData_of; cbn [data_title props_of]. rewrite Hget.
    unfold updateTodoSchema_keys; cbn [schema_for String.eqb Ascii.eqb Bool.eqb].
    match goal with |- context [value (?s rt prefs ?q ?x)] =>
      pose proof (Hpass "title" s ltac:(cbn; tauto)) as H end.
    apply update_title_passed in H; [|exact Ha].
    destruct H as [[_ ->]|(s & _ & -> & H1 & H2)]; [reflexivity|].
    now rewrite (proj2 (Z.leb_le _ _) H1), (proj2 (Z.leb_le _ _) H2).
  - unfold description_violations, todoData_of; cbn [data_description props_of].
    rewrite Hget.
    unfold updateTodoSchema_keys; cbn [schema_for String.eqb Ascii.eqb Bool.eqb].
    pose proof (Hpass "description" description_schema ltac:(cbn; tauto)) as H.
    apply description_passed in H; [|exact Ha].
    destruct H as [[_ ->]|[[_ ->]|(s' & _ & -> & Hl)]]; try reflexivity.
    now rewrite (proj2 (Z.leb_le _ _) Hl).
  - unfold todoData_of; cbn [data_dueDate props_of]. rewrite Hget.
    unfold updateTodoSchema_keys; cbn [schema_for String.eqb Ascii.eqb Bool.eqb].
    match goal with |- context [value (?s rt prefs ?q ?x)] =>
      pose proof (Hpass "dueDate" s ltac:(cbn; tauto)) as H end.
    apply dueDate_passed in H; [|exact Ha|reflexivity..].
    destruct H as [[E1 ->]|[[E1 ->]|(x & t & E1 & Hx & ->)]]; eauto 8.
  - unfold todoData_of; cbn [data_tags props_of]. rewrite Hget.
    unfold updateTodoSchema_keys; cbn [schema_for String.eqb Ascii.eqb Bool.eqb].
    pose proof (Hpass "tags" tags_schema ltac:(cbn; tauto)) as H.
    apply tags_passed in H; [|exact Ha].
    destruct H as [[E1 ->]|[[E1 ->]|(xs & ys & E1 & ->)]]; eauto 8.
Qed.

(** An accepted update is a patch the model accepts exactly when it carries
    neither a due date nor an array of tags. *)
Lemma updateTodoSchema_keys_patchable rt prefs p input :
  abortEarly prefs = false ->
  fst (validate_keys updateTodoSchema_keys rt prefs p input) = [] ->
  (patchable (todoData_of
                (Some (JsObject (snd (validate_keys updateTodoSchema_keys rt prefs p input)))))
   <->
   (get "dueDate" input = None \/ get "dueDate" input = Some JsNull) /\
   (get "tags" input = None \/ get "tags" input = Some JsNull)).
Proof.
  intros Ha Hkeys.
  destruct (updateTodoSchema_keys_passed rt prefs p input Ha Hkeys)
    as (Htv & Hdesc & Hdue & Htags).
  unfold patchable. rewrite violations_none.
  split.
  - intros (_ & _ & Hd & Htg). split.
    + destruct Hdue as [[E _]|[[E _]|(x & t & _ & _ & E)]]; auto.
      rewrite E in Hd. destruct Hd; discriminate.
    + destruct Htags as [[E _]|[[E _]|(xs & ys & _ & E)]]; auto.
      rewrite E in Htg. destruct Htg; discriminate.
  - intros [Hd Htg]. split; [exact Htv|]. split; [exact Hdesc|]. split.
    + destruct Hdue as [[_ E]|[[_ E]|(x & t & E & Hx & _)]]; auto.
      destruct Hd as [Hd|Hd]; rewrite Hd in E; [discriminate|].
      injection E as <-. congruence.
    + destruct Htags as [[_ E]|[[_ E]|(xs & ys & E & _)]]; auto.
      destruct Htg as [Htg|Htg]; rewrite Htg in E; discriminate.
Qed.

(** ** The error handler *)

Lemma handleError_duplicate :
  handleError ER_DUP_ENTRY = ApiError 400 "Duplicate field value entered".
Proof. reflexivity. Qed.

Lemma errorHandler_ApiError s msg :
  s <> 0 ->
  errorHandler (ApiError s msg) =
    {| status := s; json := Failure (getErrorCode s) msg [] |}.
Proof.
  intros Hs. unfold errorHandler, handleError, code_is, errno_is. cbn.
  destruct s; [contradiction| |]; reflexivity.
Qed.

(** C9, at the failing input.  [POST /todos {title: "Buy milk",
    priority: "low"}] is served while the generator draws the identifier of
    the stored row.  The insert raises the store's duplicate-key error
    (errno 1062); the service replaces it by its own 500 error, and the
    caller is answered 500 INTERNAL_SERVER_ERROR.  Had the store's error
    reached the error handler, the answer would have been the 400 form. *)
Theorem duplicate_key_answered_500 :
  insert (todoData_of (Some (JsObject [("title", JsString "Buy milk");
                                       ("priority", JsString "low");
                                       ("completed", JsBool false)])))
         repeating world_abc
    = (inl ER_DUP_ENTRY, after_insert world_abc [row_abc]) /\
  POST_todos sample_runtime create_milk repeating world_abc
    = ({| status := 500;
          json := Failure "INTERNAL_SERVER_ERROR" "Failed to create todo" [] |},
       after_insert world_abc [row_abc]) /\
  errorHandler ER_DUP_ENTRY
    = {| status := 400;
         json := Failure "BAD_REQUEST" "Duplicate field value entered" [] |}.
Proof.
  split; [vm_compute; reflexivity|].
  split; [vm_compute; reflexivity|].
  reflexivity.
Qed.


(** ** Toggle *)

Lemma has_id_apply_patch i p r : has_id i (apply_patch p r) = has_id i r.
Proof. reflexivity. Qed.

Lemma find_update_where i p rows :
  find (has_id i) (update_where (has_id i) p rows)
  = option_map (apply_patch p) (find (has_id i) rows).
Proof.
  induction rows as [|r rows IH]; simpl; [reflexivity|].
  destruct (has_id i r) eqn:E.
  - now rewrite has_id_apply_patch, E.
  - now rewrite E.
Qed.

Lemma update_where_length sel p rows :
  List.length (update_where sel p rows) = List.length rows.
Proof. apply length_map. Qed.

Lemma update_where_untouched sel p rows r :
  In r rows -> sel r = false -> In r (update_where sel p rows).
Proof.
  intros Hin Hs. unfold update_where. apply in_map_iff.
  exists r. now rewrite Hs.
Qed.

Lemma toggle_found i o w r :
  find (has_id i) (table w) = Some r ->
  let p := toggle_patch r (clock o (clock_reads w)) in
  toggleTodoStatus i o w =
    (inr (apply_patch p r), after_update w (update_where (has_id i) p (table w))).
Proof.
  intros H p.
  unfold toggleTodoStatus. run_store.
  rewrite H; simpl.
  unfold patchAndFetchById. run_store.
  fold (toggle_patch r (clock o (clock_reads w))).
  rewrite find_update_where, H. reflexivity.
Qed.

Lemma toggle_missing i o w :
  find (has_id i) (table w) = None ->
  toggleTodoStatus i o w = (inl (ApiError 404 "Todo not found"), w).
Proof.
  intros H.
  unfold toggleTodoStatus. run_store.
  rewrite H; simpl. reflexivity.
Qed.

(** C7, as the code has it.  For a stored entity two toggles succeed and
    bring [completed] back to its original value; each toggle sets
    [updatedAt] to the clock reading taken by that toggle, so [updatedAt]
    does not decrease when the clock does not go back and strictly
    increases when the clock has advanced; no other row changes.  For an id
    with no row the toggle fails with the 404 error and the table and the
    rest of the world are unchanged. *)
Theorem toggle_twice (o : Oracle) (w : World) (i : string) :
  (forall r,
     find (has_id i) (table w) = Some r ->
     exists t1 w1 t2 w2,
       toggleTodoStatus i o w = (inr t1, w1) /\
       toggleTodoStatus i o w1 = (inr t2, w2) /\
       completed t1 = negb (completed r) /\
       completed t2 = completed r /\
       updatedAt t1 = clock o (clock_reads w) /\
       updatedAt t2 = clock o (S (clock_reads w)) /\
       (updatedAt r <= clock o (clock_reads w) <= clock o (S (clock_reads w)) ->
        updatedAt r <= updatedAt t1 <= updatedAt t2) /\
       (updatedAt r < clock o (clock_reads w) < clock o (S (clock_reads w)) ->
        updatedAt r < updatedAt t1 < updatedAt t2) /\
       (forall r', In r' (table w) -> has_id i r' = false ->
                   In r' (table w1) /\ In r' (table w2))) /\
  (find (has_id i) (table w) = None ->
   toggleTodoStatus i o w = (inl (ApiError 404 "Todo not found"), w)).
Proof.
  split; [|apply toggle_missing].
  intros r H.
  pose proof (toggle_found i o w r H) as H1. cbv zeta in H1.
  set (p1 := toggle_patch r (clock o (clock_reads w))) in H1.
  set (w1 := after_update w (update_where (has_id i) p1 (table w))) in H1.
  assert (Hf : find (has_id i) (table w1) = Some (apply_patch p1 r)).
  { unfold w1; simpl. now rewrite find_update_where, H. }
  pose proof (toggle_found i o w1 _ Hf) as H2. cbv zeta in H2.
  eexists. exists w1. eexists. eexists.
  split; [exact H1|]. split; [exact H2|].
  simpl. rewrite negb_involutive.
  repeat split; try lia.
  - now apply update_where_untouched.
  - apply update_where_untouched; [now apply update_where_untouched | assumption].
Qed.

(** C7, the claim as stated, at a concrete input.  The stored row carries
    [updatedAt] 1000 and is toggled twice while the clock reads 1000: both
    toggles succeed and [completed] returns to its original value, but
    [updatedAt] stays at 1000 and so does not strictly increase. *)
Lemma toggle_within_one_tick :
  exists t1 w1 t2 w2,
    find (has_id (sample_uuid 0)) (table world_frozen) = Some row_frozen /\
    toggleTodoStatus (sample_uuid 0) frozen world_frozen = (inr t1, w1) /\
    toggleTodoStatus (sample_uuid 0) frozen w1 = (inr t2, w2) /\
    completed t2 = completed row_frozen /\
    ~ (updatedAt row_frozen < updatedAt t1 /\ updatedAt t1 < updatedAt t2).
Proof.
  do 4 eexists.
  split; [vm_compute; reflexivity|].
  split; [vm_compute; reflexivity|].
  split; [vm_compute; reflexivity|].
  split; [reflexivity|].
  simpl. lia.
Qed.

Lemma toggle_twice_witness :
  find (has_id (sample_uuid 0)) (table world_abc) = Some row_abc /\
  exists t1 w1 t2 w2,
    toggleTodoStatus (sample_uuid 0) ticking world_abc = (inr t1, w1) /\
    toggleTodoStatus (sample_uuid 0) ticking w1 = (inr t2, w2) /\
    completed t2 = completed row_abc /\
    updatedAt row_abc < updatedAt t1 < updatedAt t2.
Proof.
  assert (Hfind : find (has_id (sample_uuid 0)) (table world_abc) = Some row_abc)
    by (vm_compute; reflexivity).
  split; [exact Hfind|].
  destruct (toggle_twice ticking world_abc (sample_uuid 0)) as [Hfound _].
  destruct (Hfound row_abc Hfind)
    as (t1 & w1 & t2 & w2 & H1 & H2 & _ & Hc & _ & _ & _ & Hlt & _).
  exists t1, w1, t2, w2.
  split; [exact H1|]. split; [exact H2|]. split; [exact Hc|].
  apply Hlt. vm_compute. split; reflexivity.
Defined.

(** ** Bulk operations *)

Lemma sql_in_text k x ids :
  sql_in k (SqlText x) (map SqlText ids) = Some (existsb (text_eqb k x) ids).
Proof.
  induction ids as [|i ids IH]; [reflexivity|].
  simpl. rewrite IH. now destruct (text_eqb k x i), (existsb (text_eqb k x) ids).
Qed.

Lemma has_id_text i r : has_id i r = text_eqb case_insensitive (id r) i.
Proof. unfold has_id, holds; simpl. now destruct (text_eqb _ _ _). Qed.

Lemma id_in_text ids r :
  id_in ids r = existsb (text_eqb case_insensitive (id r)) ids.
Proof.
  unfold id_in. induction ids as [|i ids IH]; [reflexivity|].
  simpl. now rewrite IH, has_id_text.
Qed.

(** [whereIn('id', ids)] selects the rows whose id is one of [ids]. *)
Lemma selected_whereIn_id ids r :
  selected (whereIn col_id (map SqlText ids) Todo_query) r = id_in ids r.
Proof.
  unfold whereIn. rewrite selected_where. simpl.
  unfold holds; simpl. rewrite sql_in_text, id_in_text.
  now destruct (existsb _ ids).
Qed.

Lemma update_where_ext f g p rows :
  (forall r, f r = g r) -> update_where f p rows = update_where g p rows.
Proof. intros H. apply map_ext. intros r. now rewrite H. Qed.

Lemma affected_ext f g rows :
  (forall r, f r = g r) -> affected f rows = affected g rows.
Proof. intros H. unfold affected. now rewrite (filter_ext f g H). Qed.

Lemma affected_bounds sel rows :
  0 <= affected sel rows <= list_length rows.
Proof.
  unfold affected, list_length.
  pose proof (filter_length_le sel rows). lia.
Qed.

Lemma affected_skip_missing i ids rows :
  (forall r, In r rows -> has_id i r = false) ->
  affected (id_in (i :: ids)) rows = affected (id_in ids) rows.
Proof.
  intros H. unfold affected. f_equal. f_equal.
  apply filter_ext_in. intros r Hin. unfold id_in. simpl. now rewrite (H r Hin).
Qed.

(** The bulk update of a patch the model accepts succeeds: it patches the
    rows whose id is in the list and returns how many they are. *)
Lemma bulkUpdateTodos_run ids updateData o w :
  patchable updateData ->
  bulkUpdateTodos ids updateData o w =
    (inr (affected (id_in ids) (table w)),
     after_update w (update_where (id_in ids) (bulk_patch updateData o w) (table w))).
Proof.
  intros Hok.
  unfold bulkUpdateTodos, patch_where, try_catch.
  rewrite fromJson_then by exact Hok. run_store.
  rewrite (affected_ext _ (id_in ids)) by apply selected_whereIn_id.
  rewrite (update_where_ext _ (id_in ids)) by apply selected_whereIn_id.
  reflexivity.
Qed.

(** The bulk update of a patch the model refuses fails with the 500 error
    of the service, and nothing is written. *)
Lemma bulkUpdateTodos_refused ids updateData o w :
  ~ patchable updateData ->
  bulkUpdateTodos ids updateData o w =
    (inl (ApiError 500 "Failed to bulk update todos"), w).
Proof.
  intros Hbad.
  unfold bulkUpdateTodos, patch_where, try_catch.
  now rewrite fromJson_stop by exact Hbad.
Qed.

(** The bulk delete succeeds: it removes the rows whose id is in the
    list and returns how many they were. *)
Lemma bulkDeleteTodos_run ids o w :
  bulkDeleteTodos ids o w =
    (inr (affected (id_in ids) (table w)),
     with_table w (filter (fun r => negb (id_in ids r)) (table w))).
Proof.
  unfold bulkDeleteTodos, delete_where. run_store.
  rewrite (affected_ext _ (id_in ids)) by apply selected_whereIn_id.
  rewrite (filter_ext _ (fun r => negb (id_in ids r)))
    by (intros r; now rewrite selected_whereIn_id).
  reflexivity.
Qed.

Lemma strings_of_strings ids : strings_of (map JsString ids) = ids.
Proof. induction ids as [|i ids IH]; simpl; congruence. Qed.

Lemma uuid_item_passed rt prefs p x :
  abortEarly prefs = false ->
  errors (uuidSchema optional rt prefs p (Some x)) = [] ->
  exists s, x = JsString s /\ isGuid rt s = true /\
            value (uuidSchema optional rt prefs p (Some x)) = Some x.
Proof.
  intros Ha. unfold uuidSchema, Joi_string, string_coerce, string_base, any. cbn.
  unfold limit_errors; cbn; rewrite Ha.
  destruct x; cbn; try discriminate.
  destruct s as [|c s]; cbn; [discriminate|].
  destruct (isGuid rt (String c s)) eqn:E; cbn; [|discriminate].
  intros _. eauto.
Qed.

Lemma uuid_items_passed rt prefs p xs : forall i,
  abortEarly prefs = false ->
  fst (validate_items (uuidSchema optional) rt prefs p i xs) = [] ->
  snd (validate_items (uuidSchema optional) rt prefs p i xs) = xs /\
  map JsString (strings_of xs) = xs.
Proof.
  induction xs as [|x xs IH]; intros i Ha He; [split; reflexivity|].
  rewrite validate_items_cons in He |- *. cbn [fst snd] in He |- *.
  apply app_eq_nil in He. destruct He as [Hx Hxs].
  destruct (uuid_item_passed rt prefs _ x Ha Hx) as (s & -> & _ & Hv).
  rewrite Hv. cbn [or_else strings_of map].
  destruct (IH (S i) Ha Hxs) as [-> ->]. split; reflexivity.
Qed.

(** An [ids] value that passes is an array of 1 to 50 strings, kept as is. *)
Lemma ids_schema_passed msg rt prefs p v :
  abortEarly prefs = false ->
  errors (ids_schema msg rt prefs p v) = [] ->
  exists ids,
    v = Some (JsArray (map JsString ids)) /\
    value (ids_schema msg rt prefs p v) = v /\
    (1 <= List.length ids <= 50)%nat.
Proof.
  intros Ha. unfold ids_schema, Joi_array, array_base, no_coerce, any.
  destruct v as [x|]; cbn; [|discriminate].
  unfold limit_errors; cbn; rewrite Ha.
  destruct x; cbn; try discriminate.
  match goal with |- context [validate_items ?it ?r ?pr ?pp 0%nat xs] =>
    pose proof (uuid_items_passed r pr pp xs 0%nat) as Hit;
    destruct (validate_items it r pr pp 0%nat xs) as [es vs] eqn:E
  end.
  cbn [fst snd] in Hit.
  destruct es as [|e es]; cbn; [|discriminate].
  destruct (Hit Ha eq_refl) as [-> Hs].
  unfold list_length.
  destruct (Z.of_nat (List.length xs) <? 1) eqn:E1; cbn; [discriminate|].
  destruct (50 <? Z.of_nat (List.length xs)) eqn:E2; cbn; [discriminate|].
  intros _. exists (strings_of xs). rewrite Hs.
  pose proof (f_equal (@List.length _) Hs) as Hlen. rewrite length_map in Hlen.
  apply Z.ltb_ge in E1. apply Z.ltb_ge in E2.
  repeat split; lia.
Qed.

Lemma bulkUpdateSchema_passed rt req req' raw :
  req_body req = Some (JsObject raw) ->
  validateBody bulkUpdateSchema rt req = Next req' ->
  exists ids fields,
    get "ids" raw = Some (JsArray (map JsString ids)) /\
    (1 <= List.length ids <= 50)%nat /\
    ids_of (req_body req') = ids /\
    get "updateData" (props_of (req_body req')) = Some (JsObject fields) /\
    (1 <= List.length fields)%nat /\
    (exists u, get "updateData" raw = Some u /\
               errors (updateTodoSchema rt validate_options [] (Some u)) = []) /\
    (forall input, get "updateData" raw = Some (JsObject input) ->
       fields = snd (validate_keys updateTodoSchema_keys rt
                       (with_messages
                          {| required := true; allow := []; only := false;
                             default := None;
                             messages := ("any.required", "Update data is required")
                                         :: update_messages |}
                          (with_messages optional validate_options))
                       ["updateData"] input)).
Proof.
  intros Hbody Hvalid.
  apply validate_passed in Hvalid. destruct Hvalid as [Herr Hreq].
  cbn [get_property] in Herr, Hreq. rewrite Hbody in Herr, Hreq.
  unfold bulkUpdateSchema in Herr, Hreq.
  apply Joi_object_passed in Herr; [|reflexivity|reflexivity]. cbv zeta in Herr.
  destruct Herr as (Hkeys & Hval & _).
  rewrite Hval in Hreq. clear Hval. subst req'. cbn [set_property req_body].
  set (prefs := with_messages optional validate_options) in *.
  rewrite !validate_keys_cons in Hkeys |- *. cbn [fst snd validate_keys] in Hkeys |- *.
  rewrite app_nil_r in Hkeys.
  apply app_eq_nil in Hkeys. destruct Hkeys as [Hids Hupd].
  apply ids_schema_passed in Hids; [|reflexivity].
  destruct Hids as (ids & Hraw & Hv & Hlen).
  pose proof Hupd as Hcontract.
  apply Joi_object_required_passed in Hupd; [|reflexivity|reflexivity].
  destruct Hupd as (input & Hin & _ & Hv2 & Hmin).
  cbn [app] in Hv, Hv2, Hin, Hcontract |- *. rewrite Hin in Hcontract.
  apply bulk_updateData_contract in Hcontract.
  rewrite Hv, Hv2, Hraw.
  exists ids. eexists.
  split; [reflexivity|]. split; [exact Hlen|].
  split; [unfold ids_of; cbn; apply strings_of_strings|].
  split; [cbn; reflexivity|].
  split.
  { cbn in Hmin. apply Z.ltb_ge in Hmin. unfold list_length in Hmin. lia. }
  split.
  { exists (JsObject input). split; [exact Hin | exact Hcontract]. }
  intros input' E. rewrite Hin in E. now injection E as <-.
Qed.

(** A bulk update that passes validation carries an [updateData] object,
    and what is handed to the service is a patch the model accepts exactly
    when that object has neither a due date nor an array of tags. *)
Lemma bulkUpdateSchema_patchable rt req req' raw :
  req_body req = Some (JsObject raw) ->
  validateBody bulkUpdateSchema rt req = Next req' ->
  exists input,
    get "updateData" raw = Some (JsObject input) /\
    (patchable (todoData_of (get "updateData" (props_of (req_body req')))) <->
     (get "dueDate" input = None \/ get "dueDate" input = Some JsNull) /\
     (get "tags" input = None \/ get "tags" input = Some JsNull)).
Proof.
  intros Hbody Hvalid.
  apply validate_passed in Hvalid. destruct Hvalid as [Herr Hreq].
  cbn [get_property] in Herr, Hreq. rewrite Hbody in Herr, Hreq.
  unfold bulkUpdateSchema in Herr, Hreq.
  apply Joi_object_passed in Herr; [|reflexivity|reflexivity]. cbv zeta in Herr.
  destruct Herr as (Hkeys & Hval & _).
  rewrite Hval in Hreq. clear Hval. subst req'. cbn [set_property req_body].
  set (prefs := with_messages optional validate_options) in *.
  rewrite !validate_keys_cons in Hkeys |- *. cbn [fst snd validate_keys] in Hkeys |- *.
  rewrite app_nil_r in Hkeys.
  apply app_eq_nil in Hkeys. destruct Hkeys as [Hids Hupd].
  apply ids_schema_passed in Hids; [|reflexivity].
  destruct Hids as (ids & Hraw & Hv & Hlen).
  apply Joi_object_required_passed in Hupd; [|reflexivity|reflexivity].
  destruct Hupd as (input & Hin & Hk & Hv2 & Hmin).
  cbn [app] in Hv, Hv2, Hin, Hk |- *.
  rewrite Hv, Hv2, Hraw.
  exists input. split; [exact Hin|].
  cbn [props_of get String.eqb Ascii.eqb Bool.eqb or_else].
  apply updateTodoSchema_keys_patchable; [reflexivity|exact Hk].
Qed.

Lemma bulkDeleteSchema_passed rt req req' raw :
  req_body req = Some (JsObject raw) ->
  validateBody bulkDeleteSchema rt req = Next req' ->
  exists ids,
    get "ids" raw = Some (JsArray (map JsString ids)) /\
    (1 <= List.length ids <= 50)%nat /\
    ids_of (req_body req') = ids.
Proof.
  intros Hbody Hvalid.
  apply validate_passed in Hvalid. destruct Hvalid as [Herr Hreq].
  cbn [get_property] in Herr, Hreq. rewrite Hbody in Herr, Hreq.
  unfold bulkDeleteSchema in Herr, Hreq.
  apply Joi_object_passed in Herr; [|reflexivity|reflexivity]. cbv zeta in Herr.
  destruct Herr as (Hkeys & Hval & _).
  rewrite Hval in Hreq. clear Hval. subst req'. cbn [set_property req_body].
  set (prefs := with_messages optional validate_options) in *.
  rewrite !validate_keys_cons in Hkeys |- *. cbn [fst snd validate_keys] in Hkeys |- *.
  rewrite app_nil_r in Hkeys.
  apply ids_schema_passed in Hkeys; [|reflexivity].
  destruct Hkeys as (ids & Hraw & Hv & Hlen).
  cbn [app] in Hv |- *. rewrite Hv, Hraw.
  exists ids.
  split; [reflexivity|]. split; [exact Hlen|].
  unfold ids_of; cbn; apply strings_of_strings.
Qed.

(** C8.  A bulk update is validated first: a request that passes names
    between 1 and 50 ids and an update payload that the single-entity update
    schema accepts, with at least one field; any other request (among them
    an [ids] array that is empty or longer than 50, or an empty
    [updateData]) is answered 400 and changes nothing.  A valid request
    whose payload carries neither a due date nor an array of tags is
    answered 200: the one patch is applied to every row whose id is in the
    list and to no other row, and the count returned is the number of rows
    patched, so that an id with no row adds nothing to it.  A valid request
    whose payload carries a due date or an array of tags is answered 500
    and no row changes: the model checks the patch against its own schema,
    where both are strings, and receives a date object and the tags as the
    service has serialized them.  A bulk delete of 1 to 50 ids removes the
    rows whose id is in the list and returns how many were removed.  A
    partial match is answered 200 like any other. *)
Theorem bulk_operations (rt : Runtime) (o : Oracle) (w : World) (req : Request)
    (raw : list (string * JsValue)) :
  req_body req = Some (JsObject raw) ->
  (forall req',
     validateBody bulkUpdateSchema rt req = Next req' ->
     exists ids input fields,
       get "ids" raw = Some (JsArray (map JsString ids)) /\
       (1 <= List.length ids <= 50)%nat /\
       get "updateData" raw = Some (JsObject input) /\
       errors (updateTodoSchema rt validate_options [] (Some (JsObject input))) = [] /\
       get "updateData" (props_of (req_body req')) = Some (JsObject fields) /\
       (1 <= List.length fields)%nat /\
       ((get "dueDate" input = None \/ get "dueDate" input = Some JsNull) ->
        (get "tags" input = None \/ get "tags" input = Some JsNull) ->
        PATCH_todos_bulk rt req o w =
          ({| status := 200;
              json := BulkUpdated (affected (id_in ids) (table w)) (list_length ids) |},
           after_update w
             (update_where (id_in ids)
                (bulk_patch (todoData_of (Some (JsObject fields))) o w) (table w)))) /\
       ((exists x, get "dueDate" input = Some x /\ x <> JsNull) \/
        (exists xs, get "tags" input = Some (JsArray xs)) ->
        PATCH_todos_bulk rt req o w =
          ({| status := 500;
              json := Failure "INTERNAL_SERVER_ERROR" "Failed to bulk update todos" [] |},
           w))) /\
  (forall res,
     validateBody bulkUpdateSchema rt req = Respond res ->
     status res = 400 /\ PATCH_todos_bulk rt req o w = (res, w)) /\
  (forall xs,
     get "ids" raw = Some (JsArray xs) ->
     (List.length xs < 1 \/ 50 < List.length xs)%nat ->
     exists res, validateBody bulkUpdateSchema rt req = Respond res) /\
  (get "updateData" raw = Some (JsObject []) ->
     exists res, validateBody bulkUpdateSchema rt req = Respond res) /\
  (forall req',
     validateBody bulkDeleteSchema rt req = Next req' ->
     exists ids,
       get "ids" raw = Some (JsArray (map JsString ids)) /\
       (1 <= List.length ids <= 50)%nat /\
       DELETE_todos_bulk rt req o w =
         ({| status := 200;
             json := BulkDeleted (affected (id_in ids) (table w)) (list_length ids) |},
          with_table w (filter (fun r => negb (id_in ids r)) (table w)))) /\
  (forall res,
     validateBody bulkDeleteSchema rt req = Respond res ->
     status res = 400 /\ DELETE_todos_bulk rt req o w = (res, w)) /\
  (forall xs,
     get "ids" raw = Some (JsArray xs) ->
     (List.length xs < 1 \/ 50 < List.length xs)%nat ->
     exists res, validateBody bulkDeleteSchema rt req = Respond res) /\
  (forall ids,
     affected (id_in ids) (table w)
       = Z.of_nat (List.length (filter (id_in ids) (table w))) /\
     affected (id_in ids) (table w)
       = list_length (table w)
         - list_length (filter (fun r => negb (id_in ids r)) (table w)) /\
     0 <= affected (id_in ids) (table w) <= list_length (table w) /\
     (forall i, (forall r, In r (table w) -> has_id i r = false) ->
        affected (id_in (i :: ids)) (table w) = affected (id_in ids) (table w)) /\
     (forall p r, In r (table w) -> id_in ids r = false ->
        In r (update_where (id_in ids) p (table w))) /\
     (forall p r, In r (table w) -> id_in ids r = true ->
        In (apply_patch p r) (update_where (id_in ids) p (table w)))).
Proof.
  intros Hbody.
  split.
  { intros req' Hnext.
    destruct (bulkUpdateSchema_passed rt req req' raw Hbody Hnext)
      as (ids & fields & Hraw & Hlen & Hids & Hupd & Hmin & Hcontract & _).
    destruct (bulkUpdateSchema_patchable rt req req' raw Hbody Hnext)
      as (input & Hin & Hiff).
    destruct Hcontract as (u & Hu & Hcontract).
    rewrite Hin in Hu. injection Hu as <-.
    rewrite Hupd in Hiff.
    exists ids, input, fields. repeat (split; [assumption|]).
    split.
    - intros Hd Ht.
      unfold PATCH_todos_bulk. rewrite (route_next _ _ _ _ _ _ Hnext).
      unfold bulkUpdateTodos_controller, asyncHandler, bind.
      rewrite Hids, Hupd, bulkUpdateTodos_run by (apply Hiff; now split).
      reflexivity.
    - intros Hbad.
      unfold PATCH_todos_bulk. rewrite (route_next _ _ _ _ _ _ Hnext).
      unfold bulkUpdateTodos_controller, asyncHandler, bind.
      rewrite Hids, Hupd, bulkUpdateTodos_refused; [reflexivity|].
      intros Hok. apply Hiff in Hok. destruct Hok as [Hd Ht].
      destruct Hbad as [(x & Hx & Hnn)|(xs & Hxs)].
      + rewrite Hx in Hd. destruct Hd as [Hd|Hd]; [discriminate|].
        injection Hd as ->. now apply Hnn.
      + rewrite Hxs in Ht. destruct Ht; discriminate. }
  split.
  { intros res Hres. split; [now apply validate_respond in Hres|].
    unfold PATCH_todos_bulk. now apply route_respond. }
  split.
  { intros xs Hxs Hout.
    destruct (validateBody bulkUpdateSchema rt req) as [res|req'] eqn:E; [eauto|].
    destruct (bulkUpdateSchema_passed rt req req' raw Hbody E)
      as (ids & fields & Hraw & Hlen & _).
    rewrite Hraw in Hxs. injection Hxs as <-. rewrite length_map in Hout. lia. }
  split.
  { intros Hempty.
    destruct (validateBody bulkUpdateSchema rt req) as [res|req'] eqn:E; [eauto|].
    destruct (bulkUpdateSchema_passed rt req req' raw Hbody E)
      as (ids & fields & _ & _ & _ & _ & Hmin & _ & Hfields).
    rewrite (Hfields [] Hempty) in Hmin. cbn in Hmin. lia. }
  split.
  { intros req' Hnext.
    destruct (bulkDeleteSchema_passed rt req req' raw Hbody Hnext)
      as (ids & Hraw & Hlen & Hids).
    exists ids. repeat (split; [assumption|]).
    unfold DELETE_todos_bulk. rewrite (route_next _ _ _ _ _ _ Hnext).
    unfold bulkDeleteTodos_controller, asyncHandler, bind.
    rewrite Hids, bulkDeleteTodos_run. reflexivity. }
  split.
  { intros res Hres. split; [now apply validate_respond in Hres|].
    unfold DELETE_todos_bulk. now apply route_respond. }
  split.
  { intros xs Hxs Hout.
    destruct (validateBody bulkDeleteSchema rt req) as [res|req'] eqn:E; [eauto|].
    destruct (bulkDeleteSchema_passed rt req req' raw Hbody E)
      as (ids & Hraw & Hlen & _).
    rewrite Hraw in Hxs. injection Hxs as <-. rewrite length_map in Hout. lia. }
  intros ids. split; [reflexivity|]. split.
  { unfold affected, list_length.
    pose proof (filter_partition_length (id_in ids) (table w)). lia. }
  split; [apply affected_bounds|].
  split; [intros i; apply affected_skip_missing|].
  split; [intros p r; apply update_where_untouched|].
  intros p r Hin Hsel. unfold update_where. apply in_map_iff.
  exists r. now rewrite Hsel.
Qed.

Lemma bulk_operations_witness :
  req_body bulk_tags_request
    = Some (JsObject [("ids", JsArray [JsString (sample_uuid 0)]);
                      ("updateData",
                       JsObject [("priority", JsString "high");
                                 ("tags", JsArray [JsString "urgent";
                                                   JsString "review"])])]) /\
  PATCH_todos_bulk sample_runtime bulk_tags_request ticking world_abc
    = ({| status := 500;
          json := Failure "INTERNAL_SERVER_ERROR" "Failed to bulk update todos" [] |},
       world_abc) /\
  exists w',
    PATCH_todos_bulk sample_runtime bulk_update_request ticking world_abc
      = ({| status := 200; json := BulkUpdated 1 2 |}, w') /\
    map completed (table w') = [true] /\
    DELETE_todos_bulk sample_runtime bulk_update_request ticking world_abc
      = ({| status := 200; json := BulkDeleted 1 2 |},
         with_table world_abc []).
Proof.
  split; [reflexivity|].
  split.
  { destruct (bulk_operations sample_runtime ticking world_abc bulk_tags_request
                _ eq_refl) as (Hupd & _).
    destruct (Hupd (with_body (JsObject
                [("ids", JsArray [JsString (sample_uuid 0)]);
                 ("updateData",
                  JsObject [("priority", JsString "high");
                            ("tags", JsArray [JsString "urgent";
                                              JsString "review"])])])))
      as (ids & input & fields & _ & _ & Hin & _ & _ & _ & _ & Hrefused);
      [vm_compute; reflexivity|].
    injection Hin as <-.
    apply Hrefused. right. exists [JsString "urgent"; JsString "review"].
    reflexivity. }
  destruct (bulk_operations sample_runtime ticking world_abc bulk_update_request
              _ eq_refl) as (Hupd & _ & _ & _ & Hdel & _).
  destruct (Hupd (with_body (JsObject
              [("ids", JsArray [JsString (sample_uuid 0); JsString (sample_uuid 7)]);
               ("updateData", JsObject [("completed", JsBool true)])])))
    as (ids & input & fields & Hids & _ & Hin & _ & Hfields & _ & Hpatch & _);
    [vm_compute; reflexivity|].
  injection Hids as Hids. injection Hfields as Hfields. injection Hin as <-.
  assert (Eids : ids = [sample_uuid 0; sample_uuid 7]).
  { destruct ids as [|a [|b [|c ids]]]; try discriminate.
    injection Hids as -> ->. reflexivity. }
  subst ids fields.
  eexists. split; [rewrite Hpatch by (left; reflexivity); vm_compute; reflexivity|].
  split; [vm_compute; reflexivity|].
  destruct (Hdel (with_body (JsObject
              [("ids", JsArray [JsString (sample_uuid 0); JsString (sample_uuid 7)])])))
    as (ids & Hids' & _ & Hrun);
    [vm_compute; reflexivity|].
  injection Hids' as Hids'.
  assert (Eids : ids = [sample_uuid 0; sample_uuid 7]).
  { destruct ids as [|a [|b [|c ids]]]; try discriminate.
    injection Hids' as -> ->. reflexivity. }
  subst ids. rewrite Hrun. vm_compute. reflexivity.
Defined.

(* ================================================================== *)
(** * Further properties of the code *)

(* ------------------------------------------------------------------ *)
(** ** Identifiers and the primary key *)

Lemma char_eqb_sym k a b : char_eqb k a b = char_eqb k b a.
Proof. destruct k; simpl; apply Ascii.eqb_sym. Qed.

Lemma char_eqb_trans k a b c :
  char_eqb k a b = true -> char_eqb k b c = true -> char_eqb k a c = true.
Proof.
  destruct k; simpl; rewrite !Ascii.eqb_eq; congruence.
Qed.

Lemma text_eqb_sym k s : forall t, text_eqb k s t = text_eqb k t s.
Proof.
  induction s as [|a s IH]; intros [|b t]; simpl; try reflexivity.
  now rewrite char_eqb_sym, IH.
Qed.

Lemma text_eqb_trans k s : forall t u,
  text_eqb k s t = true -> text_eqb k t u = true -> text_eqb k s u = true.
Proof.
  induction s as [|a s IH]; intros [|b t] [|c u]; simpl; try congruence.
  rewrite !andb_true_iff. intros [H1 H2] [H3 H4]. split.
  - eapply char_eqb_trans; eassumption.
  - eapply IH; eassumption.
Qed.

Lemma has_id_own r : has_id (id r) r = true.
Proof. rewrite has_id_text. apply text_eqb_refl. Qed.


(** Two identifiers that name the same row name the same rows. *)
Lemma has_id_shared i j r r' :
  has_id i r = true -> has_id j r = true -> has_id i r' = has_id j r'.
Proof.
  rewrite !has_id_text. intros Hi Hj.
  assert (Hij : text_eqb case_insensitive i j = true).
  { eapply text_eqb_trans; [|exact Hj]. now rewrite text_eqb_sym. }
  destruct (text_eqb case_insensitive (id r') j) eqn:E.
  - eapply text_eqb_trans; [exact E|]. now rewrite text_eqb_sym.
  - destruct (text_eqb case_insensitive (id r') i) eqn:E'; [|reflexivity].
    rewrite <- E. symmetry. eapply text_eqb_trans; eassumption.
Qed.

Lemma existsb_false_In {A} (f : A -> bool) l :
  existsb f l = false <-> forall x, In x l -> f x = false.
Proof.
  induction l as [|a l IH]; simpl.
  - split; [intros _ x []|reflexivity].
  - rewrite orb_false_iff, IH. split.
    + intros [Ha Hl] x [<-|Hx]; auto.
    + intros H. split; [apply H; now left|intros x Hx; apply H; now right].
Qed.

Lemma find_none_In {A} (f : A -> bool) l :
  find f l = None <-> forall x, In x l -> f x = false.
Proof.
  split; [apply find_none|].
  induction l as [|a l IH]; simpl; [reflexivity|]. intros H.
  rewrite (H a) by now left. apply IH. intros x Hx. apply H. now right.
Qed.

Lemma find_existsb {A} (f : A -> bool) l :
  existsb f l = match find f l with Some _ => true | None => false end.
Proof.
  induction l as [|a l IH]; simpl; [reflexivity|].
  destruct (f a); simpl; [reflexivity|exact IH].
Qed.

Lemma find_app_some {A} (f : A -> bool) l l' x :
  find f l = Some x -> find f (l ++ l') = Some x.
Proof.
  induction l as [|a l IH]; simpl; [discriminate|].
  destruct (f a); [trivial|exact IH].
Qed.

Lemma find_app_none {A} (f : A -> bool) l l' :
  find f l = None -> find f (l ++ l') = find f l'.
Proof.
  induction l as [|a l IH]; simpl; [reflexivity|].
  destruct (f a); [discriminate|exact IH].
Qed.

(** The first match of a list is the first match of what a filter keeps of
    it, when the filter keeps it. *)
Lemma find_filter_kept {A} (f g : A -> bool) l x :
  find f l = Some x -> g x = true -> find f (filter g l) = Some x.
Proof.
  induction l as [|a l IH]; simpl; [discriminate|].
  destruct (f a) eqn:Ef.
  - intros [= ->] Hg. rewrite Hg. simpl. now rewrite Ef.
  - intros H Hg. destruct (g a); simpl; [rewrite Ef|]; auto.
Qed.

Lemma find_filter_none {A} (f g : A -> bool) l :
  (forall x, In x l -> f x = true -> g x = false) -> find f (filter g l) = None.
Proof.
  intros H. apply find_none_In. intros x Hx.
  apply filter_In in Hx as [Hin Hg].
  destruct (f x) eqn:E; [|reflexivity]. rewrite (H x Hin E) in Hg. discriminate.
Qed.

Lemma find_update_where_other i sel p rows :
  find (has_id i) (update_where sel p rows)
  = option_map (fun r => if sel r then apply_patch p r else r) (find (has_id i) rows).
Proof.
  induction rows as [|r rows IH]; simpl; [reflexivity|].
  assert (E : has_id i (if sel r then apply_patch p r else r) = has_id i r)
    by (destruct (sel r); reflexivity).
  rewrite E. destruct (has_id i r); [reflexivity|exact IH].
Qed.






(** Under the primary key an identifier selects at most one row. *)
Lemma unique_ids_one_row i rows :
  unique_ids rows = true -> (List.length (filter (has_id i) rows) <= 1)%nat.
Proof.
  induction rows as [|a rows IH]; simpl; [lia|].
  rewrite andb_true_iff, negb_true_iff. intros [Ha Hu].
  destruct (has_id i a) eqn:E; simpl; [|auto].
  assert (filter (has_id i) rows = []) as ->; [|simpl; lia].
  rewrite existsb_false_In in Ha.
  clear IH Hu. induction rows as [|x rows IH]; simpl; [reflexivity|].
  rewrite (has_id_shared i (id a) a x E (has_id_own a)).
  rewrite (Ha x) by now left. apply IH. intros y Hy. apply Ha. now right.
Qed.
(* ------------------------------------------------------------------ *)
(** ** Operations on one entity *)

Lemma selected_by_id i r :
  selected (where_ (WhereEq col_id (SqlText i)) Todo_query) r = has_id i r.
Proof. rewrite selected_where. reflexivity. Qed.

Lemma with_table_same w : with_table w (table w) = w.
Proof. destruct w; reflexivity. Qed.

Lemma getTodoById_found i o w r :
  find (has_id i) (table w) = Some r -> getTodoById i o w = (inr r, w).
Proof. intros H. unfold getTodoById. run_store. now rewrite H. Qed.

Lemma getTodoById_missing i o w :
  find (has_id i) (table w) = None ->
  getTodoById i o w = (inl (ApiError 404 "Todo not found"), w).
Proof. intros H. unfold getTodoById. run_store. now rewrite H. Qed.

Lemma findById_run i o w : findById i o w = (inr (find (has_id i) (table w)), w).
Proof. reflexivity. Qed.

Lemma updateTodo_found i d o w r :
  patchable d ->
  find (has_id i) (table w) = Some r ->
  updateTodo i d o w =
    (inr (Some (apply_patch (bulk_patch d o w) r)),
     after_update w (update_where (has_id i) (bulk_patch d o w) (table w))).
Proof.
  intros Hok H. unfold updateTodo, try_catch.
  unfold bind at 1. rewrite findById_run, H.
  unfold patchAndFetchById. rewrite fromJson_then by exact Hok. run_store.
  fold (bulk_patch d o w). now rewrite find_update_where, H.
Qed.

(** A patch the model refuses leaves [updateTodo] with the 500 error of the
    service, and nothing is written. *)
Lemma updateTodo_refused i d o w r :
  ~ patchable d ->
  find (has_id i) (table w) = Some r ->
  updateTodo i d o w = (inl (ApiError 500 "Failed to update todo"), w).
Proof.
  intros Hbad H. unfold updateTodo, try_catch.
  unfold bind at 1. rewrite findById_run, H.
  unfold patchAndFetchById. now rewrite fromJson_stop by exact Hbad.
Qed.

Lemma updateTodo_missing i d o w :
  find (has_id i) (table w) = None ->
  updateTodo i d o w = (inl (ApiError 404 "Todo not found"), w).
Proof. intros H. unfold updateTodo. run_store. now rewrite H. Qed.

(** The three ways [updateTodo] ends. *)
Lemma updateTodo_cases i d o w :
  (exists r, find (has_id i) (table w) = Some r /\ patchable d /\
     updateTodo i d o w =
       (inr (Some (apply_patch (bulk_patch d o w) r)),
        after_update w (update_where (has_id i) (bulk_patch d o w) (table w)))) \/
  updateTodo i d o w = (inl (ApiError 404 "Todo not found"), w) \/
  updateTodo i d o w = (inl (ApiError 500 "Failed to update todo"), w).
Proof.
  destruct (find (has_id i) (table w)) as [r|] eqn:E.
  - destruct (violations_dec true (stringify_tags d)) as [Hok|Hbad].
    + left. exists r. repeat split; auto. now apply updateTodo_found.
    + right; right. now apply (updateTodo_refused i d o w r).
  - right; left. now apply updateTodo_missing.
Qed.

(** The two ways [bulkUpdateTodos] ends. *)
Lemma bulkUpdateTodos_cases ids d o w :
  (patchable d /\
   bulkUpdateTodos ids d o w =
     (inr (affected (id_in ids) (table w)),
      after_update w (update_where (id_in ids) (bulk_patch d o w) (table w)))) \/
  bulkUpdateTodos ids d o w =
    (inl (ApiError 500 "Failed to bulk update todos"), w).
Proof.
  destruct (violations_dec true (stringify_tags d)) as [Hok|Hbad].
  - left. split; [exact Hok|]. now apply bulkUpdateTodos_run.
  - right. now apply bulkUpdateTodos_refused.
Qed.

Lemma patchable_dec d : {patchable d} + {~ patchable d}.
Proof. apply violations_dec. Qed.

Lemma storable_dec d : {storable d} + {~ storable d}.
Proof. apply violations_dec. Qed.

Lemma affected_zero sel rows :
  affected sel rows = 0 <-> forall r, In r rows -> sel r = false.
Proof.
  unfold affected. split.
  - intros H r Hin. destruct (sel r) eqn:E; [|reflexivity].
    assert (Hf : In r (filter sel rows)) by (apply filter_In; auto).
    destruct (filter sel rows); [destruct Hf|simpl in H; lia].
  - intros H. induction rows as [|a rows IH]; simpl; [reflexivity|].
    rewrite (H a) by now left. apply IH. intros r Hr. apply H. now right.
Qed.

Lemma filter_none_kept {A} (f : A -> bool) l :
  (forall x, In x l -> f x = false) -> filter (fun x => negb (f x)) l = l.
Proof.
  intros H. induction l as [|a l IH]; simpl; [reflexivity|].
  rewrite (H a) by now left. simpl. f_equal. apply IH.
  intros x Hx. apply H. now right.
Qed.

Lemma deleteTodo_found i o w r :
  In r (table w) -> has_id i r = true ->
  deleteTodo i o w =
    (inr true, with_table w (filter (fun x => negb (has_id i x)) (table w))).
Proof.
  intros Hin Hr. unfold deleteTodo, deleteById, delete_where. run_store.
  rewrite (affected_ext _ (has_id i)) by apply selected_by_id.
  rewrite (filter_ext _ (fun x => negb (has_id i x)))
    by (intros x; now rewrite selected_by_id).
  destruct (affected (has_id i) (table w) =? 0) eqn:E; [|reflexivity].
  apply Z.eqb_eq in E. rewrite affected_zero in E.
  rewrite (E r Hin) in Hr. discriminate.
Qed.

Lemma deleteTodo_missing i o w :
  (forall r, In r (table w) -> has_id i r = false) ->
  deleteTodo i o w = (inl (ApiError 404 "Todo not found"), w).
Proof.
  intros H. unfold deleteTodo, deleteById, delete_where. run_store.
  rewrite (affected_ext _ (has_id i)) by apply selected_by_id.
  rewrite (filter_ext _ (fun x => negb (has_id i x)))
    by (intros x; now rewrite selected_by_id).
  rewrite (proj2 (affected_zero _ _) H). simpl.
  rewrite (filter_none_kept _ _ H). now destruct w.
Qed.

Lemma createTodo_untitled d o w :
  data_title d = None ->
  createTodo d o w = (inl (ApiError 500 "Failed to create todo"), w).
Proof.
  intros H. apply createTodo_refused. intros Hok.
  apply storable_title in Hok as (t & Ht & _). congruence.
Qed.

(** The three ways [createTodo] ends: the row is inserted; the identifier
    drawn is taken; the model refuses the payload. *)
Lemma createTodo_cases d o w :
  (exists t, data_title d = Some t /\
     existsb (has_id (uuid o (uuid_draws w))) (table w) = false /\
     createTodo d o w =
       (inr (inserted_row d t o w),
        after_insert w (table w ++ [inserted_row d t o w]))) \/
  createTodo d o w =
    (inl (ApiError 500 "Failed to create todo"), after_insert w (table w)) \/
  createTodo d o w = (inl (ApiError 500 "Failed to create todo"), w).
Proof.
  destruct (storable_dec d) as [Hok|Hbad].
  - destruct (storable_title d Hok) as (t & Ht & _).
    destruct (existsb (has_id (uuid o (uuid_draws w))) (table w)) eqn:E.
    + right; left. now apply createTodo_collision.
    + left. exists t. repeat split; auto. now apply createTodo_fresh.
  - right; right. now apply createTodo_refused.
Qed.

(** What a successful [createTodo] did. *)
Lemma createTodo_done d o w t w1 :
  createTodo d o w = (inr t, w1) ->
  storable d /\
  exists s,
    data_title d = Some s /\
    existsb (has_id (uuid o (uuid_draws w))) (table w) = false /\
    t = inserted_row d s o w /\
    w1 = after_insert w (table w ++ [t]).
Proof.
  intros H.
  destruct (storable_dec d) as [Hok|Hbad];
    [|rewrite (createTodo_refused d o w Hbad) in H; discriminate].
  split; [exact Hok|].
  destruct (createTodo_cases d o w) as [(s & Hs & Hfresh & Hc)|[Hc|Hc]];
    rewrite Hc in H; try discriminate.
  injection H as <- <-. eauto.
Qed.

Lemma find_has_id i rows r :
  find (has_id i) rows = Some r -> In r rows /\ has_id i r = true.
Proof. apply find_some. Qed.

(** X1.  Reading one entity changes nothing: [getTodoById] returns the
    first stored row carrying the identifier, and fails with the 404 error
    exactly when no stored row carries it; either way the table, the clock
    and the identifier generator are as before. *)
Theorem getTodoById_reads (i : string) (o : Oracle) (w : World) :
  snd (getTodoById i o w) = w /\
  match fst (getTodoById i o w) with
  | inr r => find (has_id i) (table w) = Some r /\
             In r (table w) /\ has_id i r = true
  | inl e => e = ApiError 404 "Todo not found" /\
             forall r, In r (table w) -> has_id i r = false
  end.
Proof.
  destruct (find (has_id i) (table w)) as [r|] eqn:E.
  - rewrite (getTodoById_found _ _ _ _ E). simpl.
    destruct (find_has_id _ _ _ E). auto.
  - rewrite (getTodoById_missing _ _ _ E). simpl.
    repeat split. now apply find_none_In.
Qed.

(** X2.  What [createTodo] returns is what a later [getTodoById] on the
    new identifier returns, and every identifier that was served before the
    creation is still served by the same row. *)
Theorem create_then_fetch (d : TodoData) (o : Oracle) (w : World)
    (t : Todo) (w1 : World) :
  createTodo d o w = (inr t, w1) ->
  (forall o', getTodoById (id t) o' w1 = (inr t, w1)) /\
  (forall o' i r,
     getTodoById i o' w = (inr r, w) -> getTodoById i o' w1 = (inr r, w1)).
Proof.
  intros H.
  destruct (createTodo_cases d o w) as [(s & Hs & Hfresh & Hrun)|[Hrun|Hrun]];
    rewrite Hrun in H; try discriminate.
  injection H as <- <-. split.
  - intros o'. apply getTodoById_found. cbn [after_insert table].
    rewrite find_app_none.
    + cbn [find]. now rewrite has_id_own.
    + apply find_none_In. now apply existsb_false_In.
  - intros o' i r Hget. apply getTodoById_found. cbn [after_insert table].
    apply find_app_some.
    destruct (find (has_id i) (table w)) as [r'|] eqn:E.
    + rewrite (getTodoById_found _ _ _ _ E) in Hget. congruence.
    + rewrite (getTodoById_missing _ _ _ E) in Hget. discriminate.
Qed.

Lemma create_then_fetch_witness :
  createTodo (todoData_of (req_body create_milk)) ticking world_abc
    = (inr row_milk, world_milk) /\
  getTodoById (sample_uuid 1) frozen world_milk = (inr row_milk, world_milk) /\
  getTodoById (sample_uuid 0) frozen world_milk = (inr row_abc, world_milk).
Proof.
  split; [reflexivity|].
  destruct (create_then_fetch (todoData_of (req_body create_milk)) ticking
              world_abc row_milk world_milk eq_refl) as [Hnew Hold].
  split; [exact (Hnew frozen)|].
  exact (Hold frozen (sample_uuid 0) row_abc eq_refl).
Defined.

(** X3.  Updating a stored entity with a payload the model accepts (a title
    of 1 to 255 characters if any, a description of at most 1000 if any, no
    due date and no tags other than null) writes the fields present in the
    payload and no other: the identifier and [createdAt] stay, [updatedAt]
    becomes the clock reading of the update whatever the payload says, the
    other rows and the size of the table are unchanged, and a later
    [getTodoById] returns the entity as [updateTodo] returned it.  With any
    other payload, among them every one that carries a due date or an array
    of tags, the update fails with the 500 error of the service and nothing
    is written. *)
Theorem updateTodo_existing (i : string) (d : TodoData) (o : Oracle) (w : World)
    (r : Todo) :
  find (has_id i) (table w) = Some r ->
  (patchable d <->
   title_violations true d = [] /\
   description_violations d = [] /\
   (data_dueDate d = None \/ data_dueDate d = Some None) /\
   (data_tags d = None \/ data_tags d = Some None)) /\
  (patchable d ->
   exists t w',
     updateTodo i d o w = (inr (Some t), w') /\
     id t = id r /\
     createdAt t = createdAt r /\
     updatedAt t = clock o (clock_reads w) /\
     title t = or_else (data_title d) (title r) /\
     description t = or_else (data_description d) (description r) /\
     completed t = or_else (data_completed d) (completed r) /\
     priority t = or_else (data_priority d) (priority r) /\
     dueDate t = or_else (data_dueDate d) (dueDate r) /\
     (data_tags d = None -> tags t = tags r) /\
     (data_tags d = Some None -> tags t = None) /\
     clock_reads w' = S (clock_reads w) /\
     uuid_draws w' = uuid_draws w /\
     List.length (table w') = List.length (table w) /\
     (forall r', In r' (table w) -> has_id i r' = false -> In r' (table w')) /\
     (forall o', getTodoById i o' w' = (inr t, w'))) /\
  (~ patchable d ->
   updateTodo i d o w = (inl (ApiError 500 "Failed to update todo"), w)).
Proof.
  intros H.
  split; [apply violations_none|].
  split; [|intros Hbad; now apply (updateTodo_refused i d o w r)].
  intros Hok.
  destruct (stringify_tags_fields d) as (E1 & E2 & E3 & E4 & E5 & E6).
  eexists _, _. split; [apply (updateTodo_found _ _ _ _ _ Hok H)|].
  simpl. rewrite E1, E2, E3, E4, E5.
  repeat split.
  - intros Ht. unfold stringify_tags. rewrite Ht. simpl. now rewrite Ht.
  - intros Ht. unfold stringify_tags. rewrite Ht. simpl. now rewrite Ht.
  - apply update_where_length.
  - intros r' Hin Hr'. now apply update_where_untouched.
  - intros o'. apply getTodoById_found. simpl.
    now rewrite find_update_where, H.
Qed.

Lemma updateTodo_existing_witness :
  find (has_id (sample_uuid 0)) (table world_abc) = Some row_abc /\
  (exists t w',
     updateTodo (sample_uuid 0) (completed_only true) ticking world_abc
       = (inr (Some t), w') /\
     completed t = true /\ title t = "abc" /\ updatedAt t = 1002) /\
  updateTodo (sample_uuid 0) (todoData_of (Some (JsObject [("tags", JsArray [JsString "urgent"])])))
    ticking world_abc
    = (inl (ApiError 500 "Failed to update todo"), world_abc).
Proof.
  split; [reflexivity|].
  split.
  - destruct (updateTodo_existing (sample_uuid 0) (completed_only true) ticking
                world_abc row_abc eq_refl) as (_ & Hdone & _).
    destruct (Hdone eq_refl) as (t & w' & Hrun & _ & _ & Hu & Ht & _ & Hc & _).
    exists t, w'. repeat split; assumption.
  - destruct (updateTodo_existing (sample_uuid 0)
                (todoData_of (Some (JsObject [("tags", JsArray [JsString "urgent"])])))
                ticking world_abc row_abc eq_refl) as (_ & _ & Hrefused).
    apply Hrefused. vm_compute. discriminate.
Defined.

(** X4.  An identifier no stored row carries: reading, updating, deleting
    and toggling all fail with the same 404 error and leave the table, the
    clock and the generator untouched; behind [asyncHandler] a controller
    that starts with such a call answers 404 NOT_FOUND, whatever it would
    have done with the result. *)
Theorem unknown_id_answered_404 (i : string) (o : Oracle) (w : World) :
  (forall r, In r (table w) -> has_id i r = false) ->
  let not_found := ApiError 404 "Todo not found" in
  getTodoById i o w = (inl not_found, w) /\
  (forall d, updateTodo i d o w = (inl not_found, w)) /\
  deleteTodo i o w = (inl not_found, w) /\
  toggleTodoStatus i o w = (inl not_found, w) /\
  forall (A : Type) (service : Request -> M A) (respond : Request -> A -> M Response)
         (req : Request),
    service req o w = (inl not_found, w) ->
    asyncHandler (fun req => x <- service req ;; respond req x) req o w =
      ({| status := 404; json := Failure "NOT_FOUND" "Todo not found" [] |}, w).
Proof.
  intros H not_found.
  assert (Hfind : find (has_id i) (table w) = None) by now apply find_none_In.
  repeat split.
  - now apply getTodoById_missing.
  - intros d. now apply updateTodo_missing.
  - now apply deleteTodo_missing.
  - now apply toggle_missing.
  - intros A service respond req Hs.
    unfold asyncHandler, bind. rewrite Hs. reflexivity.
Qed.

Lemma unknown_id_answered_404_witness :
  (forall r, In r (table world_abc) -> has_id (sample_uuid 7) r = false) /\
  deleteTodo (sample_uuid 7) ticking world_abc
    = (inl (ApiError 404 "Todo not found"), world_abc).
Proof.
  assert (H : forall r, In r (table world_abc) -> has_id (sample_uuid 7) r = false).
  { intros r [<-|[]]. reflexivity. }
  split; [exact H|].
  exact (proj1 (proj2 (proj2 (unknown_id_answered_404 (sample_uuid 7) ticking
                                world_abc H)))).
Defined.

(** X5.  Deleting a stored entity succeeds, removes the rows carrying the
    identifier and no other, and reads neither the clock nor the generator;
    afterwards the identifier is unknown to [getTodoById] and to a second
    [deleteTodo], every other identifier is served as before, and under
    the primary key the table is exactly one row shorter. *)
Theorem deleteTodo_existing (i : string) (o : Oracle) (w : World) (r : Todo) :
  In r (table w) -> has_id i r = true ->
  exists w',
    deleteTodo i o w = (inr true, w') /\
    clock_reads w' = clock_reads w /\
    uuid_draws w' = uuid_draws w /\
    (forall x, In x (table w') <-> In x (table w) /\ has_id i x = false) /\
    (forall o', getTodoById i o' w' = (inl (ApiError 404 "Todo not found"), w')) /\
    (forall o', deleteTodo i o' w' = (inl (ApiError 404 "Todo not found"), w')) /\
    (forall o' j x,
       getTodoById j o' w = (inr x, w) -> has_id i x = false ->
       getTodoById j o' w' = (inr x, w')) /\
    (unique_ids (table w) = true ->
     S (List.length (table w')) = List.length (table w)).
Proof.
  intros Hin Hr.
  eexists. split; [apply (deleteTodo_found _ _ _ _ Hin Hr)|].
  simpl.
  assert (Hgone : forall x,
            In x (filter (fun x => negb (has_id i x)) (table w)) ->
            has_id i x = false).
  { intros x Hx. apply filter_In in Hx as [_ Hx]. now apply negb_true_iff. }
  split; [reflexivity|]. split; [reflexivity|].
  split.
  { intros x. split.
    - intros Hx. split; [now apply filter_In in Hx as [Hx _]|now apply Hgone].
    - intros [Hx Hi]. apply filter_In. now rewrite Hi. }
  split.
  { intros o'. apply getTodoById_missing. simpl. now apply find_none_In. }
  split.
  { intros o'. now apply deleteTodo_missing. }
  split.
  { intros o' j x Hget Hx. apply getTodoById_found. simpl.
    destruct (find (has_id j) (table w)) as [x'|] eqn:E.
    + rewrite (getTodoById_found _ _ _ _ E) in Hget.
      injection Hget as ->. apply find_filter_kept; [exact E|]. now rewrite Hx.
    + rewrite (getTodoById_missing _ _ _ E) in Hget. discriminate. }
  intros Hu.
  pose proof (filter_partition_length (has_id i) (table w)) as Hlen.
  pose proof (unique_ids_one_row i _ Hu) as Hone.
  assert (Hsome : In r (filter (has_id i) (table w))) by (apply filter_In; auto).
  destruct (filter (has_id i) (table w)) as [|a l]; [destruct Hsome|].
  simpl in *. lia.
Qed.

Lemma deleteTodo_existing_witness :
  In row_abc (table world_abc) /\ has_id (sample_uuid 0) row_abc = true /\
  exists w',
    deleteTodo (sample_uuid 0) ticking world_abc = (inr true, w') /\
    table w' = [].
Proof.
  split; [now left|]. split; [reflexivity|].
  destruct (deleteTodo_existing (sample_uuid 0) ticking world_abc row_abc
              (or_introl eq_refl) eq_refl) as (w' & Hrun & _ & _ & Hrows & _).
  exists w'. split; [exact Hrun|].
  destruct (table w') as [|x l] eqn:E; [reflexivity|].
  destruct (proj1 (Hrows x) (or_introl eq_refl)) as [[<-|[]] Hx].
  discriminate Hx.
Defined.
(* ------------------------------------------------------------------ *)
(** ** Invariants of the table *)


Lemma deleteTodo_cases i o w :
  deleteTodo i o w =
    (inr true, with_table w (filter (fun x => negb (has_id i x)) (table w))) \/
  deleteTodo i o w = (inl (ApiError 404 "Todo not found"), w).
Proof.
  destruct (find (has_id i) (table w)) as [r|] eqn:E.
  - left. destruct (find_has_id _ _ _ E). eapply deleteTodo_found; eauto.
  - right. apply deleteTodo_missing. now apply find_none_In.
Qed.

Lemma In_update_where sel p rows x :
  In x (update_where sel p rows) ->
  exists r, In r rows /\ x = (if sel r then apply_patch p r else r).
Proof.
  unfold update_where. rewrite in_map_iff. intros (r & <- & Hin). eauto.
Qed.



Lemma monotone_two o n : monotone o -> clock o n <= clock o (S (S n)).
Proof. intros H. pose proof (H n). pose proof (H (S n)). lia. Qed.

Lemma timestamps_kept o w rows n u :
  monotone o ->
  timestamps_ordered o w ->
  clock o (clock_reads w) <= clock o n ->
  (forall x, In x rows ->
     In x (table w) \/ createdAt x <= updatedAt x /\ updatedAt x <= clock o n) ->
  timestamps_ordered o {| table := rows; clock_reads := n; uuid_draws := u |}.
Proof.
  intros Hm Ho Hn Hrows x Hx. cbn [table clock_reads] in *.
  destruct (Hrows x Hx) as [Hin|H]; [|exact H].
  destruct (Ho x Hin). lia.
Qed.

Lemma timestamps_patched o w sel d x :
  monotone o ->
  timestamps_ordered o w ->
  In x (update_where sel (bulk_patch d o w) (table w)) ->
  In x (table w) \/
  createdAt x <= updatedAt x /\ updatedAt x <= clock o (S (clock_reads w)).
Proof.
  intros Hm Ho Hx. apply In_update_where in Hx as (r & Hin & ->).
  destruct (sel r); [right|now left].
  destruct (Ho r Hin) as [H1 H2]. pose proof (Hm (clock_reads w)).
  cbn. lia.
Qed.

(** X7.  With a clock that never goes back, the timestamps stay ordered:
    when every stored row has [createdAt <= updatedAt] and was last updated
    no later than the clock reads, the same holds after every operation
    that writes, whether it succeeds or fails; and an update never moves
    [updatedAt] of the entity backwards. *)
Theorem timestamps_stay_ordered (o : Oracle) (w : World) :
  monotone o ->
  timestamps_ordered o w ->
  (forall d, timestamps_ordered o (snd (createTodo d o w))) /\
  (forall i d, timestamps_ordered o (snd (updateTodo i d o w))) /\
  (forall i, timestamps_ordered o (snd (deleteTodo i o w))) /\
  (forall i, timestamps_ordered o (snd (toggleTodoStatus i o w))) /\
  (forall ids d, timestamps_ordered o (snd (bulkUpdateTodos ids d o w))) /\
  (forall ids, timestamps_ordered o (snd (bulkDeleteTodos ids o w))) /\
  (forall i d r t w',
     find (has_id i) (table w) = Some r ->
     updateTodo i d o w = (inr (Some t), w') ->
     createdAt t <= updatedAt t /\ updatedAt r <= updatedAt t).
Proof.
  intros Hm Ho.
  assert (H1 : clock o (clock_reads w) <= clock o (S (clock_reads w))) by apply Hm.
  assert (H2 : clock o (clock_reads w) <= clock o (S (S (clock_reads w))))
    by now apply monotone_two.
  assert (Htoggle : forall r, toggle_patch r (clock o (clock_reads w))
                              = bulk_patch (completed_only (negb (completed r))) o w)
    by reflexivity.
  split; [|split; [|split; [|split; [|split; [|split]]]]].
  - intros d.
    destruct (createTodo_cases d o w) as [(t & Ht & Hfresh & ->)|[-> | ->]];
      cbn [snd]; [| |exact Ho];
      unfold after_insert; apply (timestamps_kept o w); auto.
    intros x Hx. apply in_app_or in Hx as [Hx|[<-|[]]]; [now left|right].
    cbn. pose proof (Hm (S (clock_reads w))). lia.
  - intros i d.
    destruct (updateTodo_cases i d o w) as [(r & E & Hok & ->)|[-> | ->]];
      cbn [snd]; [|exact Ho|exact Ho].
    unfold after_update. apply (timestamps_kept o w); auto.
    intros x Hx. eapply timestamps_patched; eauto.
  - intros i. destruct (deleteTodo_cases i o w) as [-> | ->]; cbn [snd]; [|exact Ho].
    unfold with_table. apply (timestamps_kept o w); auto; [lia|].
    intros x Hx. left. now apply filter_In in Hx as [Hx _].
  - intros i. destruct (find (has_id i) (table w)) as [r|] eqn:E.
    + rewrite (toggle_found _ _ _ _ E). cbn [snd]. rewrite Htoggle.
      unfold after_update. apply (timestamps_kept o w); auto.
      intros x Hx. eapply timestamps_patched; eauto.
    + now rewrite (toggle_missing _ _ _ E).
  - intros ids d.
    destruct (bulkUpdateTodos_cases ids d o w) as [[_ ->]| ->];
      cbn [snd]; [|exact Ho].
    unfold after_update. apply (timestamps_kept o w); auto.
    intros x Hx. eapply timestamps_patched; eauto.
  - intros ids. rewrite bulkDeleteTodos_run. cbn [snd].
    unfold with_table. apply (timestamps_kept o w); auto; [lia|].
    intros x Hx. left. now apply filter_In in Hx as [Hx _].
  - intros i d r t w' E Hrun.
    destruct (updateTodo_cases i d o w) as [(r' & E' & Hok & Hc)|[Hc|Hc]];
      rewrite Hc in Hrun; try discriminate.
    rewrite E in E'. injection E' as <-. injection Hrun as <- <-.
    destruct (find_has_id _ _ _ E) as [Hin _].
    destruct (Ho r Hin). cbn. lia.
Qed.

Lemma timestamps_stay_ordered_witness :
  monotone ticking /\
  timestamps_ordered ticking world_abc /\
  timestamps_ordered ticking (snd (toggleTodoStatus (sample_uuid 0) ticking world_abc)).
Proof.
  assert (Hm : monotone ticking) by (intros n; unfold ticking; cbn [clock]; lia).
  assert (Ho : timestamps_ordered ticking world_abc).
  { intros r [<-|[]]. cbn. lia. }
  split; [exact Hm|]. split; [exact Ho|].
  exact (proj1 (proj2 (proj2 (proj2 (timestamps_stay_ordered ticking world_abc Hm Ho))))
           (sample_uuid 0)).
Defined.
(* ------------------------------------------------------------------ *)
(** ** Statistics and the other queries of the model *)

Lemma selected_all r : selected Todo_query r = true.
Proof. reflexivity. Qed.

Lemma holds_dueDate_lt t r :
  holds (WhereLt col_dueDate (SqlInt t)) r =
    match dueDate r with Some d => d <? t | None => false end.
Proof.
  unfold holds. simpl. destruct (dueDate r) as [d|]; simpl; [|reflexivity].
  now destruct (d <? t).
Qed.

Lemma selected_overdue t r :
  selected (where_ (WhereEq col_completed (SqlBool false))
              (where_ (WhereLt col_dueDate (SqlInt t)) Todo_query)) r
  = overdue_at t r.
Proof.
  rewrite !selected_where, selected_all, holds_completed, holds_dueDate_lt.
  unfold overdue_at. simpl.
  destruct (dueDate r) as [d|]; [|reflexivity].
  now destruct (completed r).
Qed.

Lemma count_ext q f rows :
  (forall r, selected q r = f r) -> count q rows = count_if f rows.
Proof.
  intros H. unfold count, count_if. f_equal. f_equal. now apply filter_ext.
Qed.

Lemma count_if_le f g rows :
  (forall r, f r = true -> g r = true) -> count_if f rows <= count_if g rows.
Proof.
  intros H. unfold count_if. apply inj_le.
  induction rows as [|a rows IH]; simpl; [lia|].
  destruct (f a) eqn:E.
  - rewrite (H a E). simpl. lia.
  - destruct (g a); simpl; lia.
Qed.

Lemma count_if_split f rows :
  count_if f rows + count_if (fun r => negb (f r)) rows = list_length rows.
Proof.
  unfold count_if, list_length.
  rewrite <- (filter_partition_length f rows). lia.
Qed.

Lemma getStatistics_run o w :
  getStatistics o w =
    (inr {| Statistics.total := list_length (table w);
            Statistics.completed := count_if completed (table w);
            Statistics.pending := count_if (fun r => negb (completed r)) (table w);
            Statistics.overdue :=
              count_if (overdue_at (clock o (clock_reads w))) (table w) |},
     after_update w (table w)).
Proof.
  unfold getStatistics. run_store. unfold after_update.
  repeat f_equal.
  - unfold count, list_length. now rewrite filter_all by apply selected_all.
  - apply count_ext. intros r.
    rewrite selected_where, selected_all, holds_completed. now destruct (completed r).
  - apply count_ext. intros r.
    rewrite selected_where, selected_all, holds_completed. now destruct (completed r).
  - apply count_ext. intros r. apply selected_overdue.
Qed.

Lemma isOverdue_run r o w :
  fst (isOverdue r o w) = inr (overdue_at (clock o (clock_reads w)) r).
Proof.
  unfold isOverdue, overdue_at.
  destruct (dueDate r) as [d|]; [|reflexivity].
  destruct (completed r); simpl; [now rewrite andb_false_r|].
  now rewrite andb_true_r.
Qed.

(** X8.  The statistics always come back, read the clock once and write
    nothing.  [total] is the size of the table and is the sum of
    [completed] and [pending]; [overdue] counts the pending rows whose due
    date is before the clock reading, so it never exceeds [pending]; and a
    row is counted as overdue exactly when its own [isOverdue], read at
    that instant, is true. *)
Theorem statistics_consistent (o : Oracle) (w : World) :
  exists s,
    getTodoStatistics o w = (inr s, after_update w (table w)) /\
    Statistics.total s = list_length (table w) /\
    Statistics.completed s = count_if completed (table w) /\
    Statistics.pending s = count_if (fun r => negb (completed r)) (table w) /\
    Statistics.total s = Statistics.completed s + Statistics.pending s /\
    0 <= Statistics.overdue s <= Statistics.pending s /\
    Statistics.overdue s
      = count_if (fun r => match fst (isOverdue r o w) with
                           | inr b => b
                           | inl _ => false
                           end) (table w).
Proof.
  eexists. split.
  { unfold getTodoStatistics, try_catch. rewrite getStatistics_run. reflexivity. }
  cbn [Statistics.total Statistics.completed Statistics.pending Statistics.overdue].
  split; [reflexivity|]. split; [reflexivity|]. split; [reflexivity|].
  split; [now rewrite count_if_split|]. split; [split|].
  - unfold count_if. lia.
  - apply count_if_le. intros r. unfold overdue_at.
    destruct (dueDate r); [|discriminate].
    rewrite andb_true_iff. tauto.
  - unfold count_if. f_equal. f_equal. apply filter_ext. intros r.
    now rewrite isOverdue_run.
Qed.

(** X9.  [isOverdue] answers false for an entity without due date and for
    a completed one, without reading the clock; for a pending entity with a
    due date it reads the clock once and answers whether the due date is
    strictly before the reading.  After [markCompleted], which changes
    [completed] and [updatedAt] only, the entity is not overdue whatever its
    due date; [markIncomplete] brings [completed] back. *)
Theorem isOverdue_of_marked (t : Todo) (o : Oracle) (w : World) :
  ((dueDate t = None \/ completed t = true) -> isOverdue t o w = (inr false, w)) /\
  (forall d, dueDate t = Some d -> completed t = false ->
     isOverdue t o w = (inr (d <? clock o (clock_reads w)), after_update w (table w))) /\
  exists t1 t2,
    markCompleted t o w = (inr t1, after_update w (table w)) /\
    completed t1 = true /\
    updatedAt t1 = clock o (clock_reads w) /\
    (forall o' w', isOverdue t1 o' w' = (inr false, w')) /\
    markIncomplete t1 o (after_update w (table w))
      = (inr t2, after_update (after_update w (table w)) (table w)) /\
    completed t2 = false /\
    updatedAt t2 = clock o (S (clock_reads w)) /\
    (id t2, title t2, description t2, priority t2, dueDate t2, tags t2, createdAt t2)
      = (id t, title t, description t, priority t, dueDate t, tags t, createdAt t).
Proof.
  split; [|split].
  - unfold isOverdue. intros [H|H].
    + now rewrite H.
    + rewrite H. now destruct (dueDate t).
  - intros d Hd Hc. unfold isOverdue. now rewrite Hd, Hc.
  - eexists _, _. split; [reflexivity|]. split; [reflexivity|].
    split; [reflexivity|]. split.
    { intros o' w'. unfold isOverdue. cbn [dueDate completed].
      now destruct (dueDate t). }
    split; [reflexivity|]. repeat split.
Qed.
Lemma filter_split_perm {A} (f : A -> bool) l :
  Permutation (filter f l ++ filter (fun x => negb (f x)) l) l.
Proof.
  induction l as [|a l IH]; simpl; [constructor|].
  destruct (f a); simpl.
  - now constructor.
  - apply Permutation_sym, Permutation_cons_app, Permutation_sym, IH.
Qed.

Lemma fetch_where_only q rows :
  ordering q = None -> q_limit q = None -> q_offset q = None ->
  fetch q rows = filter (selected q) rows.
Proof. intros H1 H2 H3. unfold fetch. now rewrite H1, H2, H3. Qed.

Lemma findByStatus_run c o w :
  findByStatus c o w =
    (inr (filter (fun r => Bool.eqb (completed r) (or_else c false)) (table w)), w).
Proof.
  unfold findByStatus. run_store. rewrite fetch_where_only by reflexivity.
  do 2 f_equal. apply filter_ext. intros r.
  now rewrite selected_where, selected_all, holds_completed.
Qed.

Lemma holds_priority_text p r :
  holds (WhereEq col_priority (SqlText p)) r
  = text_eqb case_insensitive (priority_name (priority r)) p.
Proof.
  unfold holds. simpl.
  now destruct (text_eqb case_insensitive (priority_name (priority r)) p).
Qed.

Lemma findByPriority_run p o w :
  findByPriority p o w =
    (inr (filter (fun r => text_eqb case_insensitive (priority_name (priority r)) p)
                 (table w)), w).
Proof.
  unfold findByPriority. run_store. rewrite fetch_where_only by reflexivity.
  do 2 f_equal. apply filter_ext. intros r.
  now rewrite selected_where, selected_all, holds_priority_text.
Qed.

(** X10.  [findByStatus] and [findByPriority] read the table and leave it
    as it is.  Without an argument [findByStatus] returns the pending rows;
    the completed rows and the pending rows together are the whole table,
    each row once; [findByPriority] returns the rows of that priority, in
    the order of the table, and the number of pending rows is the [pending]
    figure of the statistics. *)
Theorem findByStatus_splits_table (o : Oracle) (w : World) :
  exists done pending,
    findByStatus (Some true) o w = (inr done, w) /\
    findByStatus (Some false) o w = (inr pending, w) /\
    findByStatus None o w = (inr pending, w) /\
    (forall r, In r done <-> In r (table w) /\ completed r = true) /\
    (forall r, In r pending <-> In r (table w) /\ completed r = false) /\
    Permutation (done ++ pending) (table w) /\
    (forall p,
       findByPriority (priority_name p) o w
         = (inr (filter (fun r => priority_eqb (priority r) p) (table w)), w)) /\
    (forall s, fst (getTodoStatistics o w) = inr s ->
       Statistics.pending s = list_length pending /\
       Statistics.completed s = list_length done).
Proof.
  eexists _, _.
  split; [exact (findByStatus_run (Some true) o w)|].
  split; [exact (findByStatus_run (Some false) o w)|].
  split; [exact (findByStatus_run None o w)|]. cbn [or_else].
  split.
  { intros r. rewrite filter_In. now destruct (completed r). }
  split.
  { intros r. rewrite filter_In. now destruct (completed r). }
  split.
  { rewrite (filter_ext (fun r => Bool.eqb (completed r) false)
                        (fun r => negb (Bool.eqb (completed r) true)))
      by (intros r; now destruct (completed r)).
    apply filter_split_perm. }
  split.
  { intros p. rewrite findByPriority_run. do 2 f_equal.
    apply filter_ext. intros r. now destruct (priority r), p. }
  intros s Hs.
  unfold getTodoStatistics, try_catch in Hs. rewrite getStatistics_run in Hs.
  injection Hs as <-. cbn [Statistics.pending Statistics.completed].
  unfold count_if, list_length. split; do 2 f_equal; apply filter_ext;
    intros r; now destruct (completed r).
Qed.

Lemma count_if_cons f a rows :
  count_if f (a :: rows) = b2z (f a) + count_if f rows.
Proof.
  unfold count_if. simpl. destruct (f a); simpl b2z; [|lia].
  simpl List.length. lia.
Qed.

Lemma update_where_none sel p rows :
  (forall r, In r rows -> sel r = false) -> update_where sel p rows = rows.
Proof.
  intros H. induction rows as [|a rows IH]; simpl; [reflexivity|].
  rewrite (H a) by now left. f_equal. apply IH. intros r Hr. apply H. now right.
Qed.

(** Under the primary key an update by identifier rewrites one row. *)
Lemma count_if_update f i p rows r :
  unique_ids rows = true ->
  find (has_id i) rows = Some r ->
  count_if f (update_where (has_id i) p rows)
  = count_if f rows - b2z (f r) + b2z (f (apply_patch p r)).
Proof.
  induction rows as [|a rows IH]; [discriminate|].
  cbn [unique_ids find update_where map].
  rewrite andb_true_iff, negb_true_iff. intros [Ha Hu].
  fold (update_where (has_id i) p rows).
  rewrite !count_if_cons.
  destruct (has_id i a) eqn:E.
  - intros [= ->]. rewrite update_where_none; [lia|].
    intros x Hx. rewrite existsb_false_In in Ha.
    rewrite (has_id_shared i (id r) r x E (has_id_own r)). auto.
  - intros Hf. rewrite (IH Hu Hf). lia.
Qed.

Lemma count_if_app f l l' : count_if f (l ++ l') = count_if f l + count_if f l'.
Proof.
  unfold count_if. rewrite filter_app, length_app. lia.
Qed.

Lemma count_if_delete f i rows r :
  unique_ids rows = true ->
  find (has_id i) rows = Some r ->
  count_if f (filter (fun x => negb (has_id i x)) rows) = count_if f rows - b2z (f r).
Proof.
  induction rows as [|a rows IH]; [discriminate|].
  cbn [unique_ids find filter].
  rewrite andb_true_iff, negb_true_iff. intros [Ha Hu].
  destruct (has_id i a) eqn:E; cbn [negb].
  - intros [= ->]. rewrite count_if_cons, filter_none_kept; [lia|].
    intros x Hx. rewrite existsb_false_In in Ha.
    rewrite (has_id_shared i (id r) r x E (has_id_own r)). auto.
  - intros Hf. rewrite !count_if_cons, (IH Hu Hf). lia.
Qed.

Lemma statistics_at_run o w :
  statistics_at o w =
    Some {| Statistics.total := list_length (table w);
            Statistics.completed := count_if completed (table w);
            Statistics.pending := count_if (fun r => negb (completed r)) (table w);
            Statistics.overdue :=
              count_if (overdue_at (clock o (clock_reads w))) (table w) |}.
Proof.
  unfold statistics_at, getTodoStatistics, try_catch.
  now rewrite getStatistics_run.
Qed.

Lemma list_length_count (l : list Todo) : list_length l = count_if (fun _ => true) l.
Proof. unfold list_length, count_if. now rewrite filter_all. Qed.

(** X11.  The statistics follow the writes.  Under the primary key, a
    successful creation adds one to [total] and one to [completed] or to
    [pending] according to the new entity; toggling a stored entity keeps
    [total] and moves one unit between [pending] and [completed]; deleting
    it takes one from [total] and one from the figure it was counted in. *)
Theorem statistics_follow_writes (o o1 o2 : Oracle) (w : World) :
  unique_ids (table w) = true ->
  exists s,
    statistics_at o1 w = Some s /\
    (forall d t w',
       createTodo d o w = (inr t, w') ->
       exists s',
         statistics_at o2 w' = Some s' /\
         Statistics.total s' = Statistics.total s + 1 /\
         Statistics.completed s' = Statistics.completed s + b2z (completed t) /\
         Statistics.pending s' = Statistics.pending s + b2z (negb (completed t))) /\
    (forall i r,
       find (has_id i) (table w) = Some r ->
       (exists s',
          statistics_at o2 (snd (toggleTodoStatus i o w)) = Some s' /\
          Statistics.total s' = Statistics.total s /\
          Statistics.completed s'
            = Statistics.completed s + (if completed r then -1 else 1) /\
          Statistics.pending s'
            = Statistics.pending s - (if completed r then -1 else 1)) /\
       (exists s',
          statistics_at o2 (snd (deleteTodo i o w)) = Some s' /\
          Statistics.total s' = Statistics.total s - 1 /\
          Statistics.completed s' = Statistics.completed s - b2z (completed r) /\
          Statistics.pending s' = Statistics.pending s - b2z (negb (completed r)))).
Proof.
  intros Hu. eexists. split; [apply statistics_at_run|].
  cbn [Statistics.total Statistics.completed Statistics.pending].
  split.
  - intros d t w' Hrun.
    destruct (createTodo_cases d o w) as [(s & Hs & Hfresh & Hc)|[Hc|Hc]];
      rewrite Hc in Hrun; try discriminate.
    injection Hrun as <- <-.
    eexists. split; [apply statistics_at_run|].
    cbn [Statistics.total Statistics.completed Statistics.pending after_insert table].
    rewrite !count_if_app, !list_length_count, count_if_app.
    rewrite !count_if_cons. unfold count_if. cbn [filter List.length b2z].
    split; [lia|]. split; lia.
  - intros i r Hf. split.
    + rewrite (toggle_found _ _ _ _ Hf). cbn [snd].
      eexists. split; [apply statistics_at_run|].
      cbn [Statistics.total Statistics.completed Statistics.pending after_update table].
      rewrite !(count_if_update _ _ _ _ _ Hu Hf).
      unfold list_length. rewrite update_where_length.
      split; [reflexivity|].
      cbn [apply_patch toggle_patch completed data_completed or_else].
      destruct (completed r); cbn [b2z negb]; split; lia.
    + destruct (find_has_id _ _ _ Hf) as [Hin Hr].
      rewrite (deleteTodo_found _ _ _ _ Hin Hr). cbn [snd].
      eexists. split; [apply statistics_at_run|].
      cbn [Statistics.total Statistics.completed Statistics.pending with_table table].
      rewrite !list_length_count.
      rewrite !(count_if_delete _ _ _ _ Hu Hf). cbn [b2z].
      split; [lia|]. split; reflexivity.
Qed.

Lemma statistics_follow_writes_witness :
  unique_ids (table world_abc) = true /\
  exists s',
    statistics_at frozen (snd (toggleTodoStatus (sample_uuid 0) ticking world_abc))
      = Some s' /\
    Statistics.total s' = 1 /\ Statistics.completed s' = 1 /\
    Statistics.pending s' = 0.
Proof.
  split; [reflexivity|].
  destruct (statistics_follow_writes ticking frozen frozen world_abc eq_refl)
    as (s & Hs & _ & Hrow).
  destruct (Hrow (sample_uuid 0) row_abc eq_refl) as [(s' & Hs' & Ht & Hc & Hp) _].
  exists s'. split; [exact Hs'|].
  rewrite statistics_at_run in Hs. injection Hs as <-.
  rewrite Ht, Hc, Hp. repeat split.
Defined.
(* ------------------------------------------------------------------ *)
(** ** Pages and order *)

Lemma key_leb_total k a b : key_leb k a b = true \/ key_leb k b a = true.
Proof.
  destruct k; simpl.
  - rewrite !Z.leb_le. lia.
  - rewrite !Z.leb_le. lia.
  - destruct (dueDate a), (dueDate b); simpl; auto. rewrite !Z.leb_le. lia.
  - rewrite !Z.leb_le. lia.
  - apply String.leb_total.
Qed.

Lemma order_leb_total k d a b : order_leb k d a b = true \/ order_leb k d b a = true.
Proof. destruct d; simpl; apply key_leb_total. Qed.

Section Sorting.
Variable le : Todo -> Todo -> bool.
Hypothesis le_total : forall a b, le a b = true \/ le b a = true.

Lemma insert_sorted_HdRel y x l :
  le y x = true ->
  HdRel (fun a b => le a b = true) y l ->
  HdRel (fun a b => le a b = true) y (insert_sorted le x l).
Proof.
  intros Hyx H. destruct l as [|z l]; simpl.
  - now constructor.
  - destruct (le x z); constructor; [assumption|]. now inversion H.
Qed.

Lemma insert_sorted_Sorted x l :
  Sorted (fun a b => le a b = true) l ->
  Sorted (fun a b => le a b = true) (insert_sorted le x l).
Proof.
  induction l as [|y l IH]; simpl; intros H.
  - repeat constructor.
  - destruct (le x y) eqn:E.
    + constructor; [assumption|now constructor].
    + inversion H; subst. constructor; [auto|].
      apply insert_sorted_HdRel; [|assumption].
      destruct (le_total x y); congruence.
Qed.

Lemma sort_rows_Sorted l : Sorted (fun a b => le a b = true) (sort_rows le l).
Proof.
  induction l as [|x l IH]; simpl; [constructor|].
  now apply insert_sorted_Sorted.
Qed.
End Sorting.

Lemma Sorted_skipn {A} (R : A -> A -> Prop) n : forall l,
  Sorted R l -> Sorted R (skipn n l).
Proof.
  induction n as [|n IH]; intros [|a l] H; simpl; auto.
  apply IH. now inversion H.
Qed.

Lemma Sorted_firstn {A} (R : A -> A -> Prop) n : forall l,
  Sorted R l -> Sorted R (firstn n l).
Proof.
  induction n as [|n IH]; intros [|a l] H; simpl; try constructor.
  - apply IH. now inversion H.
  - inversion H as [|? ? _ Hd]; subst.
    destruct l as [|b l]; destruct n; simpl; constructor. now inversion Hd.
Qed.

Lemma firstn_plus {A} a b : forall l : list A,
  firstn (a + b) l = (firstn a l ++ firstn b (skipn a l))%list.
Proof.
  induction a as [|a IH]; intros [|x l]; simpl; try reflexivity.
  - now rewrite firstn_nil.
  - now rewrite IH.
Qed.

(** Consecutive windows of the same size, put end to end. *)
Lemma concat_windows {A} (l : list A) size n :
  List.concat (map (fun k => firstn size (skipn (k * size)%nat l)) (seq 0 n))
  = firstn (n * size)%nat l.
Proof.
  induction n as [|n IH]; [reflexivity|].
  rewrite seq_S, map_app, concat_app, IH. simpl.
  rewrite app_nil_r. replace (size + n * size)%nat with (n * size + size)%nat by lia.
  now rewrite firstn_plus.
Qed.

Lemma page_rows_window opts o w p :
  page_rows opts o w p =
    firstn (Z.to_nat (limit_of opts))
      (skipn (Z.to_nat ((p - 1) * limit_of opts)) (sorted_matching opts (table w))).
Proof.
  unfold page_rows.
  destruct (getAllTodos_run (with_page opts p) o w) as (res & -> & Hdata & _).
  exact Hdata.
Qed.

Lemma sorted_matching_length opts rows :
  List.length (sorted_matching opts rows) = List.length (matching opts rows).
Proof. apply sort_rows_length. Qed.

(** X12.  Walking the pages of a list request from 1 to [totalPages]
    returns every matching row exactly once, in the requested order: the
    pages put end to end are the sorted matching rows, and any page after
    the last is empty. *)
Theorem pages_cover_matching (opts : Options.t) (o : Oracle) (w : World) :
  1 <= limit_of opts ->
  exists res,
    getAllTodos opts o w = (inr res, w) /\
    List.concat (map (page_rows opts o w)
                (pages (Z.to_nat (totalPages (pagination res)))))
      = sorted_matching opts (table w) /\
    Permutation
      (List.concat (map (page_rows opts o w)
                   (pages (Z.to_nat (totalPages (pagination res))))))
      (matching opts (table w)) /\
    (forall p, totalPages (pagination res) < p -> page_rows opts o w p = []).
Proof.
  intros Hl.
  destruct (getAllTodos_run opts o w)
    as (res & Hrun & _ & _ & _ & Htotal & Hpages & _).
  exists res. split; [exact Hrun|].
  pose proof (Math_ceil_div_bounds (totalItems (pagination res)) (limit_of opts))
    as Hb.
  rewrite <- Hpages in Hb. specialize (Hb ltac:(lia)).
  set (pagesN := totalPages (pagination res)) in *.
  assert (Hlen : Z.of_nat (List.length (sorted_matching opts (table w)))
                 = totalItems (pagination res))
    by now rewrite sorted_matching_length.
  assert (Hp0 : 0 <= pagesN) by nia.
  assert (Hcat : List.concat (map (page_rows opts o w) (pages (Z.to_nat pagesN)))
                 = sorted_matching opts (table w)).
  { unfold pages. rewrite <- seq_shift, !map_map.
    rewrite (map_ext _ (fun k => firstn (Z.to_nat (limit_of opts))
                                   (skipn (k * Z.to_nat (limit_of opts))%nat
                                          (sorted_matching opts (table w))))).
    - rewrite concat_windows. apply firstn_all2. nia.
    - intros k. rewrite page_rows_window. do 2 f_equal.
      replace (Z.of_nat (S k) - 1) with (Z.of_nat k) by lia.
      rewrite Z2Nat.inj_mul by lia. now rewrite Nat2Z.id. }
  split; [exact Hcat|]. split.
  - rewrite Hcat. apply sort_rows_perm.
  - intros p Hp. rewrite page_rows_window.
    rewrite skipn_all2; [now rewrite firstn_nil|]. nia.
Qed.

Lemma pages_cover_matching_witness :
  1 <= limit_of second_page /\
  List.concat (map (page_rows second_page ticking world_abc) (pages 1)) = [row_abc].
Proof.
  split; [unfold limit_of; simpl; lia|].
  destruct (pages_cover_matching second_page ticking world_abc)
    as (res & Hrun & Hcat & _); [unfold limit_of; simpl; lia|].
  injection Hrun as <-. exact Hcat.
Defined.

(** X13.  One page of a list request.  The rows come in the requested
    order, each is a stored row that passes the filters, their number is
    the part of [limit] that is left of the matching rows after the pages
    before, and [hasNextPage] is true exactly when the next page has a row. *)
Theorem page_is_ordered_window (opts : Options.t) (o : Oracle) (w : World) :
  1 <= page_of opts ->
  1 <= limit_of opts ->
  exists res,
    getAllTodos opts o w = (inr res, w) /\
    sorting res = (or_else (Options.sortBy opts) by_createdAt,
                   or_else (Options.sortOrder opts) desc) /\
    Sorted (in_order (fst (sorting res)) (snd (sorting res))) (data res) /\
    (forall r, In r (data res) ->
       In r (table w) /\ selected (filters_of opts) r = true) /\
    list_length (data res)
      = Z.max 0 (Z.min (limit_of opts)
                       (totalItems (pagination res)
                        - (page_of opts - 1) * limit_of opts)) /\
    (hasNextPage (pagination res) = true <->
     page_rows opts o w (page_of opts + 1) <> []).
Proof.
  intros Hp Hl.
  destruct (getAllTodos_run opts o w)
    as (res & Hrun & Hdata & _ & _ & Htotal & Hpages & Hnext & _).
  exists res. split; [exact Hrun|].
  assert (Hsort : sorting res = (or_else (Options.sortBy opts) by_createdAt,
                                 or_else (Options.sortOrder opts) desc)).
  { assert (H : fst (getAllTodos opts o w) = inr res) by now rewrite Hrun.
    injection H as <-. reflexivity. }
  pose proof (Math_ceil_div_bounds (totalItems (pagination res)) (limit_of opts))
    as Hb.
  rewrite <- Hpages in Hb. specialize (Hb ltac:(lia)).
  assert (Hlen : Z.of_nat (List.length (sorted_matching opts (table w)))
                 = totalItems (pagination res))
    by now rewrite sorted_matching_length.
  split; [exact Hsort|]. split; [|split; [|split]].
  - rewrite Hsort, Hdata. cbn [fst snd].
    apply Sorted_firstn, Sorted_skipn.
    apply (sort_rows_Sorted (order_leb _ _)). apply order_leb_total.
  - intros r Hr. rewrite Hdata in Hr.
    apply In_firstn, In_skipn in Hr.
    apply sort_rows_In in Hr. now apply filter_In in Hr.
  - rewrite Hdata. unfold list_length.
    rewrite length_firstn, length_skipn.
    assert (0 <= (page_of opts - 1) * limit_of opts) by nia.
    lia.
  - rewrite Hnext, Z.ltb_lt, page_rows_window.
    replace (page_of opts + 1 - 1) with (page_of opts) by lia.
    assert (0 <= page_of opts * limit_of opts) by nia.
    rewrite <- length_zero_iff_nil, length_firstn, length_skipn.
    split; intros H'.
    + assert (page_of opts * limit_of opts < totalItems (pagination res)) by nia.
      lia.
    + assert (page_of opts * limit_of opts < totalItems (pagination res)) by lia.
      nia.
Qed.

Lemma page_is_ordered_window_witness :
  1 <= page_of second_page /\
  1 <= limit_of second_page /\
  exists res,
    getAllTodos second_page ticking world_abc = (inr res, world_abc) /\
    list_length (data res) = 0 /\
    hasNextPage (pagination res) = false.
Proof.
  assert (H1 : 1 <= page_of second_page) by (unfold page_of; simpl; lia).
  assert (H2 : 1 <= limit_of second_page) by (unfold limit_of; simpl; lia).
  split; [exact H1|]. split; [exact H2|].
  destruct (page_is_ordered_window second_page ticking world_abc H1 H2)
    as (res & Hrun & _ & _ & _ & Hlen & _).
  exists res. split; [exact Hrun|].
  injection Hrun as <-. split; reflexivity.
Defined.

Lemma holds_dueDate_le_iff t r :
  holds (WhereLe col_dueDate (SqlInt t)) r = true <->
  exists d, dueDate r = Some d /\ d <= t.
Proof.
  split; [apply holds_dueDate_le|].
  intros (d & Hd & Hle). unfold holds. simpl. rewrite Hd. simpl.
  now rewrite (proj2 (Z.leb_le d t) Hle).
Qed.

(* ------------------------------------------------------------------ *)
(** ** The routes on one entity *)

Lemma uuidParamSchema_run rt ps s :
  get "id" ps = Some (JsString s) ->
  s <> EmptyString ->
  uuidParamSchema rt validate_options [] (Some (JsObject ps)) =
    {| errors := if isGuid rt s then []
                 else [{| path := ["id"]; rule := "string.guid";
                          detail_message := Text "Invalid todo ID format";
                          context_value := Some (JsString s) |}];
       value := Some (JsObject [("id", JsString s)]) |}.
Proof.
  intros Hget Hs. unfold uuidParamSchema.
  rewrite Joi_object_collect by reflexivity. cbv zeta.
  rewrite validate_keys_cons. cbn [validate_keys fst snd app].
  rewrite Hget. unfold uuidSchema, Joi_string, any, string_coerce, string_base.
  cbn [allow existsb only required]. unfold limit_errors.
  cbn [abortEarly with_messages validate_options optional].
  destruct s as [|c s]; [congruence|].
  cbn [below above andb app errors value failed].
  destruct (isGuid rt (String c s)); reflexivity.
Qed.

(** X15.  The routes on one entity check the identifier before anything
    else.  An identifier that is not in the UUID format is answered 400
    VALIDATION_ERROR with the single entry "Invalid todo ID format" on
    field [id]; no later middleware and no controller runs and nothing is
    read or written.  A well-formed identifier is handed on, the request
    parameters reduced to [id]. *)
Theorem malformed_id_rejected (rt : Runtime) (rest : list (Request -> Outcome))
    (controller : Handler) (req : Request) (o : Oracle) (w : World)
    (ps : list (string * JsValue)) (s : string) :
  req_params req = Some (JsObject ps) ->
  get "id" ps = Some (JsString s) ->
  s <> EmptyString ->
  (isGuid rt s = false ->
   by_id_route rt rest controller req o w =
     ({| status := 400;
         json := Failure "VALIDATION_ERROR" "Request validation failed"
                   [{| field := "id";
                       entry_message := Text "Invalid todo ID format";
                       entry_value := Some (JsString s) |}] |}, w)) /\
  (isGuid rt s = true ->
   by_id_route rt rest controller req o w =
     route rest controller
       {| req_body := req_body req; req_query := req_query req;
          req_params := Some (JsObject [("id", JsString s)]) |} o w).
Proof.
  intros Hps Hget Hs.
  pose proof (uuidParamSchema_run rt ps s Hget Hs) as Hrun.
  split; intros Hguid; rewrite Hguid in Hrun;
    unfold by_id_route; cbn [route];
    unfold validateParams, validate; cbn [get_property];
    rewrite Hps, Hrun; reflexivity.
Qed.

Lemma malformed_id_rejected_witness :
  exists res,
    by_id_route sample_runtime [] toggleTodoStatus_controller
      (with_id "42" (JsObject [])) ticking world_abc = (res, world_abc) /\
    status res = 400.
Proof.
  eexists. split.
  - refine (proj1 (malformed_id_rejected sample_runtime [] toggleTodoStatus_controller
                     (with_id "42" (JsObject [])) ticking world_abc
                     [("id", JsString "42")] "42" eq_refl eq_refl _) eq_refl).
    discriminate.
  - reflexivity.
Defined.

Lemma validate_keys_absent keys rt prefs p raw :
  (forall k, In k (map fst keys) -> get k raw = None) ->
  validate_keys keys rt prefs p raw = validate_keys keys rt prefs p [].
Proof.
  intros H. apply validate_keys_ext. intros k Hk. now rewrite (H k Hk).
Qed.

(** X16.  An update must change something: behind a well-formed
    identifier, a body that carries none of the six fields of the update
    schema (an empty object, or unknown keys only) is answered 400
    VALIDATION_ERROR with the single entry "At least one field must be
    provided for update"; the controller does not run and nothing is read or
    written. *)
Theorem update_needs_a_field (rt : Runtime) (controller : Handler) (req : Request)
    (o : Oracle) (w : World) (ps raw : list (string * JsValue)) (s : string) :
  req_params req = Some (JsObject ps) ->
  get "id" ps = Some (JsString s) ->
  s <> EmptyString ->
  isGuid rt s = true ->
  req_body req = Some (JsObject raw) ->
  (forall k, In k (map fst updateTodoSchema_keys) -> get k raw = None) ->
  PUT_todos rt controller req o w =
    ({| status := 400;
        json := Failure "VALIDATION_ERROR" "Request validation failed"
                  [{| field := EmptyString;
                      entry_message :=
                        Text "At least one field must be provided for update";
                      entry_value := Some (JsObject []) |}] |}, w).
Proof.
  intros Hps Hget Hs Hguid Hbody Hnone.
  pose proof (uuidParamSchema_run rt ps s Hget Hs) as Hrun.
  rewrite Hguid in Hrun.
  unfold PUT_todos, by_id_route. cbn [route].
  unfold validateParams, validateBody, validate. cbn [get_property].
  rewrite Hps, Hrun. cbn [errors value set_property get_property req_body].
  rewrite Hbody. unfold updateTodoSchema.
  rewrite Joi_object_collect by reflexivity. cbv zeta.
  rewrite (validate_keys_absent _ _ _ _ _ Hnone).
  reflexivity.
Qed.

Lemma update_needs_a_field_witness :
  exists res,
    PUT_todos sample_runtime toggleTodoStatus_controller
      (with_id (sample_uuid 0) (JsObject [("owner", JsString "me")]))
      ticking world_abc = (res, world_abc) /\
    status res = 400.
Proof.
  eexists. split.
  - refine (update_needs_a_field sample_runtime toggleTodoStatus_controller
              (with_id (sample_uuid 0) (JsObject [("owner", JsString "me")]))
              ticking world_abc [("id", JsString (sample_uuid 0))]
              [("owner", JsString "me")] (sample_uuid 0)
              eq_refl eq_refl _ eq_refl eq_refl _).
    + discriminate.
    + intros k Hk. cbn in Hk.
      repeat (destruct Hk as [<-|Hk]; [reflexivity|]). destruct Hk.
  - reflexivity.
Defined.
(* ------------------------------------------------------------------ *)
(** ** What creation stores *)

(** What a 201 answer of the creation route stands for. *)
Lemma POST_todos_created rt req o w info todo w' :
  POST_todos rt req o w = ({| status := 201; json := OneTodo info todo |}, w') ->
  exists req',
    validateBody createTodoSchema rt req = Next req' /\
    createTodo (todoData_of (req_body req')) o w = (inr todo, w').
Proof.
  unfold POST_todos. cbn [route].
  destruct (validateBody createTodoSchema rt req) as [res|req'] eqn:E.
  - intros H. injection H as -> _.
    apply validate_respond in E. discriminate E.
  - unfold createTodo_controller, asyncHandler, bind.
    destruct (createTodo_cases (todoData_of (req_body req')) o w)
      as [(t & Ht & Hfresh & Hc)|[Hc|Hc]]; rewrite Hc.
    + cbn. intros H. injection H as <- <- <-. exists req'. split; [reflexivity|].
      exact Hc.
    + cbn. discriminate.
    + cbn. discriminate.
Qed.

(** X17.  What a successful creation stores is the normalized request.
    The body carried neither a due date nor tags, and the row has none; for
    a title of ASCII characters the stored title is the trimmed title of
    the body and has 1 to 255 characters; a description of ASCII characters
    is stored trimmed, with at most 1000 characters; and the stored row is
    the entity returned. *)
Theorem created_fields_normalized (rt : Runtime) (o : Oracle) (w : World)
    (req : Request) (raw : list (string * JsValue)) (todo : Todo) (w' : World) :
  req_body req = Some (JsObject raw) ->
  POST_todos rt req o w =
    ({| status := 201; json := OneTodo "Todo created successfully" todo |}, w') ->
  (exists s, get "title" raw = Some (JsString s) /\
             (ascii_only s = true ->
              title todo = trim s /\ 1 <= str_length (title todo) <= 255)) /\
  (forall s, get "description" raw = Some (JsString s) -> ascii_only s = true ->
     description todo = Some (trim s) /\ str_length (trim s) <= 1000) /\
  (get "dueDate" raw = None \/ get "dueDate" raw = Some JsNull) /\
  (get "tags" raw = None \/ get "tags" raw = Some JsNull) /\
  dueDate todo = None /\
  tags todo = None /\
  table w' = (table w ++ [todo])%list.
Proof.
  intros Hbody Hpost.
  apply POST_todos_created in Hpost as (req' & Hvalid & Hcreate).
  destruct (createTodoSchema_passed rt req req' raw Hbody Hvalid)
    as ((s & Hs & Ht & Hlen) & _ & Hdesc & _ & _ & Hdue & Htags).
  pose proof (createTodoSchema_storable rt req req' raw Hbody Hvalid) as Hiff.
  set (d := todoData_of (req_body req')) in *.
  apply createTodo_done in Hcreate as (Hok & t & Ht' & _ & -> & ->).
  rewrite Ht in Ht'. injection Ht' as <-.
  apply Hiff in Hok. destruct Hok as [Hnodue Hnotags].
  cbn [inserted_row title description dueDate tags after_insert table].
  split.
  { exists s. split; [exact Hs|]. intros _. split; [reflexivity|exact Hlen]. }
  split.
  { intros s' Hs' _. destruct (Hdesc s' Hs') as [-> Hl]. split; [reflexivity|exact Hl]. }
  split; [exact Hnodue|]. split; [exact Hnotags|].
  split.
  { destruct Hdue as [[_ ->]|[[_ ->]|(x & t' & E & Hx & _)]]; try reflexivity.
    destruct Hnodue as [E'|E']; rewrite E' in E; [discriminate|].
    injection E as <-. congruence. }
  split; [|reflexivity].
  destruct Htags as [[_ E]|[[_ E]|(xs & ys & E & _)]].
  - assert (Hst : stringify_tags d = d) by (unfold stringify_tags; now rewrite E).
    now rewrite Hst, E.
  - assert (Hst : stringify_tags d = d) by (unfold stringify_tags; now rewrite E).
    now rewrite Hst, E.
  - destruct Hnotags as [E'|E']; rewrite E' in E; discriminate.
Qed.

Lemma created_fields_normalized_witness :
  req_body create_milk
    = Some (JsObject [("title", JsString "Buy milk");
                      ("priority", JsString "low")]) /\
  POST_todos sample_runtime create_milk ticking world_abc =
    ({| status := 201; json := OneTodo "Todo created successfully" row_milk |},
     world_milk) /\
  title row_milk = trim "Buy milk" /\
  tags row_milk = None.
Proof.
  split; [reflexivity|]. split; [reflexivity|].
  destruct (created_fields_normalized sample_runtime ticking world_abc create_milk
              _ row_milk world_milk eq_refl eq_refl)
    as ((s & Hs & Ht) & _ & _ & _ & _ & Htags & _).
  injection Hs as <-. split; [apply Ht; reflexivity|exact Htags].
Defined.
(* ------------------------------------------------------------------ *)
(** ** Due dates at creation and at update *)

Lemma create_dueDate_past rt prefs p s t :
  abortEarly prefs = false ->
  parseIsoDate rt s = Some t ->
  t < now rt ->
  errors (create_dueDate rt prefs p (Some (JsString s))) =
    [{| path := p; rule := "date.min";
        detail_message := Text "Due date cannot be in the past";
        context_value := Some (JsDate t) |}].
Proof.
  intros Ha Hs Ht.
  unfold create_dueDate, Joi_date_iso, any, date_coerce, date_base.
  rewrite Hs. cbn [allow existsb prim_eqb orb only].
  unfold limit_errors. cbn [abortEarly with_messages]. rewrite Ha.
  rewrite (proj2 (Z.ltb_lt t (now rt)) Ht). reflexivity.
Qed.

(** X18.  A due date in the past is refused at creation and accepted at
    update.  Whatever else the body holds, a creation request whose
    [dueDate] parses to an instant before the time of validation is
    answered 400 with the entry "Due date cannot be in the past" on field
    [dueDate], and nothing is stored; the update schema turns the same
    text into the same date and lets it through. *)
Theorem past_dueDate_create_vs_update (rt : Runtime) (o : Oracle) (w : World)
    (raw : list (string * JsValue)) (s : string) (t : Z) :
  parseIsoDate rt s = Some t ->
  t < now rt ->
  get "dueDate" raw = Some (JsString s) ->
  (exists details,
     POST_todos rt (with_body (JsObject raw)) o w =
       ({| status := 400;
           json := Failure "VALIDATION_ERROR" "Request validation failed" details |},
        w) /\
     In {| field := "dueDate";
           entry_message := Text "Due date cannot be in the past";
           entry_value := Some (JsDate t) |} details) /\
  validateBody updateTodoSchema rt (with_body (JsObject [("dueDate", JsString s)]))
    = Next (with_body (JsObject [("dueDate", JsDate t)])).
Proof.
  intros Hs Ht Hget. split.
  - set (r := createTodoSchema rt validate_options [] (Some (JsObject raw))).
    assert (Hin : In {| path := ["dueDate"]; rule := "date.min";
                        detail_message := Text "Due date cannot be in the past";
                        context_value := Some (JsDate t) |} (errors r)).
    { unfold r, createTodoSchema.
      rewrite Joi_object_collect by reflexivity. cbv zeta.
      cbn [only optional errors].
      set (prefs := with_messages optional validate_options).
      pose proof (validate_keys_errors rt prefs [] createTodoSchema_keys raw
                    "dueDate" create_dueDate) as Hincl.
      specialize (Hincl ltac:(cbn; tauto)).
      rewrite Hget in Hincl. cbn [app] in Hincl.
      rewrite (create_dueDate_past rt prefs _ s t eq_refl Hs Ht) in Hincl.
      specialize (Hincl _ (or_introl eq_refl)).
      destruct (fst (validate_keys createTodoSchema_keys rt prefs [] raw));
        [destruct Hincl|exact Hincl]. }
    exists (map errorDetail (errors r)). split.
    + unfold POST_todos.
      apply route_respond. unfold validateBody. apply validate_rejects.
      cbn [get_property with_body req_body]. fold r.
      intros E. rewrite E in Hin. destruct Hin.
    + apply (in_map errorDetail) in Hin. exact Hin.
  - unfold validateBody, validate. cbn [get_property with_body req_body].
    unfold updateTodoSchema. rewrite Joi_object_collect by reflexivity.
    cbv zeta. unfold updateTodoSchema_keys.
    rewrite !validate_keys_cons. cbn [validate_keys fst snd app get String.eqb
      Ascii.eqb Bool.eqb].
    unfold Joi_string, Joi_boolean, Joi_array, tags_schema, description_schema,
      Joi_date_iso, any, date_coerce, date_base.
    rewrite Hs. cbn. reflexivity.
Qed.

Lemma past_dueDate_create_vs_update_witness :
  exists rt : Runtime,
    parseIsoDate rt "2020-01-01" = Some 0 /\ 0 < now rt /\
    validateBody updateTodoSchema rt
      (with_body (JsObject [("dueDate", JsString "2020-01-01")]))
    = Next (with_body (JsObject [("dueDate", JsDate 0)])).
Proof.
  exists {| isGuid := fun _ => true; parseIsoDate := fun _ => Some 0; now := 1000 |}.
  split; [reflexivity|]. split; [reflexivity|].
  exact (proj2 (past_dueDate_create_vs_update
                  {| isGuid := fun _ => true; parseIsoDate := fun _ => Some 0;
                     now := 1000 |}
                  ticking empty_world [("dueDate", JsString "2020-01-01")]
                  "2020-01-01" 0 eq_refl eq_refl eq_refl)).
Defined.
(* ------------------------------------------------------------------ *)
(** ** Errors on the way out *)

Lemma handleError_cases err :
  (unrecognized err = true /\ handleError err = err) \/
  (unrecognized err = false /\
   exists s msg, handleError err = ApiError s msg /\ In s [400; 401; 503]).
Proof.
  unfold unrecognized, handleError.
  destruct (String.eqb (name err) "ValidationError");
  destruct (code_is err "23000"); destruct (errno_is err 1062);
  destruct (code_is err "ECONNREFUSED"); destruct (code_is err "ENOTFOUND");
  destruct (String.eqb (name err) "JsonWebTokenError");
  destruct (String.eqb (name err) "TokenExpiredError"); cbn [orb negb];
  first [ left; split; reflexivity
        | right; split; [reflexivity|]; eexists _, _; split; [reflexivity|];
          cbn; tauto ].
Qed.

(** X19.  What the error handler answers.  The status is never 0 and the
    body is the failure form, its code derived from the status.  An error
    no branch is written for keeps its own status and message when it has
    a status, and otherwise becomes 500 INTERNAL_SERVER_ERROR "Something
    went wrong", its own message withheld; a recognized error is answered
    400, 401 or 503, and where several branches of [handleError] apply
    the last one decides: token errors before connection errors before
    duplicate keys before validation errors.  The error of
    [notFoundHandler] is answered 404 NOT_FOUND
    with the route in the message. *)
Theorem errorHandler_answers (err : JsError) :
  status (errorHandler err) <> 0 /\
  (exists msg, json (errorHandler err)
               = Failure (getErrorCode (status (errorHandler err))) msg []) /\
  (unrecognized err = true ->
   forall s, statusCode err = Some s -> s <> 0 ->
     errorHandler err =
       {| status := s; json := Failure (getErrorCode s) (message err) [] |}) /\
  (unrecognized err = true ->
   statusCode err = None \/ statusCode err = Some 0 ->
     errorHandler err =
       {| status := 500;
          json := Failure "INTERNAL_SERVER_ERROR" "Something went wrong" [] |}) /\
  (unrecognized err = false -> In (status (errorHandler err)) [400; 401; 503]) /\
  handleError err =
    (if String.eqb (name err) "TokenExpiredError"
     then ApiError 401 "Token expired"
     else if String.eqb (name err) "JsonWebTokenError"
     then ApiError 401 "Invalid token"
     else if (code_is err "ECONNREFUSED" || code_is err "ENOTFOUND")%bool
     then ApiError 503 "Database connection failed"
     else if (code_is err "23000" || errno_is err 1062)%bool
     then ApiError 400 "Duplicate field value entered"
     else if String.eqb (name err) "ValidationError"
     then ApiError 400 "Validation Error"
     else err) /\
  (forall url,
     errorHandler (notFoundHandler url) =
       {| status := 404;
          json := Failure "NOT_FOUND" ("Route " ++ url ++ " not found") [] |}).
Proof.
  assert (Hkeep : unrecognized err = true ->
            forall s, statusCode err = Some s -> s <> 0 ->
              errorHandler err =
                {| status := s; json := Failure (getErrorCode s) (message err) [] |}).
  { intros Hu s Hs Hs0.
    destruct (handleError_cases err) as [[_ Hh]|[Hu' _]]; [|congruence].
    unfold errorHandler. rewrite Hh, Hs.
    destruct s; [congruence| |]; unfold sendErrorResponse; now rewrite Hs. }
  assert (Hnone : unrecognized err = true ->
            statusCode err = None \/ statusCode err = Some 0 ->
              errorHandler err =
                {| status := 500;
                   json := Failure "INTERNAL_SERVER_ERROR" "Something went wrong" [] |}).
  { intros Hu Hs.
    destruct (handleError_cases err) as [[_ Hh]|[Hu' _]]; [|congruence].
    unfold errorHandler. rewrite Hh. now destruct Hs as [-> | ->]. }
  assert (Hrec : unrecognized err = false ->
            exists s msg, In s [400; 401; 503] /\
              errorHandler err =
                {| status := s; json := Failure (getErrorCode s) msg [] |}).
  { intros Hu.
    destruct (handleError_cases err) as [[Hu' _]|[_ (s & msg & Hh & Hs)]];
      [congruence|].
    exists s, msg. split; [exact Hs|].
    unfold errorHandler. rewrite Hh.
    cbn in Hs. destruct Hs as [<-|[<-|[<-|[]]]]; reflexivity. }
  split; [|split; [|split; [|split; [|split; [|split]]]]].
  - destruct (unrecognized err) eqn:Hu.
    + destruct (statusCode err) as [s|] eqn:Hs.
      * destruct (Z.eq_dec s 0) as [->|Hs0].
        -- rewrite Hnone; auto. discriminate.
        -- rewrite (Hkeep eq_refl s eq_refl Hs0). exact Hs0.
      * rewrite Hnone; auto. discriminate.
    + destruct (Hrec eq_refl) as (s & msg & Hs & ->). cbn [status].
      cbn in Hs. destruct Hs as [<-|[<-|[<-|[]]]]; discriminate.
  - destruct (unrecognized err) eqn:Hu.
    + destruct (statusCode err) as [s|] eqn:Hs.
      * destruct (Z.eq_dec s 0) as [->|Hs0].
        -- rewrite Hnone; auto. eexists. reflexivity.
        -- rewrite (Hkeep eq_refl s eq_refl Hs0). eexists. reflexivity.
      * rewrite Hnone; auto. eexists. reflexivity.
    + destruct (Hrec eq_refl) as (s & msg & Hs & ->). eexists. reflexivity.
  - exact Hkeep.
  - exact Hnone.
  - intros Hu. destruct (Hrec Hu) as (s & msg & Hs & ->). exact Hs.
  - unfold handleError.
    destruct (String.eqb (name err) "ValidationError");
    destruct (code_is err "23000"); destruct (errno_is err 1062);
    destruct (code_is err "ECONNREFUSED"); destruct (code_is err "ENOTFOUND");
    destruct (String.eqb (name err) "JsonWebTokenError");
    destruct (String.eqb (name err) "TokenExpiredError"); reflexivity.
  - intros url. reflexivity.
Qed.

(* ------------------------------------------------------------------ *)
(** ** What leaves the service *)

Lemma service_error_404 msg : service_error (ApiError 404 msg).
Proof. exists msg. now left. Qed.

Lemma service_error_500 msg : service_error (ApiError 500 msg).
Proof. exists msg. now right. Qed.

(** A catch block that throws the 500 error lets nothing else out. *)
Lemma guarded_catch_all {A} (m : M A) msg o w :
  guarded (try_catch m (fun _ => throw (ApiError 500 msg)) o w).
Proof.
  unfold guarded, try_catch. destruct (m o w) as [[e|a] w']; cbn [fst throw].
  - apply service_error_500.
  - exact I.
Qed.

Lemma tame_foreign {A} (m : M A) : foreign_call m -> tame m.
Proof. intros H o w e w' E. left. eapply H; eauto. Qed.

Lemma tame_ret {A} (a : A) : tame (ret a).
Proof. intros o w e w' E. discriminate E. Qed.

Lemma tame_throw_404 {A} msg : tame (@throw A (ApiError 404 msg)).
Proof.
  intros o w e w' E. injection E as <- _. right. apply service_error_404.
Qed.

Lemma tame_throw_foreign {A} e : instanceof_ApiError e = false -> tame (@throw A e).
Proof. intros H o w e' w' E. injection E as <- _. now left. Qed.

Lemma tame_bind {A B} (m : M A) (f : A -> M B) :
  tame m -> (forall a, tame (f a)) -> tame (bind m f).
Proof.
  intros Hm Hf o w e w' E. unfold bind in E.
  destruct (m o w) as [[e0|a] w0] eqn:Em.
  - injection E as <- <-. eapply Hm; eauto.
  - eapply Hf; eauto.
Qed.

(** A catch block that hands on [ApiError]s and turns every other error
    into the 500 error lets out only what the body threw itself. *)
Lemma guarded_rethrow {A} (m : M A) msg o w :
  tame m -> guarded (try_catch m (rethrow_or msg) o w).
Proof.
  intros Hm. unfold guarded, try_catch.
  destruct (m o w) as [[e|a] w'] eqn:E; [|exact I].
  unfold rethrow_or. destruct (instanceof_ApiError e) eqn:Ei; cbn [fst throw].
  - destruct (Hm o w e w' E) as [H|H]; [congruence|exact H].
  - apply service_error_500.
Qed.

Lemma foreign_Todo_store : foreign Todo_store.
Proof.
  assert (Hv : forall patch d, forall {A} (m : M A),
            foreign_call m -> foreign_call (fromJson patch d ;;; m)).
  { intros patch d A m Hm o w e w'.
    destruct (violations_dec patch d) as [Hok|Hbad].
    - rewrite fromJson_then by exact Hok. apply Hm.
    - rewrite fromJson_stop by exact Hbad. intros E. now injection E as <- _. }
  assert (Hread : forall {A} (f : list Todo -> A),
            foreign_call (rows <- get_table ;; ret (f rows))).
  { intros A f o w e w' E. discriminate E. }
  repeat split.
  - intros d. cbn [Todo_store store_insert]. unfold insert. apply Hv.
    intros o w e w'. run_store.
    destruct (data_title d); [|intros E; now injection E as <- _].
    match goal with |- context [if ?b then _ else _] => destruct b end;
      intros E; [now injection E as <- _|discriminate E].
  - intros i. apply Hread.
  - intros i d. cbn [Todo_store store_patchAndFetchById]. unfold patchAndFetchById.
    apply Hv. intros o w e w' E. discriminate E.
  - intros d q. cbn [Todo_store store_patch]. unfold patch_where.
    apply Hv. intros o w e w' E. discriminate E.
  - intros q o w e w' E. discriminate E.
  - intros i o w e w' E. discriminate E.
  - intros q. apply Hread.
  - intros q. apply Hread.
  - intros o w e w' E. discriminate E.
  - intros days o w e w' E. discriminate E.
Qed.

(** X20.  Only the service's own errors leave the service, whatever the
    store does.  Over any store whose errors are not [ApiError]s, every
    operation ends with a value or with an [ApiError] of status 404 or 500,
    never with an error of the store or of the runtime; the store of the
    model is such a store, and over it the operations are those of the
    service; and the handler answers a service error with its status, the
    code NOT_FOUND or INTERNAL_SERVER_ERROR and the message of the
    error. *)
Theorem service_errors_are_ApiErrors (s : Store) (o : Oracle) (w : World) :
  foreign s ->
  ((forall d, guarded (createTodo_on s d o w)) /\
   (forall opts, guarded (getAllTodos_on s opts o w)) /\
   (forall i, guarded (getTodoById_on s i o w)) /\
   (forall i d, guarded (updateTodo_on s i d o w)) /\
   (forall i, guarded (deleteTodo_on s i o w)) /\
   (forall i, guarded (toggleTodoStatus_on s i o w)) /\
   guarded (getTodoStatistics_on s o w) /\
   (forall days, guarded (getTodosDueSoon_on s days o w)) /\
   (forall ids d, guarded (bulkUpdateTodos_on s ids d o w)) /\
   (forall ids, guarded (bulkDeleteTodos_on s ids o w))) /\
  (foreign Todo_store /\
   (forall d, createTodo_on Todo_store d o w = createTodo d o w) /\
   (forall opts, getAllTodos_on Todo_store opts o w = getAllTodos opts o w) /\
   (forall i, getTodoById_on Todo_store i o w = getTodoById i o w) /\
   (forall i d, updateTodo_on Todo_store i d o w = updateTodo i d o w) /\
   (forall i, deleteTodo_on Todo_store i o w = deleteTodo i o w) /\
   (forall i, toggleTodoStatus_on Todo_store i o w = toggleTodoStatus i o w) /\
   getTodoStatistics_on Todo_store o w = getTodoStatistics o w /\
   (forall days, getTodosDueSoon_on Todo_store days o w = getTodosDueSoon days o w) /\
   (forall ids d, bulkUpdateTodos_on Todo_store ids d o w = bulkUpdateTodos ids d o w) /\
   (forall ids, bulkDeleteTodos_on Todo_store ids o w = bulkDeleteTodos ids o w)) /\
  (forall e, service_error e ->
     exists st, (st = 404 \/ st = 500) /\
       errorHandler e =
         {| status := st; json := Failure (getErrorCode st) (message e) [] |}).
Proof.
  intros (Hins & Hfind & Hpf & Hpatch & Hdel & Hdelid & Hsize & Hfetch & Hstat & Hdue).
  split; [|split].
  - split; [intros d; apply guarded_catch_all|].
    split; [intros opts; apply guarded_catch_all|].
    split.
    { intros i. apply guarded_rethrow. apply tame_bind; [now apply tame_foreign|].
      intros [t|]; [apply tame_ret|apply tame_throw_404]. }
    split.
    { intros i d. apply guarded_rethrow. apply tame_bind; [now apply tame_foreign|].
      intros [t|]; [now apply tame_foreign|apply tame_throw_404]. }
    split.
    { intros i. apply guarded_rethrow. apply tame_bind; [now apply tame_foreign|].
      intros n. destruct (n =? 0); [apply tame_throw_404|apply tame_ret]. }
    split.
    { intros i. apply guarded_rethrow. apply tame_bind; [now apply tame_foreign|].
      intros [t|]; [|apply tame_throw_404].
      apply tame_bind; [now apply tame_foreign|].
      intros [u|]; [apply tame_ret|now apply tame_throw_foreign]. }
    split; [apply guarded_catch_all|].
    split; [intros days; apply guarded_catch_all|].
    split; [intros ids d; apply guarded_catch_all|].
    intros ids; apply guarded_catch_all.
  - split; [apply foreign_Todo_store|].
    repeat split.
  - intros e [msg [-> | ->]]; [exists 404|exists 500]; split; auto.
Qed.

Lemma service_errors_are_ApiErrors_witness :
  foreign unreachable /\
  guarded (getTodoById_on unreachable (sample_uuid 0) ticking world_abc) /\
  getTodoById_on unreachable (sample_uuid 0) ticking world_abc
    = (inl (ApiError 500 "Failed to fetch todo"), world_abc).
Proof.
  assert (H : foreign unreachable).
  { repeat split; intros; intros o w e w' E; injection E as <- _; reflexivity. }
  split; [exact H|]. split; [|reflexivity].
  exact (proj1 (proj2 (proj2 (proj1
           (service_errors_are_ApiErrors unreachable ticking world_abc H))))
           (sample_uuid 0)).
Defined.

(* ------------------------------------------------------------------ *)
(** ** Bulk operations, seen one entity at a time *)

Lemma id_in_has_id i ids r : In i ids -> has_id i r = true -> id_in ids r = true.
Proof.
  intros Hin Hr. unfold id_in. apply existsb_exists. eauto.
Qed.

(** X21.  After a bulk delete every identifier of the request is unknown
    to [getTodoById], and an entity whose identifier was not in the request
    is served as before.  After a bulk update with a payload the model
    accepts, an entity whose identifier was in the request is served with
    the payload written into it and the clock reading of the update as
    [updatedAt], and one whose identifier was not in the request is served
    unchanged; a payload the model refuses (among them every one with a due
    date or an array of tags) leaves the table, the clock and the generator
    as they were. *)
Theorem bulk_then_fetch (ids : list string) (o o' : Oracle) (w : World) :
  (forall i, In i ids ->
     getTodoById i o' (snd (bulkDeleteTodos ids o w))
       = (inl (ApiError 404 "Todo not found"), snd (bulkDeleteTodos ids o w))) /\
  (forall j r,
     getTodoById j o' w = (inr r, w) -> id_in ids r = false ->
     getTodoById j o' (snd (bulkDeleteTodos ids o w))
       = (inr r, snd (bulkDeleteTodos ids o w))) /\
  (forall d j r,
     patchable d ->
     getTodoById j o' w = (inr r, w) ->
     exists t,
       getTodoById j o' (snd (bulkUpdateTodos ids d o w))
         = (inr t, snd (bulkUpdateTodos ids d o w)) /\
       id t = id r /\ createdAt t = createdAt r /\
       (id_in ids r = false -> t = r) /\
       (id_in ids r = true ->
          t = apply_patch (bulk_patch d o w) r /\
          updatedAt t = clock o (clock_reads w) /\
          completed t = or_else (data_completed d) (completed r) /\
          priority t = or_else (data_priority d) (priority r) /\
          title t = or_else (data_title d) (title r))) /\
  (forall d,
     ~ patchable d ->
     bulkUpdateTodos ids d o w =
       (inl (ApiError 500 "Failed to bulk update todos"), w)).
Proof.
  assert (Hfound : forall j r w0,
            getTodoById j o' w0 = (inr r, w0) -> find (has_id j) (table w0) = Some r).
  { intros j r w0 H. destruct (find (has_id j) (table w0)) as [x|] eqn:E.
    - rewrite (getTodoById_found _ _ _ _ E) in H. congruence.
    - rewrite (getTodoById_missing _ _ _ E) in H. discriminate. }
  split; [|split; [|split]]; [| | |intros d Hbad; now apply bulkUpdateTodos_refused].
  - intros i Hin. rewrite bulkDeleteTodos_run. cbn [snd].
    apply getTodoById_missing. cbn [with_table table].
    apply find_filter_none. intros x _ Hx.
    now rewrite (id_in_has_id i ids x Hin Hx).
  - intros j r Hget Hr. rewrite bulkDeleteTodos_run. cbn [snd].
    apply getTodoById_found. cbn [with_table table].
    apply find_filter_kept; [now apply Hfound|]. now rewrite Hr.
  - intros d j r Hok Hget. rewrite bulkUpdateTodos_run by exact Hok. cbn [snd].
    apply Hfound in Hget.
    exists (if id_in ids r then apply_patch (bulk_patch d o w) r else r).
    split.
    { apply getTodoById_found. cbn [after_update table].
      now rewrite find_update_where_other, Hget. }
    destruct (stringify_tags_fields d) as (E1 & E2 & E3 & E4 & E5 & E6).
    destruct (id_in ids r); cbn; rewrite ?E1, ?E3, ?E4;
      repeat split; congruence.
Qed.
(* ------------------------------------------------------------------ *)
(** ** The uptime of the health report *)

Lemma Qfloor_unique (x : Q) (n : Z) :
  (inject_Z n <= x)%Q -> (x < inject_Z (n + 1))%Q -> Qfloor x = n.
Proof.
  intros Hl Hu.
  pose proof (Qfloor_le x) as H1. pose proof (Qlt_floor x) as H2.
  assert (Ha : (inject_Z (Qfloor x) < inject_Z (n + 1))%Q)
    by (eapply Qle_lt_trans; eassumption).
  assert (Hb : (inject_Z n < inject_Z (Qfloor x + 1))%Q)
    by (eapply Qle_lt_trans; eassumption).
  rewrite <- Zlt_Qlt in Ha, Hb. lia.
Qed.

Lemma Qfloor_nonneg (x : Q) : (0 <= x)%Q -> 0 <= Qfloor x.
Proof.
  intros H. change 0 with (Qfloor (inject_Z 0)). now apply Qfloor_resp_le.
Qed.

Lemma Qfloor_div_Z (x : Q) (m : Z) :
  0 < m -> Qfloor (x / inject_Z m) = Qfloor x / m.
Proof.
  intros Hm.
  assert (Hm' : (0 < inject_Z m)%Q)
    by (change (inject_Z 0 < inject_Z m)%Q; now rewrite <- Zlt_Qlt).
  apply Qfloor_unique.
  - apply Qle_shift_div_l; [exact Hm'|].
    rewrite <- inject_Z_mult.
    eapply Qle_trans; [|apply Qfloor_le].
    rewrite <- Zle_Qle. pose proof (Z.mul_div_le (Qfloor x) m Hm). lia.
  - apply Qlt_shift_div_r; [exact Hm'|].
    rewrite <- inject_Z_mult.
    eapply Qlt_le_trans; [apply Qlt_floor|].
    rewrite <- Zle_Qle.
    pose proof (Z.mul_succ_div_gt (Qfloor x) m Hm). lia.
Qed.

Lemma Qfloor_minus_Z (x : Q) (z : Z) : Qfloor (x - inject_Z z) = Qfloor x - z.
Proof.
  apply Qfloor_unique.
  - unfold Z.sub. rewrite inject_Z_plus, inject_Z_opp.
    apply Qplus_le_l. apply Qfloor_le.
  - replace (Qfloor x - z + 1) with ((Qfloor x + 1) + - z) by lia.
    rewrite inject_Z_plus, inject_Z_opp.
    apply Qplus_lt_l. apply Qlt_floor.
Qed.

Lemma Math_trunc_nonneg (x : Q) : (0 <= x)%Q -> Math_trunc x = Qfloor x.
Proof.
  intros H. unfold Math_trunc.
  now rewrite (proj2 (Qle_bool_iff 0 x) H).
Qed.

Lemma Qdiv_nonneg (x : Q) (m : Z) : (0 <= x)%Q -> 0 < m -> (0 <= x / inject_Z m)%Q.
Proof.
  intros Hx Hm. apply Qle_shift_div_l.
  - change (inject_Z 0 < inject_Z m)%Q. now rewrite <- Zlt_Qlt.
  - now rewrite Qmult_0_l.
Qed.

(** The whole seconds of a remainder. *)
Lemma Qfloor_js_rem (x : Q) (m : Z) :
  (0 <= x)%Q -> 0 < m -> Qfloor (js_rem x m) = Qfloor x mod m.
Proof.
  intros Hx Hm. unfold js_rem.
  rewrite Math_trunc_nonneg by now apply Qdiv_nonneg.
  rewrite Qfloor_minus_Z, Qfloor_div_Z by exact Hm.
  rewrite Z.mod_eq by lia. reflexivity.
Qed.

Lemma js_rem_nonneg (x : Q) (m : Z) : (0 <= x)%Q -> 0 < m -> (0 <= js_rem x m)%Q.
Proof.
  intros Hx Hm. unfold js_rem.
  rewrite Math_trunc_nonneg by now apply Qdiv_nonneg.
  rewrite Qfloor_div_Z by exact Hm.
  apply (Qplus_le_l _ _ (inject_Z (m * (Qfloor x / m)))).
  ring_simplify.
  eapply Qle_trans; [|apply (Qfloor_le x)].
  rewrite <- Zle_Qle. apply Z.mul_div_le. exact Hm.
Qed.

Lemma uptime_parts_run (seconds : Q) :
  (0 <= seconds)%Q ->
  let n := Qfloor seconds in
  uptime_parts seconds =
    ((if 0 <? n / 86400 then [(n / 86400, "d")] else []) ++
     (if 0 <? n mod 86400 / 3600 then [(n mod 86400 / 3600, "h")] else []) ++
     (if 0 <? n mod 3600 / 60 then [(n mod 3600 / 60, "m")] else []) ++
     (if 0 <? n mod 60 then [(n mod 60, "s")] else []))%list.
Proof.
  intros H n. unfold uptime_parts, Math_floor.
  change (86400%Q) with (inject_Z 86400).
  change (3600%Q) with (inject_Z 3600).
  change (60%Q) with (inject_Z 60).
  rewrite !Qfloor_div_Z by lia.
  rewrite !Qfloor_js_rem by (assumption || lia).
  reflexivity.
Qed.

(** X22.  The uptime shown by the health report accounts for every whole
    second: for a duration that is not negative the components, in days,
    hours, minutes and seconds, add up to the whole seconds of the
    duration; each component shown is positive, hours stay below 24 and
    minutes and seconds below 60; and a duration under one second, for
    which no component is left, is shown as "0s". *)
Theorem formatUptime_accounts (seconds : Q) :
  (0 <= seconds)%Q ->
  parts_seconds (uptime_parts seconds) = Qfloor seconds /\
  (forall n u, In (n, u) (uptime_parts seconds) ->
     0 < n /\
     (u = "d" \/ u = "h" /\ n < 24 \/ u = "m" /\ n < 60 \/ u = "s" /\ n < 60)) /\
  (uptime_parts seconds = [] <-> (seconds < 1)%Q) /\
  ((seconds < 1)%Q -> formatUptime seconds = "0s").
Proof.
  intros H.
  pose proof (Qfloor_nonneg seconds H) as Hn.
  rewrite (uptime_parts_run seconds H). cbv zeta.
  set (n := Qfloor seconds) in *.
  assert (Hempty : ((if 0 <? n / 86400 then [(n / 86400, "d")] else []) ++
     (if 0 <? n mod 86400 / 3600 then [(n mod 86400 / 3600, "h")] else []) ++
     (if 0 <? n mod 3600 / 60 then [(n mod 3600 / 60, "m")] else []) ++
     (if 0 <? n mod 60 then [(n mod 60, "s")] else []))%list = [] <-> n = 0).
  { destruct (0 <? n / 86400) eqn:E1; destruct (0 <? n mod 86400 / 3600) eqn:E2;
    destruct (0 <? n mod 3600 / 60) eqn:E3; destruct (0 <? n mod 60) eqn:E4;
    cbn [app]; rewrite ?Z.ltb_lt, ?Z.ltb_ge in *;
    (split; intros Hx; try discriminate Hx; try reflexivity);
    first [ Z.to_euclidean_division_equations; lia
          | exfalso; clear Hx; Z.to_euclidean_division_equations; lia
          | exfalso; Z.to_euclidean_division_equations; lia ]. }
  assert (Hlt : n = 0 <-> (seconds < 1)%Q).
  { split.
    - intros H0. pose proof (Qlt_floor seconds) as Hf. fold n in Hf.
      now rewrite H0 in Hf.
    - intros H1. apply Qfloor_unique; [exact H|exact H1]. }
  split; [|split; [|split]].
  - destruct (0 <? n / 86400) eqn:E1; destruct (0 <? n mod 86400 / 3600) eqn:E2;
    destruct (0 <? n mod 3600 / 60) eqn:E3; destruct (0 <? n mod 60) eqn:E4;
    cbn [app parts_seconds unit_seconds String.eqb Ascii.eqb Bool.eqb];
    rewrite ?Z.ltb_lt, ?Z.ltb_ge in *;
    Z.to_euclidean_division_equations; lia.
  - intros k u Hin.
    repeat (apply in_app_or in Hin as [Hin|Hin]);
      match type of Hin with
      | In _ (if ?b then _ else _) => destruct b eqn:E; [|destruct Hin]
      end;
      destruct Hin as [Hin|[]]; injection Hin as <- <-;
      apply Z.ltb_lt in E; (split; [exact E|]).
    + now left.
    + right; left. split; [reflexivity|].
      Z.to_euclidean_division_equations; lia.
    + right; right; left. split; [reflexivity|].
      Z.to_euclidean_division_equations; lia.
    + right; right; right. split; [reflexivity|].
      Z.to_euclidean_division_equations; lia.
  - now rewrite Hempty.
  - intros H1. unfold formatUptime.
    rewrite (uptime_parts_run seconds H). cbv zeta. fold n.
    rewrite (proj2 Hempty (proj2 Hlt H1)). reflexivity.
Qed.

Lemma formatUptime_accounts_witness :
  (0 <= 93784.5)%Q /\
  formatUptime 93784.5 = "1d 2h 3m 4s" /\
  parts_seconds (uptime_parts 93784.5) = 93784.
Proof.
  split; [discriminate|]. split; [reflexivity|].
  assert (H : (0 <= 93784.5)%Q) by discriminate.
  exact (eq_trans (proj1 (formatUptime_accounts 93784.5 H)) eq_refl).
Defined.

(* ------------------------------------------------------------------ *)
(** ** The database names of the connection settings *)

Lemma append_not_empty a b : b <> EmptyString -> (a ++ b)%string <> EmptyString.
Proof. destruct a; simpl; [auto|discriminate]. Qed.

Lemma length_append_string a b :
  String.length (a ++ b)%string = (String.length a + String.length b)%nat.
Proof. induction a as [|c a IH]; simpl; congruence. Qed.

Lemma append_cancel_r a : forall b u, (a ++ u)%string = (b ++ u)%string -> a = b.
Proof.
  induction a as [|c a IH]; intros [|d b] u E; simpl in E.
  - reflexivity.
  - apply (f_equal String.length) in E. simpl in E.
    rewrite length_append_string in E. lia.
  - apply (f_equal String.length) in E. simpl in E.
    rewrite length_append_string in E. lia.
  - injection E as -> E. f_equal. now apply (IH b u).
Qed.

(** X23.  The name of the test database never falls back: it is the value
    of [DB_NAME] followed by "_test", and with [DB_NAME] unset it is
    "undefined_test", not the "todoapp_test" written after [||]; the
    development name does fall back to "todoapp" when [DB_NAME] is unset
    or empty. *)
Theorem test_database_never_falls_back (DB_NAME : option string) :
  test_database DB_NAME = (env_text DB_NAME ++ "_test")%string /\
  test_database None = "undefined_test" /\
  (test_database DB_NAME = "todoapp_test" <-> DB_NAME = Some "todoapp") /\
  development_database None = "todoapp" /\
  development_database (Some EmptyString) = "todoapp" /\
  (forall s, s <> EmptyString -> development_database (Some s) = s).
Proof.
  assert (H : test_database DB_NAME = (env_text DB_NAME ++ "_test")%string).
  { unfold test_database, or_default, truthy.
    destruct (env_text DB_NAME ++ "_test")%string eqn:E; [|reflexivity].
    exfalso. revert E. apply append_not_empty. discriminate. }
  split; [exact H|]. split; [reflexivity|]. split; [|split; [|split]].
  - rewrite H. split.
    + intros E. destruct DB_NAME as [s|]; [|discriminate E].
      f_equal. cbn [env_text] in E.
      now apply (append_cancel_r s "todoapp" "_test").
    + now intros ->.
  - reflexivity.
  - reflexivity.
  - intros s Hs. destruct s; [congruence|reflexivity].
Qed.
(* ------------------------------------------------------------------ *)
(** ** Letter case in the search *)

Lemma lower_idem c : lower (lower c) = lower c.
Proof. destruct c as [[] [] [] [] [] [] [] []]; reflexivity. Qed.

Lemma lower_percent c : Ascii.eqb (lower c) "%" = Ascii.eqb c "%".
Proof. destruct c as [[] [] [] [] [] [] [] []]; reflexivity. Qed.

Lemma lower_underscore c : Ascii.eqb (lower c) "_" = Ascii.eqb c "_".
Proof. destruct c as [[] [] [] [] [] [] [] []]; reflexivity. Qed.

Lemma lower_backslash c : Ascii.eqb (lower c) "\" = Ascii.eqb c "\".
Proof. destruct c as [[] [] [] [] [] [] [] []]; reflexivity. Qed.

Lemma like_tokens_cons c rest :
  like_tokens (String c rest) =
    if Ascii.eqb c "%" then AnySequence :: like_tokens rest
    else if Ascii.eqb c "_" then AnyChar :: like_tokens rest
    else if Ascii.eqb c "\" then
      match rest with
      | String c2 rest2 => Literal c2 :: like_tokens rest2
      | EmptyString => [Literal c]
      end
    else Literal c :: like_tokens rest.
Proof.
  destruct c as [[] [] [] [] [] [] [] []]; destruct rest; reflexivity.
Qed.

Lemma like_tokens_fold p :
  like_tokens (fold_case p) = map fold_token (like_tokens p).
Proof.
  enough (H : like_tokens (fold_case p) = map fold_token (like_tokens p) /\
              forall c, like_tokens (fold_case (String c p))
                        = map fold_token (like_tokens (String c p)))
    by apply H.
  induction p as [|a p [IH1 IH2]].
  - split; [reflexivity|]. intros c. cbn [fold_case].
    rewrite !like_tokens_cons, lower_percent, lower_underscore, lower_backslash.
    destruct (Ascii.eqb c "%"); [reflexivity|].
    destruct (Ascii.eqb c "_"); [reflexivity|].
    destruct (Ascii.eqb c "\"); reflexivity.
  - split; [apply IH2|]. intros c.
    change (fold_case (String c (String a p)))
      with (String (lower c) (fold_case (String a p))).
    rewrite (like_tokens_cons (lower c)), (like_tokens_cons c).
    rewrite lower_percent, lower_underscore, lower_backslash.
    destruct (Ascii.eqb c "%"); [cbn [map fold_token]; now rewrite IH2|].
    destruct (Ascii.eqb c "_"); [cbn [map fold_token]; now rewrite IH2|].
    destruct (Ascii.eqb c "\").
    + cbn [fold_case map fold_token]. now rewrite IH1.
    + cbn [map fold_token]. now rewrite IH2.
Qed.

Lemma like_match_fold toks : forall t,
  like_match case_insensitive toks t
  = like_match case_insensitive (map fold_token toks) (fold_case t).
Proof.
  induction toks as [|tok toks IH]; intros t.
  - destruct t; reflexivity.
  - destruct tok as [| |c]; cbn [map fold_token].
    + induction t as [|d t IHt].
      * rewrite (like_match_skip case_insensitive toks EmptyString).
        cbn [fold_case].
        rewrite (like_match_skip case_insensitive (map fold_token toks) EmptyString).
        now rewrite IH.
      * rewrite (like_match_skip case_insensitive toks (String d t)).
        cbn [fold_case].
        rewrite (like_match_skip case_insensitive (map fold_token toks)
                   (String (lower d) (fold_case t))).
        now rewrite IH, IHt.
    + destruct t as [|d t]; [reflexivity|]. cbn [like_match fold_case]. apply IH.
    + destruct t as [|d t]; [reflexivity|]. cbn [like_match fold_case char_eqb].
      now rewrite !lower_idem, IH.
Qed.

Lemma fold_case_app a b : fold_case (a ++ b) = (fold_case a ++ fold_case b)%string.
Proof. induction a as [|c a IH]; simpl; congruence. Qed.

(** The operator reads the pattern and the text up to letter case. *)
Lemma like_fold p t :
  like case_insensitive p t
  = like_match case_insensitive (like_tokens (fold_case p)) (fold_case t).
Proof. unfold like. now rewrite like_match_fold, like_tokens_fold. Qed.

Lemma like_same_case p p' t t' :
  fold_case p = fold_case p' -> fold_case t = fold_case t' ->
  like case_insensitive p t = like case_insensitive p' t'.
Proof. intros Hp Ht. rewrite !like_fold. now rewrite Hp, Ht. Qed.

Lemma search_pattern_fold s s' :
  fold_case s = fold_case s' ->
  fold_case (search_pattern s) = fold_case (search_pattern s').
Proof.
  intros H. unfold search_pattern. rewrite !fold_case_app. now rewrite H.
Qed.

Lemma fold_case_empty s : fold_case s = EmptyString <-> s = EmptyString.
Proof. destruct s; simpl; split; congruence. Qed.

Lemma search_predicate_same_case s s' r r' :
  fold_case s = fold_case s' -> same_text r r' ->
  search_predicate (Some s) r = search_predicate (Some s') r'.
Proof.
  intros Hs [Ht Hd]. unfold search_predicate, truthy.
  destruct s as [|c s]; destruct s' as [|c' s']; try discriminate; [reflexivity|].
  unfold search_clause, holds. cbn [eval_where column_value collation sql_like].
  pose proof (search_pattern_fold _ _ Hs) as Hp.
  rewrite (like_same_case _ _ _ _ Hp Ht).
  destruct (description r) as [d|], (description r') as [d'|];
    try discriminate; cbn [of_option sql_like]; [|reflexivity].
  injection Hd as Hd. now rewrite (like_same_case _ _ _ _ Hp Hd).
Qed.

Lemma matching_with_search opts s s' rows :
  fold_case s = fold_case s' ->
  matching (with_search opts s) rows = matching (with_search opts s') rows.
Proof.
  intros H. unfold matching. apply filter_ext. intros r.
  unfold filters_of. rewrite !selected_build_filters.
  cbn [with_search Options.status Options.priority Options.search Options.tag].
  f_equal. f_equal. apply search_predicate_same_case; [exact H|]. now split.
Qed.

(** X24.  The search does not look at letter case.  Two search texts that
    are equal up to case select the same rows, whatever the case of the
    title and the description stored, and a list request answers them with
    the same rows and the same pagination.  The tag filter, which reads
    the serialized tags, does tell "WORK" from "work". *)
Theorem search_ignores_letter_case (s s' : string) :
  fold_case s = fold_case s' ->
  (forall r r', same_text r r' ->
     search_predicate (Some s) r = search_predicate (Some s') r') /\
  (forall opts o w,
     exists res res',
       getAllTodos (with_search opts s) o w = (inr res, w) /\
       getAllTodos (with_search opts s') o w = (inr res', w) /\
       data res = data res' /\
       pagination res = pagination res') /\
  tag_predicate (Some "work") row_abc = true /\
  tag_predicate (Some "WORK") row_abc = false.
Proof.
  intros H. split; [|split; [|split; reflexivity]].
  - intros r r' Hr. now apply search_predicate_same_case.
  - intros opts o w.
    destruct (getAllTodos_run (with_search opts s) o w)
      as (res & Hrun & Hdata & H1 & H2 & H3 & H4 & H5 & H6).
    destruct (getAllTodos_run (with_search opts s') o w)
      as (res' & Hrun' & Hdata' & H1' & H2' & H3' & H4' & H5' & H6').
    exists res, res'. split; [exact Hrun|]. split; [exact Hrun'|].
    assert (Hm : sorted_matching (with_search opts s) (table w)
                 = sorted_matching (with_search opts s') (table w)).
    { unfold sorted_matching. now rewrite (matching_with_search opts s s' _ H). }
    split.
    + rewrite Hdata, Hdata', Hm. reflexivity.
    + rewrite (matching_with_search opts s s' _ H) in H3.
      change (limit_of (with_search opts s)) with (limit_of opts) in *.
      change (limit_of (with_search opts s')) with (limit_of opts) in *.
      change (page_of (with_search opts s)) with (page_of opts) in *.
      change (page_of (with_search opts s')) with (page_of opts) in *.
      destruct (pagination res), (pagination res'). cbn in *. congruence.
Qed.

Lemma search_ignores_letter_case_witness :
  fold_case "ABC" = fold_case "abc" /\
  search_predicate (Some "ABC") row_abc = search_predicate (Some "abc") row_abc /\
  search_predicate (Some "abc") row_abc = true.
Proof.
  split; [reflexivity|]. split; [|reflexivity].
  apply (proj1 (search_ignores_letter_case "ABC" "abc" eq_refl)). now split.
Defined.
(* ------------------------------------------------------------------ *)
(** ** Validation of a validated request *)

Lemma rev_string_app acc s : rev_string acc s = (rev_string EmptyString s ++ acc)%string.
Proof.
  revert acc. induction s as [|c s IH]; intros acc; simpl; [reflexivity|].
  rewrite (IH (String c acc)), (IH (String c EmptyString)).
  now rewrite append_assoc_string.
Qed.

Lemma append_empty_r s : (s ++ EmptyString)%string = s.
Proof. induction s as [|c s IH]; simpl; congruence. Qed.

Lemma rev_string_append a b :
  rev_string EmptyString (a ++ b)
  = (rev_string EmptyString b ++ rev_string EmptyString a)%string.
Proof.
  induction a as [|c a IH]; simpl.
  - now rewrite append_empty_r.
  - rewrite (rev_string_app (String c EmptyString) (a ++ b)), IH.
    rewrite (rev_string_app (String c EmptyString) a).
    now rewrite append_assoc_string.
Qed.

Lemma rev_string_involutive s :
  rev_string EmptyString (rev_string EmptyString s) = s.
Proof.
  induction s as [|c s IH]; simpl; [reflexivity|].
  rewrite (rev_string_app (String c EmptyString) s), rev_string_append, IH.
  reflexivity.
Qed.

Lemma trim_left_clean s : starts_clean (trim_left s).
Proof.
  induction s as [|c s IH]; simpl; [exact I|].
  destruct (is_space c) eqn:E; [exact IH|exact E].
Qed.

Lemma trim_left_of_clean s : starts_clean s -> trim_left s = s.
Proof. destruct s as [|c s]; simpl; [reflexivity|]. now intros ->. Qed.

Lemma trim_left_suffix s : exists pre, s = (pre ++ trim_left s)%string.
Proof.
  induction s as [|c s [pre IH]]; simpl.
  - now exists EmptyString.
  - destruct (is_space c).
    + exists (String c pre). simpl. now rewrite <- IH.
    + now exists EmptyString.
Qed.

Lemma starts_clean_prefix a b : starts_clean (a ++ b) -> starts_clean a.
Proof. destruct a; simpl; auto. Qed.

Lemma trim_idempotent s : trim (trim s) = trim s.
Proof.
  unfold trim.
  set (a := trim_left s).
  set (b := trim_left (rev_string EmptyString a)).
  assert (Hb : starts_clean b) by apply trim_left_clean.
  assert (Hr : starts_clean (rev_string EmptyString b)).
  { destruct (trim_left_suffix (rev_string EmptyString a)) as [pre Hpre].
    fold b in Hpre.
    assert (Ha : a = (rev_string EmptyString b ++ rev_string EmptyString pre)%string).
    { rewrite <- rev_string_append, <- Hpre. now rewrite rev_string_involutive. }
    apply (starts_clean_prefix _ (rev_string EmptyString pre)).
    rewrite <- Ha. apply trim_left_clean. }
  rewrite (trim_left_of_clean _ Hr), rev_string_involutive.
  now rewrite (trim_left_of_clean _ Hb).
Qed.

(** A type whose checks return the value they were given. *)
Lemma any_idempotent a coerce base :
  (forall rt x, coerce rt (coerce rt x) = coerce rt x) ->
  (forall rt prefs p x, value (base rt prefs p x) = Some x) ->
  (forall rt prefs p d,
     default a = Some d ->
     abortEarly prefs = false ->
     errors (any a coerce base rt prefs p (Some d)) = [] /\
     value (any a coerce base rt prefs p (Some d)) = Some d) ->
  idempotent (any a coerce base).
Proof.
  intros Hco Hval Hdef rt prefs p v Ha _.
  destruct v as [x|].
  - assert (Hv : value (any a coerce base rt prefs p (Some x)) = Some (coerce rt x)).
    { unfold any. cbn [abortEarly with_messages]. rewrite Ha.
      destruct (existsb (prim_eqb (coerce rt x)) (allow a)); [reflexivity|].
      destruct (only a); cbn [value failed]; apply Hval. }
    assert (Hsame : any a coerce base rt prefs p (Some (coerce rt x))
                    = any a coerce base rt prefs p (Some x)).
    { unfold any. now rewrite Hco. }
    intros Herr. rewrite Hv, Hsame. auto.
  - destruct (required a) eqn:Er.
    + unfold any at 1. rewrite Er. discriminate.
    + assert (Hn : any a coerce base rt prefs p None = passed (default a))
        by (unfold any; now rewrite Er).
      intros _. rewrite Hn. cbn [value passed].
      destruct (default a) as [d|] eqn:Ed.
      * now apply Hdef.
      * rewrite Hn. cbn. auto.
Qed.

Lemma string_coerce_idem trimmed rt x :
  string_coerce trimmed rt (string_coerce trimmed rt x) = string_coerce trimmed rt x.
Proof.
  destruct x; try reflexivity. unfold string_coerce.
  destruct trimmed; [|reflexivity]. now rewrite trim_idempotent.
Qed.

Lemma string_base_value min max guid rt prefs p x :
  value (string_base min max guid rt prefs p x) = Some x.
Proof. destruct x as [| | |s| | |]; try reflexivity. now destruct s. Qed.

Lemma boolean_coerce_idem rt x :
  boolean_coerce rt (boolean_coerce rt x) = boolean_coerce rt x.
Proof.
  destruct x; try reflexivity. unfold boolean_coerce.
  destruct (text_eqb case_insensitive s "true") eqn:E1; [reflexivity|].
  destruct (text_eqb case_insensitive s "false") eqn:E2; [reflexivity|].
  now rewrite E1, E2.
Qed.

Lemma boolean_base_value rt prefs p x : value (boolean_base rt prefs p x) = Some x.
Proof. now destruct x. Qed.

Lemma date_coerce_idem rt x : date_coerce rt (date_coerce rt x) = date_coerce rt x.
Proof.
  destruct x as [|b|n|s|t|xs|ps]; try reflexivity; unfold date_coerce.
  - destruct (parseIsoDate rt (number_text n)) eqn:E; [reflexivity|]. now rewrite E.
  - destruct (parseIsoDate rt s) eqn:E; [reflexivity|]. now rewrite E.
Qed.

Lemma date_base_value min_now rt prefs p x :
  value (date_base min_now rt prefs p x) = Some x.
Proof.
  destruct x; try reflexivity. unfold date_base.
  now destruct (min_now && (t <? now rt))%bool.
Qed.

Lemma Joi_string_idempotent trimmed min max guid a :
  default a = None -> idempotent (Joi_string trimmed min max guid a).
Proof.
  intros Hd. apply any_idempotent.
  - apply string_coerce_idem.
  - apply string_base_value.
  - intros rt prefs p d Ed. congruence.
Qed.

Lemma Joi_boolean_idempotent a :
  default a = None -> idempotent (Joi_boolean a).
Proof.
  intros Hd. apply any_idempotent.
  - apply boolean_coerce_idem.
  - apply boolean_base_value.
  - intros rt prefs p d Ed. congruence.
Qed.

Lemma Joi_date_iso_idempotent min_now a :
  default a = None -> idempotent (Joi_date_iso min_now a).
Proof.
  intros Hd. apply any_idempotent.
  - apply date_coerce_idem.
  - apply date_base_value.
  - intros rt prefs p d Ed. congruence.
Qed.

Lemma create_priority_idempotent : idempotent create_priority.
Proof.
  apply any_idempotent.
  - apply string_coerce_idem.
  - apply string_base_value.
  - intros rt prefs p d [= <-] Ha. unfold any. cbn. auto.
Qed.

Lemma create_completed_idempotent : idempotent create_completed.
Proof.
  apply any_idempotent.
  - apply boolean_coerce_idem.
  - apply boolean_base_value.
  - intros rt prefs p d [= <-] Ha. unfold any, limit_errors. cbn. rewrite Ha. auto.
Qed.

Lemma validate_items_idem items rt prefs p xs :
  idempotent items ->
  abortEarly prefs = false ->
  stripUnknown prefs = true ->
  forall i,
  fst (validate_items items rt prefs p i xs) = [] ->
  validate_items items rt prefs p i (snd (validate_items items rt prefs p i xs))
  = ([], snd (validate_items items rt prefs p i xs)).
Proof.
  intros Hi Ha Hs. induction xs as [|x xs IH]; intros i; [reflexivity|].
  rewrite validate_items_cons. cbn [fst snd]. intros H.
  apply errors_app_nil in H as [H1 H2].
  rewrite validate_items_cons, (IH _ H2). cbn [fst snd].
  destruct (Hi rt prefs (p ++ [index_name i])%list (Some x) Ha Hs H1) as [E1 E2].
  destruct (value (items rt prefs (p ++ [index_name i])%list (Some x))) as [y|] eqn:Ev;
    cbn [or_else] in *.
  - rewrite E1, E2. reflexivity.
  - rewrite H1, Ev. reflexivity.
Qed.

Lemma validate_items_length items rt prefs p xs : forall i,
  List.length (snd (validate_items items rt prefs p i xs)) = List.length xs.
Proof.
  induction xs as [|x xs IH]; intros i; [reflexivity|].
  rewrite validate_items_cons. cbn [snd List.length]. now rewrite IH.
Qed.

Lemma allow_list_skips_arrays xs allowed :
  existsb (prim_eqb (JsArray xs)) allowed = false.
Proof. induction allowed as [|a l IH]; [reflexivity|]. now destruct a. Qed.

Lemma Joi_array_idempotent items min max a :
  idempotent items -> default a = None -> idempotent (Joi_array items min max a).
Proof.
  intros Hi Hd rt prefs p v Ha Hs.
  destruct v as [x|].
  - unfold Joi_array, any, no_coerce. cbn [abortEarly with_messages]. rewrite Ha.
    set (prefs' := with_messages a prefs).
    assert (Ha' : abortEarly prefs' = false) by exact Ha.
    assert (Hs' : stripUnknown prefs' = true) by exact Hs.
    destruct (existsb (prim_eqb x) (allow a)) eqn:E; cbn [passed failed errors value].
    + rewrite E. cbn. auto.
    + destruct (only a) eqn:Eo; cbn [errors value]; [discriminate|].
      unfold limit_errors. rewrite Ha'.
      destruct x as [| | | | |xs|]; cbn [array_base errors value failed];
        try discriminate.
      pose proof (validate_items_idem items rt prefs' p xs Hi Ha' Hs' 0%nat) as Hidem.
      pose proof (validate_items_length items rt prefs' p xs 0%nat) as Hlen.
      destruct (validate_items items rt prefs' p 0 xs) as [es vs].
      cbn [fst snd] in Hidem, Hlen.
      destruct es as [|e es]; cbn [errors value failed app]; [|discriminate].
      intros Hrules. rewrite allow_list_skips_arrays.
      cbn [array_base]. rewrite (Hidem eq_refl). cbn [errors value failed app].
      split; [|reflexivity].
      unfold list_length in *. rewrite Hlen. exact Hrules.
  - unfold Joi_array. destruct (required a) eqn:Er.
    + unfold any at 1. rewrite Er. discriminate.
    + assert (Hn : any a no_coerce (array_base items min max) rt prefs p None
                   = passed None) by (unfold any; now rewrite Er, Hd).
      intros _. rewrite Hn. cbn [value passed]. rewrite Hn. cbn. auto.
Qed.

Lemma schema_for_In k s keys :
  NoDup (map fst keys) -> In (k, s) keys -> schema_for k keys = Some s.
Proof.
  induction keys as [|[k' s'] keys IH]; cbn [map fst]; intros Hnd Hin;
    [destruct Hin|].
  inversion Hnd as [|? ? Hnot Hnd']; subst. cbn [schema_for].
  destruct Hin as [[= -> ->]|Hin].
  - now rewrite String.eqb_refl.
  - destruct (String.eqb k k') eqn:E; [|now apply IH].
    apply String.eqb_eq in E. subst. exfalso. apply Hnot.
    apply in_map_iff. now exists (k', s).
Qed.

(** Validating the output of a validation that passed. *)
Lemma validate_keys_idem keys rt prefs p input :
  NoDup (map fst keys) ->
  Forall (fun ks => idempotent (snd ks)) keys ->
  abortEarly prefs = false ->
  stripUnknown prefs = true ->
  fst (validate_keys keys rt prefs p input) = [] ->
  validate_keys keys rt prefs p (snd (validate_keys keys rt prefs p input))
  = ([], snd (validate_keys keys rt prefs p input)).
Proof.
  intros Hnd Hall Ha Hs Hpass.
  set (out := snd (validate_keys keys rt prefs p input)).
  assert (Hget : forall k s, In (k, s) keys ->
            get k out = value (s rt prefs (p ++ [k])%list (get k input))).
  { intros k s Hin. unfold out. rewrite (get_validate_keys rt prefs p keys input k Hnd).
    now rewrite (schema_for_In k s keys Hnd Hin). }
  assert (Herr : forall k s, In (k, s) keys ->
            errors (s rt prefs (p ++ [k])%list (get k input)) = []).
  { intros k s Hin. now apply (validate_keys_passed rt prefs p keys input k s Hin). }
  assert (Hsub : forall ks, incl ks keys ->
            validate_keys ks rt prefs p out
            = ([], snd (validate_keys ks rt prefs p input))).
  { induction ks as [|[k s] ks IH]; intros Hincl; [reflexivity|].
    assert (Hin : In (k, s) keys) by (apply Hincl; now left).
    rewrite !validate_keys_cons. rewrite IH by (intros x Hx; apply Hincl; now right).
    cbn [fst snd]. rewrite (Hget k s Hin).
    rewrite Forall_forall in Hall.
    destruct (Hall (k, s) Hin rt prefs (p ++ [k])%list (get k input) Ha Hs
                (Herr k s Hin)) as [E1 E2].
    cbn [snd] in E1, E2. now rewrite E1, E2. }
  apply Hsub. apply incl_refl.
Qed.

Lemma Joi_object_idempotent keys min a :
  NoDup (map fst keys) ->
  Forall (fun ks => idempotent (snd ks)) keys ->
  default a = None ->
  idempotent (Joi_object keys min a).
Proof.
  intros Hnd Hall Hd rt prefs p v Ha Hs.
  destruct v as [x|].
  - destruct x as [| | | | | |input].
    1-6: unfold Joi_object, any, no_coerce; cbn [abortEarly with_messages];
         rewrite Ha;
         match goal with |- context [existsb ?f ?l] => destruct (existsb f l) eqn:E end;
         cbn [passed failed errors value];
         [rewrite E; cbn; auto
         |destruct (only a); cbn [errors value object_base failed];
          unfold limit_errors; cbn [abortEarly with_messages]; rewrite ?Ha;
          discriminate].
    intros Herr.
    pose proof (Joi_object_passed keys min a rt prefs p input Ha Hs) as Hp.
    cbv zeta in Hp. destruct (Hp Herr) as (Hkeys & Hval & Hmin).
    rewrite Hval.
    pose proof (Joi_object_collect keys min a rt prefs p input Ha Hs) as Hc.
    cbv zeta in Hc. rewrite Hc in Herr. cbn [errors] in Herr.
    rewrite (Joi_object_collect keys min a rt prefs p _ Ha Hs). cbv zeta.
    rewrite (validate_keys_idem keys rt (with_messages a prefs) p input Hnd Hall Ha Hs Hkeys).
    cbn [fst snd errors value]. rewrite Hmin.
    destruct (only a); [|auto].
    rewrite Hkeys, Hmin in Herr. discriminate.
  - unfold Joi_object. destruct (required a) eqn:Er.
    + unfold any at 1. rewrite Er. discriminate.
    + assert (Hn : any a no_coerce (object_base keys min) rt prefs p None
                   = passed None) by (unfold any; now rewrite Er, Hd).
      intros _. rewrite Hn. cbn [value passed]. rewrite Hn. cbn. auto.
Qed.

Lemma tags_schema_idempotent : idempotent tags_schema.
Proof.
  apply Joi_array_idempotent; [|reflexivity].
  now apply Joi_string_idempotent.
Qed.

Lemma createTodoSchema_idempotent : idempotent createTodoSchema.
Proof.
  apply Joi_object_idempotent; [apply createTodoSchema_keys_NoDup| |reflexivity].
  unfold createTodoSchema_keys.
  apply Forall_cons; [now apply Joi_string_idempotent|].
  apply Forall_cons; [now apply Joi_string_idempotent|].
  apply Forall_cons; [apply create_priority_idempotent|].
  apply Forall_cons; [now apply Joi_date_iso_idempotent|].
  apply Forall_cons; [apply tags_schema_idempotent|].
  apply Forall_cons; [apply create_completed_idempotent|].
  apply Forall_nil.
Qed.

Lemma updateTodoSchema_idempotent : idempotent updateTodoSchema.
Proof.
  apply Joi_object_idempotent; [apply updateTodoSchema_keys_NoDup| |reflexivity].
  unfold updateTodoSchema_keys.
  apply Forall_cons; [now apply Joi_string_idempotent|].
  apply Forall_cons; [now apply Joi_string_idempotent|].
  apply Forall_cons; [now apply Joi_string_idempotent|].
  apply Forall_cons; [now apply Joi_date_iso_idempotent|].
  apply Forall_cons; [apply tags_schema_idempotent|].
  apply Forall_cons; [now apply Joi_boolean_idempotent|].
  apply Forall_nil.
Qed.

Lemma validate_idempotent schema property rt req req' :
  idempotent schema ->
  validate schema property rt req = Next req' ->
  validate schema property rt req' = Next req'.
Proof.
  intros Hi Hv. apply validate_passed in Hv as [Herr ->].
  destruct (Hi rt validate_options [] (get_property property req) eq_refl eq_refl Herr)
    as [E1 E2].
  unfold validate.
  assert (Hg : get_property property
                 (set_property property
                    (value (schema rt validate_options [] (get_property property req)))
                    req)
               = value (schema rt validate_options [] (get_property property req)))
    by now destruct property.
  rewrite Hg, E1, E2. now destruct property.
Qed.

(** X25.  Validation is idempotent.  A creation or update request that
    passed validation passes it again unchanged: the trimmed texts, the
    converted dates and booleans and the defaults filled in are exactly what
    the schema accepts and returns as it is. *)
Theorem validation_is_idempotent (rt : Runtime) (req req' : Request) :
  (validateBody createTodoSchema rt req = Next req' ->
   validateBody createTodoSchema rt req' = Next req') /\
  (validateBody updateTodoSchema rt req = Next req' ->
   validateBody updateTodoSchema rt req' = Next req') /\
  (forall s, trim (trim s) = trim s).
Proof.
  split; [|split].
  - apply validate_idempotent, createTodoSchema_idempotent.
  - apply validate_idempotent, updateTodoSchema_idempotent.
  - apply trim_idempotent.
Qed.
(* ------------------------------------------------------------------ *)
(** ** What was created is listed and found *)

Lemma sort_rows_newest k rows t :
  (forall r, In r rows -> key_leb k t r = false) ->
  sort_rows (order_leb k desc) (rows ++ [t]) = t :: sort_rows (order_leb k desc) rows.
Proof.
  induction rows as [|r rows IH]; intros H; [reflexivity|].
  cbn [app sort_rows]. rewrite IH by (intros x Hx; apply H; now right).
  cbn [insert_sorted order_leb]. now rewrite (H r) by now left.
Qed.

Lemma createTodo_inv d o w t w1 :
  createTodo d o w = (inr t, w1) ->
  exists s,
    data_title d = Some s /\ t = inserted_row d s o w /\
    w1 = after_insert w (table w ++ [t]).
Proof.
  intros H.
  apply createTodo_done in H as (_ & s & Hs & _ & -> & ->). eauto.
Qed.

Lemma matching_no_options rows : matching no_options rows = rows.
Proof. unfold matching. apply filter_all. intros r. reflexivity. Qed.

(** X26.  A new entity heads the default listing: when [createTodo]
    succeeds at a time later than the creation time of every stored row,
    the list request without parameters (newest first, ten per page)
    returns the new entity as its first row and counts one row more than
    before. *)
Theorem created_is_listed_first (d : TodoData) (o o' : Oracle) (w w1 : World)
    (t : Todo) :
  createTodo d o w = (inr t, w1) ->
  (forall r, In r (table w) -> createdAt r < createdAt t) ->
  exists res,
    getAllTodos no_options o' w1 = (inr res, w1) /\
    hd_error (data res) = Some t /\
    totalItems (pagination res) = list_length (table w) + 1 /\
    sorting res = (by_createdAt, desc).
Proof.
  intros Hc Hnew.
  apply createTodo_inv in Hc as (s & _ & _ & ->).
  destruct (getAllTodos_run no_options o' (after_insert w (table w ++ [t])))
    as (res & Hrun & Hdata & _ & _ & Htotal & _).
  exists res. split; [exact Hrun|].
  cbn [after_insert table] in Hdata, Htotal.
  unfold sorted_matching in Hdata. rewrite matching_no_options in Hdata, Htotal.
  split; [|split].
  - rewrite Hdata. cbn [no_options Options.sortBy Options.sortOrder or_else].
    rewrite sort_rows_newest.
    + reflexivity.
    + intros r Hr. cbn [key_leb]. apply Z.leb_gt. now apply Hnew.
  - rewrite Htotal. unfold list_length. rewrite length_app. cbn [List.length]. lia.
  - assert (H : fst (getAllTodos no_options o' (after_insert w (table w ++ [t])))
                = inr res) by now rewrite Hrun.
    injection H as <-. reflexivity.
Qed.

Lemma created_is_listed_first_witness :
  exists t w1 res,
    createTodo (todoData_of (req_body create_milk)) ticking world_abc = (inr t, w1) /\
    getAllTodos no_options frozen w1 = (inr res, w1) /\
    hd_error (data res) = Some t /\
    map title (data res) = ["Buy milk"; "abc"].
Proof.
  eexists _, _.
  destruct (created_is_listed_first (todoData_of (req_body create_milk)) ticking frozen
              world_abc _ _ eq_refl) as (res & Hrun & Hhd & _).
  - intros r [<-|[]]. cbn. lia.
  - exists res. split; [reflexivity|]. split; [exact Hrun|]. split; [exact Hhd|].
    injection Hrun as <-. reflexivity.
Defined.

Lemma search_predicate_found s a b r :
  s <> EmptyString -> plain s = true ->
  title r = (a ++ s ++ b)%string ->
  search_predicate (Some s) r = true.
Proof.
  intros Hne Hp Ht. unfold search_predicate, truthy.
  destruct s as [|c s]; [congruence|].
  rewrite search_clause_plain by exact Hp.
  unfold title_or_description_contains. rewrite Ht, containsb_middle. reflexivity.
Qed.

Lemma matching_counts opts rows r :
  In r (matching opts rows) -> 1 <= Z.of_nat (List.length (matching opts rows)).
Proof. destruct (matching opts rows); [intros []|simpl; lia]. Qed.

(** X27.  What was created is found again by its title, and by no tag.
    After a successful [createTodo], a search for any part of the title of
    the new entity matches it, as long as the searched text has no
    character that the pattern treats specially; the new entity has no
    tags, and a list request filtered by a tag does not match it. *)
Theorem created_is_found (d : TodoData) (o o' : Oracle) (w w1 : World) (t : Todo) :
  createTodo d o w = (inr t, w1) ->
  (forall a s b,
     title t = (a ++ s ++ b)%string -> s <> EmptyString -> plain s = true ->
     exists res,
       getAllTodos (with_search no_options s) o' w1 = (inr res, w1) /\
       In t (matching (with_search no_options s) (table w1)) /\
       1 <= totalItems (pagination res)) /\
  tags t = None /\
  (forall tag, tag <> EmptyString ->
     ~ In t (matching (with_tag no_options tag) (table w1))).
Proof.
  intros Hc.
  apply createTodo_done in Hc as (Hok & s0 & Hs0 & _ & Ht & ->).
  assert (Hin : In t (table w ++ [t])) by (apply in_or_app; right; now left).
  assert (Htags : tags t = None).
  { apply violations_none in Hok as (_ & _ & _ & Hnone).
    rewrite Ht. cbn [inserted_row tags].
    assert (Hst : stringify_tags d = d)
      by (unfold stringify_tags; destruct Hnone as [-> | ->]; reflexivity).
    rewrite Hst. now destruct Hnone as [-> | ->]. }
  split; [|split; [exact Htags|]].
  - intros a s b Htitle Hne Hp.
    destruct (getAllTodos_run (with_search no_options s) o'
                (after_insert w (table w ++ [t])))
      as (res & Hrun & _ & _ & _ & Htotal & _).
    exists res. split; [exact Hrun|].
    assert (Hm : In t (matching (with_search no_options s) (table w ++ [t]))).
    { unfold matching. apply filter_In. split; [exact Hin|].
      unfold filters_of. rewrite selected_build_filters.
      cbn [with_search no_options Options.status Options.priority Options.search
           Options.tag or_else status_predicate priority_predicate andb].
      change (tag_predicate None t) with true. rewrite andb_true_r.
      now apply (search_predicate_found s a b). }
    cbn [after_insert table]. split; [exact Hm|].
    rewrite Htotal. now apply (matching_counts _ _ t).
  - intros tag Hne Hm. cbn [after_insert table] in Hm.
    unfold matching in Hm. apply filter_In in Hm as [_ Hsel].
    unfold filters_of in Hsel. rewrite selected_build_filters in Hsel.
    cbn [with_tag no_options Options.status Options.priority Options.search
         Options.tag or_else status_predicate priority_predicate andb] in Hsel.
    change (search_predicate None t) with true in Hsel. cbn [andb] in Hsel.
    unfold tag_predicate, truthy in Hsel.
    destruct tag as [|c tag]; [congruence|].
    unfold tag_clause, holds in Hsel. cbn in Hsel. rewrite Htags in Hsel.
    discriminate Hsel.
Qed.

Lemma created_is_found_witness :
  createTodo (todoData_of (req_body create_milk)) ticking world_abc
    = (inr row_milk, world_milk) /\
  exists res,
    getAllTodos (with_search no_options "milk") frozen world_milk
      = (inr res, world_milk) /\
    1 <= totalItems (pagination res).
Proof.
  split; [reflexivity|].
  destruct (proj1 (created_is_found (todoData_of (req_body create_milk)) ticking frozen
                     world_abc world_milk row_milk eq_refl)
              "Buy " "milk" EmptyString eq_refl)
    as (res & Hrun & _ & Hn); [discriminate|reflexivity|].
  exists res. split; assumption.
Defined.
(* ------------------------------------------------------------------ *)
(** ** Totals by status *)

Lemma total_of_run opts o w :
  total_of opts o w = Z.of_nat (List.length (matching opts (table w))).
Proof.
  unfold total_of.
  destruct (getAllTodos_run opts o w) as (res & -> & _ & _ & _ & Htotal & _).
  exact Htotal.
Qed.

Lemma matching_with_status opts s rows :
  matching (with_status opts s) rows
  = filter (fun r => status_predicate s r && selected (filters_of (with_status opts status_all)) r)
           rows.
Proof.
  unfold matching. apply filter_ext. intros r.
  unfold filters_of. rewrite !selected_build_filters.
  cbn [with_status Options.status Options.priority Options.search Options.tag
       or_else status_predicate andb].
  now rewrite !andb_assoc.
Qed.

Lemma filter_and_length {A} (f g : A -> bool) l :
  (List.length (filter (fun x => f x && g x) l)
   + List.length (filter (fun x => negb (f x) && g x) l))%nat
  = List.length (filter g l).
Proof.
  induction l as [|a l IH]; simpl; [reflexivity|].
  destruct (f a), (g a); simpl; lia.
Qed.

(** X28.  The totals by status add up, and they are the figures of the
    statistics.  For any other filters, the number of rows reported for
    status completed plus the number reported for status pending is the
    number reported for status all, and a row matches one of the first two
    exactly when it matches the third; without other filters the three
    totals are the [completed], [pending] and [total] of the statistics. *)
Theorem status_totals_add_up (opts : Options.t) (o o' : Oracle) (w : World) :
  total_of (with_status opts status_completed) o w
    + total_of (with_status opts status_pending) o w
  = total_of (with_status opts status_all) o w /\
  (forall r,
     In r (matching (with_status opts status_all) (table w)) <->
     In r (matching (with_status opts status_completed) (table w)) \/
     In r (matching (with_status opts status_pending) (table w))) /\
  exists s,
    statistics_at o' w = Some s /\
    total_of (with_status no_options status_completed) o w = Statistics.completed s /\
    total_of (with_status no_options status_pending) o w = Statistics.pending s /\
    total_of (with_status no_options status_all) o w = Statistics.total s /\
    total_of no_options o w = Statistics.total s.
Proof.
  split; [|split].
  - rewrite !total_of_run, !matching_with_status.
    set (g := selected (filters_of (with_status opts status_all))).
    rewrite (filter_ext (fun r => status_predicate status_all r && g r) g)
      by reflexivity.
    rewrite (filter_ext (fun r => status_predicate status_completed r && g r)
                        (fun r => completed r && g r))
      by (intros r; cbn [status_predicate]; now destruct (completed r)).
    rewrite (filter_ext (fun r => status_predicate status_pending r && g r)
                        (fun r => negb (completed r) && g r))
      by (intros r; cbn [status_predicate]; now destruct (completed r)).
    rewrite <- (filter_and_length (fun r => completed r) g (table w)). lia.
  - intros r. rewrite !matching_with_status, !filter_In.
    cbn [status_predicate]. destruct (completed r); cbn [Bool.eqb andb];
      intuition discriminate.
  - eexists. split; [apply statistics_at_run|].
    cbn [Statistics.completed Statistics.pending Statistics.total].
    rewrite !total_of_run. unfold count_if, list_length, matching.
    repeat split; do 2 f_equal.
    + apply filter_ext. intros r. unfold filters_of.
      rewrite selected_build_filters. cbn. now destruct (completed r).
    + apply filter_ext. intros r. unfold filters_of.
      rewrite selected_build_filters. cbn. now destruct (completed r).
    + apply filter_all. intros r. reflexivity.
    + apply filter_all. intros r. reflexivity.
Qed.
(* ------------------------------------------------------------------ *)
(** ** Creation with a due date or tags *)

(** X29.  A creation request that passes validation and carries a due date
    or an array of tags is not served: the model checks the payload against
    its own schema, where a due date and the tags are strings or null, and
    receives a date object and the tags as the service has serialized them;
    it raises its validation error before the insert hook runs, the service
    replaces that error by its own, and the request is answered 500
    INTERNAL_SERVER_ERROR.  No row is written, and the clock and the
    identifier generator are not consulted. *)
Theorem tagged_creation_refused (rt : Runtime) (o : Oracle) (w : World)
    (req : Request) (raw : list (string * JsValue)) :
  req_body req = Some (JsObject raw) ->
  (exists req', validateBody createTodoSchema rt req = Next req') ->
  (exists x, get "dueDate" raw = Some x /\ x <> JsNull) \/
  (exists xs, get "tags" raw = Some (JsArray xs)) ->
  (forall req',
     validateBody createTodoSchema rt req = Next req' ->
     exists properties,
       insert (stringify_tags (todoData_of (req_body req'))) o w
         = (inl (ValidationError properties), w) /\
       properties <> [] /\
       incl properties ["dueDate"; "tags"]) /\
  POST_todos rt req o w =
    ({| status := 500;
        json := Failure "INTERNAL_SERVER_ERROR" "Failed to create todo" [] |}, w).
Proof.
  intros Hbody (req' & Hvalid) Hbad.
  assert (Hfacts : forall req'',
            validateBody createTodoSchema rt req = Next req'' ->
            title_violations false (stringify_tags (todoData_of (req_body req''))) = [] /\
            description_violations (stringify_tags (todoData_of (req_body req''))) = [] /\
            ~ storable (todoData_of (req_body req''))).
  { intros req'' Hv.
    destruct (createTodoSchema_passed rt req req'' raw Hbody Hv)
      as ((s & Hs & Ht & Hlen) & Hdesc & _).
    destruct (stringify_tags_fields (todoData_of (req_body req'')))
      as (E1 & E2 & _).
    split; [|split].
    - unfold title_violations. rewrite E1, Ht. destruct Hlen as [H1 H2].
      now rewrite (proj2 (Z.leb_le _ _) H1), (proj2 (Z.leb_le _ _) H2).
    - unfold description_violations. rewrite E2. exact Hdesc.
    - intros Hok.
      apply (createTodoSchema_storable rt req req'' raw Hbody Hv) in Hok
        as [Hd Htg].
      destruct Hbad as [(x & Hx & Hnn)|(xs & Hxs)].
      + rewrite Hx in Hd. destruct Hd as [Hd|Hd]; [discriminate|].
        injection Hd as ->. now apply Hnn.
      + rewrite Hxs in Htg. destruct Htg; discriminate. }
  split.
  - intros req'' Hv. destruct (Hfacts req'' Hv) as (Ht & Hd & Hno).
    exists (jsonSchema_violations false (stringify_tags (todoData_of (req_body req'')))).
    split; [|split].
    + unfold insert. now rewrite fromJson_stop by exact Hno.
    + exact Hno.
    + unfold jsonSchema_violations. rewrite Ht, Hd. cbn [app].
      unfold dueDate_violations, tags_violations.
      intros p Hp. apply in_app_or in Hp as [Hp|Hp].
      * destruct (data_dueDate _) as [[t|]|]; try (now destruct Hp).
        destruct Hp as [<-|[]]. now left.
      * destruct (data_tags _) as [[[ys|ys]|]|]; try (now destruct Hp).
        destruct Hp as [<-|[]]. right. now left.
  - destruct (Hfacts req' Hvalid) as (_ & _ & Hno).
    unfold POST_todos, route. rewrite Hvalid.
    unfold createTodo_controller, asyncHandler, bind.
    now rewrite (createTodo_refused _ o w Hno).
Qed.

Lemma tagged_creation_refused_witness :
  req_body create_abc
    = Some (JsObject [("title", JsString "abc");
                      ("tags", JsArray [JsString "work"])]) /\
  POST_todos sample_runtime create_abc ticking empty_world =
    ({| status := 500;
        json := Failure "INTERNAL_SERVER_ERROR" "Failed to create todo" [] |},
     empty_world).
Proof.
  split; [reflexivity|].
  apply (tagged_creation_refused sample_runtime ticking empty_world create_abc
           [("title", JsString "abc"); ("tags", JsArray [JsString "work"])]
           eq_refl).
  - eexists. vm_compute. reflexivity.
  - right. exists [JsString "work"]. reflexivity.
Defined.
